(** * Sequence bin-packing collator of llm-foundry: a shallow embedding

    Source: [llmfoundry/data/packing.py].  One-dimensional tensors are
    lists of integers, an example (a Python [dict] from field name to
    tensor) is a finite map keyed by strings, a bin is the pair
    [(bin_size, packed_example)] the code stores.  Python exceptions are
    values of [exn]; code that mutates the shared bin list returns the
    list as it stands when the call returns or raises. *)

From stdpp Require Import gmap strings list fin_maps sorting.
From Stdlib Require Import ZArith QArith Lia Lqa.

Local Open Scope Z_scope.

(** ** Python values and exceptions *)

(** The exceptions the packing path can raise.  [AssertionError] carries
    its message: the explicit [raise AssertionError(f'Error in packing.
    ...')] of the engine is told apart from a bare [assert], whose
    message is empty. *)
Inductive exn : Type :=
  | ValueError (msg : string)
  | AssertionError (msg : string)
  | KeyError (key : string)
  | IndexError
  | RuntimeError
  | ZeroDivisionError.

Inductive result (A : Type) : Type :=
  | Ok (a : A)
  | Raise (e : exn).
Arguments Ok {A} a.
Arguments Raise {A} e.

Definition is_ok {A} (r : result A) : bool :=
  match r with Ok _ => true | Raise _ => false end.

(** Sequencing: an exception ends the computation. *)
#[global] Instance result_ret : MRet result := fun A a => Ok a.
#[global] Instance result_bind : MBind result := fun A B k r =>
  match r with Ok a => k a | Raise e => Raise e end.

(** A 1-D tensor of integers. *)
Abbreviation tensor := (list Z).
(** [dict[str, torch.Tensor]] *)
Abbreviation example := (gmap string (list Z)).
(** [tuple[int, dict[str, torch.Tensor]]] *)
Abbreviation bin := (Z * gmap string (list Z))%type.

Definition CROSS_ENTROPY_IGNORE_INDEX : Z := -100.

(** [len(xs)] *)
Definition len {A} (xs : list A) : Z := Z.of_nat (length xs).

(** [sum(xs)] on a list of Python integers. *)
Definition sum (xs : list Z) : Z := foldr Z.add 0 xs.

(** [sum([bin_size for bin_size, _ in bins])] *)
Definition total_bin_sizes {A} (bins : list (Z * A)) : Z := sum (bins.*1).

(** Python slice bounds: the position a bound [k] denotes in a sequence
    of length [n] (negative bounds count from the end, and every bound is
    clamped to [0..n]). *)
Definition slice_index (n : nat) (k : Z) : nat :=
  if k <? 0 then Z.to_nat (Z.max 0 (Z.of_nat n + k))
  else Nat.min (Z.to_nat k) n.

(** [xs[:k]] *)
Definition slice_to {A} (k : Z) (xs : list A) : list A :=
  take (slice_index (length xs) k) xs.

(** [xs[k:]] *)
Definition slice_from {A} (k : Z) (xs : list A) : list A :=
  drop (slice_index (length xs) k) xs.

(** [xs[:k]] where [k] may be [None] (the whole list). *)
Definition slice_to_opt {A} (k : option Z) (xs : list A) : list A :=
  match k with None => xs | Some k => slice_to k xs end.

(** [sorted(xs, key=lambda x: x[0], reverse=True)].  Python's sort is
    stable also under [reverse=True], and a stable sort has one result:
    every element goes in front of the first element whose key is not
    larger than its own. *)
Fixpoint insert_desc {A} (x : Z * A) (xs : list (Z * A)) : list (Z * A) :=
  match xs with
  | [] => [x]
  | y :: ys => if y.1 <=? x.1 then x :: y :: ys else y :: insert_desc x ys
  end.

Definition sorted_desc {A} (xs : list (Z * A)) : list (Z * A) :=
  foldr insert_desc [] xs.

(** [list(zip(sizes, examples))]: stops at the shorter list. *)
Fixpoint zip {A B} (xs : list A) (ys : list B) : list (A * B) :=
  match xs, ys with
  | x :: xs', y :: ys' => (x, y) :: zip xs' ys'
  | _, _ => []
  end.

(** ** [_combine_in_place] *)

(** [add_on['labels'][0] = CROSS_ENTROPY_IGNORE_INDEX]: writing index 0
    of an empty tensor is an IndexError. *)
Definition set_first (v : Z) (t : tensor) : result tensor :=
  match t with
  | [] => Raise IndexError
  | _ :: t' => Ok (v :: t')
  end.

(** [torch.max(t)]: undefined (RuntimeError) on an empty tensor. *)
Definition tensor_max (t : tensor) : result Z :=
  match t with
  | [] => Raise RuntimeError
  | x :: t' => Ok (foldl Z.max x t')
  end.

(** The token tensors are [torch.long]: an addition on their elements is
    an addition of 64-bit integers in two's complement, which wraps
    around ([2^63 = 9223372036854775808]). *)
Definition wrap64 (z : Z) : Z :=
  (z + 9223372036854775808) mod 18446744073709551616 - 9223372036854775808.

(** The body of the loop [for k in example.keys()] for one key, [v]
    being [example[k]]; [add_on[k] + 1 + torch.max(example[k])] is two
    tensor additions. *)
Definition combine_key (add_on : example) (k : string) (v : tensor)
  : result tensor :=
  match add_on !! k with
  | None => Raise (KeyError k)
  | Some a =>
      if decide (k = "sequence_id") then
        m ← tensor_max v ;
        Ok (v ++ map (fun x => wrap64 (wrap64 (x + 1) + m)) a)
      else Ok (v ++ a)
  end.

(** The loop over the keys of [example], in the order [keys] lists them.
    Every iteration reads [example[k]] of the current dict and stores the
    concatenation back under the same key.  A Python dict is walked in
    insertion order and a [gmap] in key order; the iterations touch
    different keys, so the order only decides which exception is seen
    when more than one key would raise. *)
Fixpoint combine_keys (keys : list string) (ex add_on : example)
  : result example :=
  match keys with
  | [] => Ok ex
  | k :: ks =>
      match ex !! k with
      | None => Raise (KeyError k)
      | Some v =>
          v' ← combine_key add_on k v ;
          combine_keys ks (<[k := v']> ex) add_on
      end
  end.

Definition _combine_in_place (ex add_on : example) : result example :=
  add_on' ← match add_on !! "labels" with
            | Some l =>
                l' ← set_first CROSS_ENTROPY_IGNORE_INDEX l ;
                Ok (<["labels" := l']> add_on)
            | None => Ok add_on
            end ;
  combine_keys (map fst (map_to_list ex)) ex add_on'.

(** ** [_pad_tensor] *)

(** [dst[start:stop] = src] on 1-D tensors: [src] must have the length of
    the slice, or length one (it is then broadcast over the slice). *)
Definition slice_assign (start stop : nat) (dst src : tensor)
  : result tensor :=
  let m := (stop - start)%nat in
  if decide (length src = m) then
    Ok (take start dst ++ src ++ drop stop dst)
  else if decide (length src = 1%nat) then
    Ok (take start dst ++ replicate m (hd 0 src) ++ drop stop dst)
  else Raise RuntimeError.

Definition _pad_tensor (t : tensor) (pad_value max_seq_len : Z)
    (padding_side : string) : result tensor :=
  if decide (len t = max_seq_len) then Ok t
  else if max_seq_len <? 0 then Raise RuntimeError (* torch.full((-n,), ..) *)
  else
    let n := Z.to_nat max_seq_len in
    let full := replicate n pad_value in
    if decide (padding_side = "left") then
      slice_assign (slice_index n (- len t)) n full t
    else if decide (padding_side = "right") then
      slice_assign 0 (slice_index n (len t)) full t
    else Raise (ValueError "Unknown padding_side").

(** ** The packing engine, [BinPackCollator._first_fit_bin_packing] *)

(** [for bidx in range(len(bins)): if bins[bidx][0] + size <= max_bin_size]:
    the index of the first bin the item fits in. *)
Fixpoint first_fit (size max_bin_size : Z) (bins : list bin) : option nat :=
  match bins with
  | [] => None
  | b :: bs =>
      if b.1 + size <=? max_bin_size then Some 0%nat
      else S <$> first_fit size max_bin_size bs
  end.

(** The working list [bins] is the caller's list object ([bins =
    existing_bins] binds a second name to it, it makes no copy), so every
    [append] and [pop] is visible to the caller.  Each function below
    therefore returns, next to its outcome, the list as it is when the
    function returns or raises. *)

(** One iteration of the general loop, for the [i]-th item. *)
Definition place_item (is_profiling : bool) (num_bins max_bin_size : Z)
    (num_examples i : Z) (item : bin) (bins : list bin)
  : result unit * list bin :=
  let '(size, ex) := item in
  let required_num_examples := Z.max 0 (num_bins - len bins) in
  let n_remaining := num_examples - i in
  if n_remaining <? required_num_examples then
    (Raise (AssertionError ""), bins)
  else if n_remaining =? required_num_examples then
    (Ok (), bins ++ [(size, ex)])
  else
    match first_fit size max_bin_size bins with
    | Some bidx =>
        match bins !! bidx with
        | Some (bin_size, packed_example) =>
            let bins := delete bidx bins in           (* bins.pop(bidx) *)
            let bin_size := bin_size + size in
            if is_profiling then
              (Ok (), bins ++ [(bin_size, packed_example)])
            else
              match _combine_in_place packed_example ex with
              | Ok packed_example =>
                  (Ok (), bins ++ [(bin_size, packed_example)])
              | Raise e => (Raise e, bins)
              end
        | None => (Raise IndexError, bins)
        end
    | None => (Ok (), bins ++ [(size, ex)])
    end.

(** [for i, (size, example) in enumerate(sorted_sizes_and_examples)],
    from index [i] on. *)
Fixpoint place_items (is_profiling : bool) (num_bins max_bin_size : Z)
    (num_examples i : Z) (items : list bin) (bins : list bin)
  : result unit * list bin :=
  match items with
  | [] => (Ok (), bins)
  | item :: rest =>
      match place_item is_profiling num_bins max_bin_size num_examples i
              item bins with
      | (Ok _, bins) =>
          place_items is_profiling num_bins max_bin_size num_examples
            (i + 1) rest bins
      | (Raise e, bins) => (Raise e, bins)
      end
  end.

(** What the engine returns: [(packed_examples, n_packed_tokens,
    n_total_tokens, leftover_bins)]. *)
Abbreviation packing := (list example * Z * Z * list bin)%type.

(** The consistency check and the output assembly that end both paths of
    the engine. *)
Definition assemble (sizes : list Z) (num_bins : Z)
    (starting_total_bin_sizes : Z) (bins : list bin)
  : result packing * list bin :=
  let total_new_bin_sizes := total_bin_sizes bins - starting_total_bin_sizes in
  let total_example_sizes := sum sizes in
  if decide (total_new_bin_sizes ≠ total_example_sizes) then
    (Raise (AssertionError "Error in packing."), bins)
  else
    let sorted_bins := sorted_desc bins in
    let bin_sizes := sorted_bins.*1 in
    let packed_examples := sorted_bins.*2 in
    (Ok (slice_to num_bins packed_examples,
         sum (slice_to num_bins bin_sizes),
         sum sizes,
         slice_from num_bins sorted_bins), bins).

Definition _first_fit_bin_packing (is_profiling : bool)
    (sizes : list Z) (examples : list example)
    (num_bins max_bin_size : Z) (existing_bins : list bin)
  : result packing * list bin :=
  let bins := existing_bins in
  let starting_total_bin_sizes := total_bin_sizes bins in
  let sizes_and_examples := zip sizes examples in
  let sorted_sizes_and_examples := sorted_desc sizes_and_examples in
  let required_num_examples := Z.max 0 (num_bins - len bins) in
  let num_examples := len sizes in
  if num_examples <? required_num_examples then
    let bins := bins ++ sorted_sizes_and_examples in
    assemble sizes num_bins starting_total_bin_sizes bins
  else
    match place_items is_profiling num_bins max_bin_size num_examples 0
            sorted_sizes_and_examples bins with
    | (Ok _, bins) => assemble sizes num_bins starting_total_bin_sizes bins
    | (Raise e, bins) => (Raise e, bins)
    end.

(** ** The collator, [BinPackCollator] *)

(** The attributes of a collator object ([base_collator], which only
    [__call__] uses, is left out). *)
Record BinPackCollator : Type := {
  out_size : Z;
  max_seq_len : Z;
  pad_token_id : Z;
  padding_side : string;
  max_leftover_bins_to_keep : option Z;
  n_packed_tokens : Z;
  n_total_tokens : Z;
  n_packed_examples : Z;
  _leftover_bins : list bin;
  _is_profiling : bool;
}.

(** [BinPackCollator.__init__] *)
Definition __init__ (target_batch_size max_seq_len pad_token_id : Z)
    (padding_side : string) (max_leftover_bins_to_keep : option Z)
    (is_profiling : bool) : result BinPackCollator :=
  if target_batch_size <=? 0 then
    Raise (ValueError "target_batch_size must be >0.")
  else if max_seq_len <=? 0 then
    Raise (ValueError "max_seq_len must be >0.")
  else if pad_token_id <? 0 then
    Raise (ValueError "pad_token_id must be >=0.")
  else if match max_leftover_bins_to_keep with
          | Some k => k <? 0
          | None => false
          end then
    Raise (ValueError "max_leftover_bins_to_keep must be >=0 or None.")
  else
    Ok {| out_size := target_batch_size;
          max_seq_len := max_seq_len;
          pad_token_id := pad_token_id;
          padding_side := padding_side;
          max_leftover_bins_to_keep := max_leftover_bins_to_keep;
          n_packed_tokens := 0;
          n_total_tokens := 0;
          n_packed_examples := 0;
          _leftover_bins := [];
          _is_profiling := is_profiling |}.

(** A batch: field name to a stack of rows (a 2-D tensor). *)
Abbreviation batch := (gmap string (list (list Z))).

(** The dict [pad_vals] of [_convert_to_batch]. *)
Definition pad_vals (self : BinPackCollator) (key : string) : option Z :=
  if decide (key = "input_ids") then Some (pad_token_id self)
  else if decide (key = "labels") then Some CROSS_ENTROPY_IGNORE_INDEX
  else if decide (key = "attention_mask") then Some 0
  else if decide (key = "sequence_id") then Some (-1)
  else None.

(** [torch.stack]: the tensors must all have one shape. *)
Definition stack (rows : list tensor) : result (list tensor) :=
  match rows with
  | [] => Raise RuntimeError
  | r :: _ =>
      if forallb (fun r' => Nat.eqb (length r') (length r)) rows
      then Ok rows else Raise RuntimeError
  end.

(** The list comprehension of [_convert_to_batch] for one example. *)
Definition pad_field (self : BinPackCollator) (key : string) (ex : example)
  : result tensor :=
  match ex !! key with
  | None => Raise (KeyError key)
  | Some t =>
      match pad_vals self key with
      | None => Raise (KeyError key)
      | Some pad => _pad_tensor t pad (max_seq_len self) (padding_side self)
      end
  end.

(** The loop [for key in keys] of [_convert_to_batch]. *)
Fixpoint convert_keys (self : BinPackCollator) (keys : list string)
    (packed_examples : list example) (acc : batch) : result batch :=
  match keys with
  | [] => Ok acc
  | key :: ks =>
      rows ← mapM (pad_field self key) packed_examples ;
      stacked ← stack rows ;
      convert_keys self ks packed_examples (<[key := stacked]> acc)
  end.

Definition _convert_to_batch (self : BinPackCollator)
    (packed_examples : list example) : result batch :=
  match packed_examples with
  | [] => Raise IndexError                      (* packed_examples[0] *)
  | first :: _ =>
      convert_keys self (map fst (map_to_list first)) packed_examples ∅
  end.

(** [_pack_trimmed_examples]: the engine works on the very list
    [self._leftover_bins]; when it raises, the attribute still names that
    list, as the engine left it.  The counters and the attribute are
    reassigned once the engine has returned, before the batch is built. *)
Definition _pack_trimmed_examples (self : BinPackCollator)
    (trimmed_examples : list example) (sizes : list Z)
  : result (option batch) * BinPackCollator :=
  match _first_fit_bin_packing (_is_profiling self) sizes trimmed_examples
          (out_size self) (max_seq_len self) (_leftover_bins self) with
  | (Raise e, bins) =>
      (Raise e,
       {| out_size := out_size self;
          max_seq_len := max_seq_len self;
          pad_token_id := pad_token_id self;
          padding_side := padding_side self;
          max_leftover_bins_to_keep := max_leftover_bins_to_keep self;
          n_packed_tokens := n_packed_tokens self;
          n_total_tokens := n_total_tokens self;
          n_packed_examples := n_packed_examples self;
          _leftover_bins := bins;
          _is_profiling := _is_profiling self |})
  | (Ok (packed_examples, n_packed, n_total, leftover_bins), _) =>
      let self' :=
        {| out_size := out_size self;
           max_seq_len := max_seq_len self;
           pad_token_id := pad_token_id self;
           padding_side := padding_side self;
           max_leftover_bins_to_keep := max_leftover_bins_to_keep self;
           n_packed_tokens := n_packed_tokens self + n_packed;
           n_total_tokens := n_total_tokens self + n_total;
           n_packed_examples := n_packed_examples self + out_size self;
           _leftover_bins :=
             slice_to_opt (max_leftover_bins_to_keep self) leftover_bins;
           _is_profiling := _is_profiling self |} in
      if _is_profiling self then (Ok None, self')
      else
        match _convert_to_batch self' packed_examples with
        | Ok b => (Ok (Some b), self')
        | Raise e => (Raise e, self')
        end
  end.

(** [_extract_trim_batch_idx]: row [idx] of every field, cut down to the
    positions whose attention mask is 1. *)
Definition mask_select (keep : list bool) (row : list Z) : list Z :=
  (filter (fun p => p.2 = true) (zip row keep)).*1.

Definition _extract_trim_batch_idx (b : batch) (idx : nat)
  : result (Z * example) :=
  if bool_decide (map_Forall (fun _ v => (idx < length v)%nat) b) then
    let ex : example := (fun v : list (list Z) => default [] (v !! idx)) <$> b in
    match ex !! "attention_mask" with
    | None => Raise (KeyError "attention_mask")
    | Some mask =>
        let keep := map (fun x => bool_decide (x = 1)) mask in
        let size := len (filter (fun x => x = true) keep) in
        if bool_decide (map_Forall
                          (fun _ (v : list Z) => length v = length keep) ex)
        then
          let trim_example : example := mask_select keep <$> ex in
          match trim_example !! "input_ids" with
          | None => Raise (KeyError "input_ids")
          | Some ids =>
              Ok (size,
                  <["sequence_id" := replicate (length ids) 0]> trim_example)
          end
        else Raise IndexError
    end
  else Raise IndexError.

(** [_trim_batch] *)
Definition _trim_batch (b : batch) : result (list Z * list example) :=
  match b !! "attention_mask" with
  | None => Raise (KeyError "attention_mask")
  | Some mask =>
      trimmed ← mapM (_extract_trim_batch_idx b) (seq 0 (length mask)) ;
      Ok (trimmed.*1, trimmed.*2)
  end.

(** [pack] *)
Definition allowed_keys : list string :=
  ["input_ids"; "labels"; "attention_mask"; "sequence_id"].

Definition pack (self : BinPackCollator) (b : batch)
  : result batch * BinPackCollator :=
  if _is_profiling self then
    (Raise (ValueError "Cannot pack in profiling mode."), self)
  else if bool_decide (b !! "attention_mask" = None) then
    (Raise (AssertionError ""), self)
  else if bool_decide (b !! "input_ids" = None) then
    (Raise (AssertionError ""), self)
  else if negb (forallb (fun k => bool_decide (k ∈ allowed_keys))
                  (map fst (map_to_list b))) then
    (Raise (AssertionError ""), self)
  else
    match _trim_batch b with
    | Raise e => (Raise e, self)
    | Ok (sizes, trimmed_examples) =>
        match _pack_trimmed_examples self trimmed_examples sizes with
        | (Ok (Some packed_batch), self') => (Ok packed_batch, self')
        | (Ok None, self') => (Raise (AssertionError ""), self')
        | (Raise e, self') => (Raise e, self')
        end
    end.

(** The property [waste], [1 - n_packed_tokens / n_total_tokens], as the
    exact rational the quotient of the two integers stands for.  (The
    float Python computes is that quotient correctly rounded: rounding is
    monotone and keeps 0 and 1, so it obeys the same bounds.) *)
Definition waste (self : BinPackCollator) : result Q :=
  if n_total_tokens self =? 0 then Raise ZeroDivisionError
  else Ok (1 - inject_Z (n_packed_tokens self)
               / inject_Z (n_total_tokens self))%Q.

(** The property [efficiency],
    [n_packed_tokens / (max_seq_len * n_packed_examples)], as the exact
    rational the quotient of the two integers stands for. *)
Definition efficiency (self : BinPackCollator) : result Q :=
  if max_seq_len self * n_packed_examples self =? 0
  then Raise ZeroDivisionError
  else Ok (inject_Z (n_packed_tokens self)
           / inject_Z (max_seq_len self * n_packed_examples self))%Q.

(** [xs[a:b]]. *)
Definition slice {A} (a b : Z) (l : list A) : list A :=
  drop (slice_index (length l) a) (take (slice_index (length l) b) l).

(** [range(0, stop, step)] for [stop >= 0]: the multiples of a positive
    [step] below [stop]; nothing for a negative [step]. *)
Definition range_step (stop step : Z) : result (list Z) :=
  if step =? 0 then Raise (ValueError "range() arg 3 must not be zero")
  else if step <? 0 then Ok []
  else Ok (map (fun i => Z.of_nat i * step)
             (seq 0 (Z.to_nat ((stop + step - 1) / step)))).

(** ** The inner function [profile] of [profile_packing] *)

(** The loop [for idx in range(0, len(trimmed_examples_copy),
    raw_batch_size)]: a chunk of fewer than [device_batch_size] examples
    is skipped, the others are fed to the collator; an exception
    propagates. *)
Fixpoint feed (packer : BinPackCollator)
    (device_batch_size raw_batch_size : Z)
    (trimmed_examples_copy : list example) (sizes : list Z)
    (idxs : list Z) : result BinPackCollator :=
  match idxs with
  | [] => Ok packer
  | idx :: rest =>
      let batch := slice idx (idx + raw_batch_size) trimmed_examples_copy in
      if len batch <? device_batch_size then
        feed packer device_batch_size raw_batch_size
          trimmed_examples_copy sizes rest
      else
        match _pack_trimmed_examples packer batch
                (slice idx (idx + raw_batch_size) sizes) with
        | (Ok _, packer) =>
            feed packer device_batch_size raw_batch_size
              trimmed_examples_copy sizes rest
        | (Raise e, _) => Raise e
        end
  end.

(** [profile(raw_batch_size)], with the variables it takes from
    [profile_packing] as arguments.  The collator is in profiling mode, so
    the examples are never modified and the copies need no model.  The
    percentages are the exact values the float expressions stand for. *)
Definition profile (device_batch_size max_seq_len : Z)
    (max_leftovers_to_keep : option Z)
    (sizes : list Z) (trimmed_examples : list example)
    (raw_batch_size : Z) : result (option Q * option Q) :=
  let trimmed_examples_copy := trimmed_examples in
  packer ← __init__ device_batch_size max_seq_len 0 "left"
             max_leftovers_to_keep true ;
  idxs ← range_step (len trimmed_examples_copy) raw_batch_size ;
  packer ← feed packer device_batch_size raw_batch_size
             trimmed_examples_copy sizes idxs ;
  if n_packed_examples packer =? 0 then Ok (None, None)
  else
    e ← efficiency packer ;
    w ← waste packer ;
    Ok (Some (100 * (1 - e))%Q, Some (100 * w)%Q).

(** A packing call on a collator: [pack(batch)], or
    [_pack_trimmed_examples(trimmed_examples, sizes)] as the profiler
    calls it. *)
Inductive call : Type :=
  | call_pack (b : batch)
  | call_pack_trimmed (trimmed_examples : list example) (sizes : list Z).

Definition do_call (self : BinPackCollator) (c : call)
  : result unit * BinPackCollator :=
  match c with
  | call_pack b =>
      let '(r, self') := pack self b in (_ ← r; Ok (), self')
  | call_pack_trimmed trimmed_examples sizes =>
      let '(r, self') := _pack_trimmed_examples self trimmed_examples sizes
      in (_ ← r; Ok (), self')
  end.

(** The state after a sequence of calls that all return; [None] as soon
    as one raises. *)
Fixpoint successful_calls (self : BinPackCollator) (calls : list call)
  : option BinPackCollator :=
  match calls with
  | [] => Some self
  | c :: cs =>
      match do_call self c with
      | (Ok _, self') => successful_calls self' cs
      | (Raise _, _) => None
      end
  end.

(** The calls the loop of [profile] makes: one for every chunk of at least
    [device_batch_size] examples. *)
Definition fed_calls (device_batch_size raw_batch_size : Z)
    (trimmed_examples_copy : list example) (sizes : list Z)
    (idxs : list Z) : list call :=
  map (fun idx =>
         call_pack_trimmed
           (slice idx (idx + raw_batch_size) trimmed_examples_copy)
           (slice idx (idx + raw_batch_size) sizes))
    (filter (fun idx =>
               device_batch_size
               <= len (slice idx (idx + raw_batch_size)
                         trimmed_examples_copy))
       idxs).

(** The sizes a call passes are token counts. *)
Definition token_counts (c : call) : Prop :=
  match c with
  | call_pack _ => True
  | call_pack_trimmed _ sizes => Forall (fun s => 0 <= s) sizes
  end.

(** Two states of a collator with the same constructor arguments, and
    with the same counters. *)
Definition same_config (self self' : BinPackCollator) : Prop :=
  out_size self' = out_size self ∧
  max_seq_len self' = max_seq_len self ∧
  pad_token_id self' = pad_token_id self ∧
  padding_side self' = padding_side self ∧
  max_leftover_bins_to_keep self' = max_leftover_bins_to_keep self ∧
  _is_profiling self' = _is_profiling self.

Definition same_counters (self self' : BinPackCollator) : Prop :=
  n_packed_tokens self' = n_packed_tokens self ∧
  n_total_tokens self' = n_total_tokens self ∧
  n_packed_examples self' = n_packed_examples self.

(** An example with the fields [K], each holding [size] values, and a
    bin of between 1 and [mx] tokens whose packed example has that many
    values in each field of [K]. *)
Definition wf_example (K : gset string) (size : Z) (ex : example) : Prop :=
  dom ex = K ∧ map_Forall (fun _ v => len v = size) ex.

Definition wf_bin (K : gset string) (mx : Z) (b : bin) : Prop :=
  1 <= b.1 <= mx ∧ wf_example K b.1 b.2.

(** The shape of a field of the packed batch: [n] rows of [mx] values. *)
Definition stacked (n mx : Z) (rows : list tensor) : Prop :=
  len rows = n ∧ Forall (fun r => len r = mx) rows.

(** The number of positions of a row of the attention mask that are 1. *)
Definition attended (mask_row : list Z) : Z :=
  len (filter (fun x => x = 1) mask_row).

(** No example a call passes has more than [mx] tokens: no row of the
    batch attends to more than [mx] positions, or the sizes given are
    token counts of at most [mx]. *)
Definition sizes_within (mx : Z) (c : call) : Prop :=
  match c with
  | call_pack b =>
      ∀ mask, b !! "attention_mask" = Some mask →
              Forall (fun mask_row => attended mask_row <= mx) mask
  | call_pack_trimmed _ sizes => Forall (fun s => 0 <= s <= mx) sizes
  end.

(** A padded batch [pack] can work on: it has [attention_mask] and
    [input_ids] and no field beyond the four allowed, every field has the
    shape of the attention mask, and every row attends to between 1 and
    [mx] positions. *)
Definition wf_batch (mx : Z) (b : batch) (mask : list (list Z)) : Prop :=
  b !! "attention_mask" = Some mask ∧
  is_Some (b !! "input_ids") ∧
  map_Forall (fun k _ => k ∈ allowed_keys) b ∧
  map_Forall (fun _ v =>
                Forall2 (fun row mask_row => length row = length mask_row)
                  v mask) b ∧
  Forall (fun mask_row => 1 <= attended mask_row <= mx) mask.

(** ** Predicates and functions the properties are stated with *)

(** The exceptions of tensor operations, as opposed to assertions. *)
Definition tensor_error (e : exn) : Prop :=
  e = IndexError ∨ e = RuntimeError ∨ ∃ k, e = KeyError k.

(** The shapes the working list can take after one iteration. *)
Inductive placed (is_profiling : bool) (mx : Z) (item : bin)
    (bins : list bin) : result unit → list bin → Prop :=
  | placed_new :
      placed is_profiling mx item bins (Ok ()) (bins ++ [item])
  | placed_merge bidx b packed :
      bins !! bidx = Some b →
      b.1 + item.1 <= mx →
      (if is_profiling then packed = b.2
       else _combine_in_place b.2 item.2 = Ok packed) →
      placed is_profiling mx item bins (Ok ())
        (delete bidx bins ++ [(b.1 + item.1, packed)])
  | placed_raise bidx b e :
      bins !! bidx = Some b →
      is_profiling = false →
      _combine_in_place b.2 item.2 = Raise e →
      placed is_profiling mx item bins (Raise e) (delete bidx bins).

(** A bin is within capacity. *)
Definition within (max_bin_size : Z) (b : bin) : Prop := b.1 <= max_bin_size.

(** The greatest element of a non-empty tensor, as [tensor_max] computes
    it. *)
Definition max_of (t : tensor) : Z := foldl Z.max (hd 0 t) (tl t).

(** What [_combine_in_place] stores under key [k], from the bin's tensor
    [v] and the add-on's tensor [a]. *)
Definition joined (k : string) (v a : tensor) : tensor :=
  if decide (k = "sequence_id") then
    v ++ map (fun x => wrap64 (wrap64 (x + 1) + max_of v)) a
  else v ++ a.

(** What the counters and the leftover bins satisfy between calls: the
    tokens counted as packed and those still waiting in leftover bins
    were all counted as received. *)
Definition accounted (self : BinPackCollator) : Prop :=
  0 <= n_packed_tokens self ∧
  n_packed_tokens self + total_bin_sizes (_leftover_bins self)
    <= n_total_tokens self ∧
  Forall (fun b => 0 <= b.1) (_leftover_bins self).

(** The sequence ids of [counts] examples packed one after the other:
    [c0] times [i], then [c1] times [i + 1], and so on. *)
Fixpoint blocks_from (i : Z) (counts : list nat) : tensor :=
  match counts with
  | [] => []
  | c :: cs => replicate c i ++ blocks_from (i + 1) cs
  end.

(** A bin that holds examples of [counts] tokens, packed in this order:
    its [sequence_id] numbers them from 0, each number repeated over the
    tokens of its example, and the lengths add up to the size of the bin;
    and an item as [_trim_batch] makes them, with a [sequence_id] of
    zeros. *)
Definition numbered_by (counts : list nat) (b : bin) : Prop :=
  counts ≠ [] ∧ Forall (fun c => (0 < c)%nat) counts ∧
  b.1 = Z.of_nat (sum_list counts) ∧
  b.2 !! "sequence_id" = Some (blocks_from 0 counts).

Definition unnumbered (item : bin) : Prop :=
  1 <= item.1 ∧
  item.2 !! "sequence_id" = Some (replicate (Z.to_nat item.1) 0).

(** A bin whose [attention_mask] is a 1 for each of its tokens. *)
Definition attending (b : bin) : Prop :=
  0 <= b.1 ∧ b.2 !! "attention_mask" = Some (replicate (Z.to_nat b.1) 1).

(** The add-on once [_combine_in_place] has forced its first label. *)
Definition forced (add_on : example) : example :=
  match add_on !! "labels" with
  | Some l => <["labels" := CROSS_ENTROPY_IGNORE_INDEX :: tl l]> add_on
  | None => add_on
  end.

(** ** The profiler, [auto_packing_ratio] *)

(** Floating-point numbers are kept abstract: a type with the few
    operations [auto_packing_ratio] applies to its ratios. *)
Record float_ops : Type := {
  float : Type;
  of_int : Z → float;                  (* an integer as a float *)
  div_100 : Z → float;                 (* [max_seq_len / 100] *)
  fle : float → float → bool;          (* [x <= y] *)
  positive : float → bool;             (* [x > 0] *)
}.

(** The collaborators of [auto_packing_ratio]: the state of the global
    random-number generators, which [reproducibility.seed_all] sets from
    a seed; [profile_packing], consumed by the selection loop, which
    yields [(packing_ratio, padding, waste)] triples or raises and leaves
    the generators in some state; and the process group, with its
    minimum over the ranks. *)
Record profiling_env (F : float_ops) : Type := {
  rng_state : Type;
  seed_all : Z → rng_state;
  profile_packing :
    float F → float F → rng_state →
    result (list (float F * option (float F) * option (float F)))
    * rng_state;
  dist_initialized : bool;
  all_reduce_min : float F → float F;
}.
Arguments rng_state {F} _.
Arguments seed_all {F} _ _.
Arguments profile_packing {F} _ _ _ _.
Arguments dist_initialized {F} _.
Arguments all_reduce_min {F} _ _.

(** The loop [for packing_ratio_candidate, _, waste in profiling_results]:
    the last candidate before the first one with waste. *)
Fixpoint select_ratio {F : float_ops} (packing_ratio : float F)
    (profiling_results : list (float F * option (float F) * option (float F)))
  : float F :=
  match profiling_results with
  | [] => packing_ratio
  | (packing_ratio_candidate, _, waste) :: rest =>
      match waste with
      | None => packing_ratio                                   (* break *)
      | Some w =>
          if positive F w then packing_ratio                    (* break *)
          else select_ratio packing_ratio_candidate rest
      end
  end.

(** [auto_packing_ratio], from the state [g] of the generators at the
    call to the result and the state of the generators when the call
    returns or raises. *)
Definition auto_packing_ratio {F : float_ops} (env : profiling_env F)
    (max_seq_len : Z) (max_ratio : option (float F)) (g : rng_state env)
  : result (float F) * rng_state env :=
  let saved := g in                    (* reproducibility.get_rng_state() *)
  let g := seed_all env 0 in           (* reproducibility.seed_all(0) *)
  if max_seq_len <=? 100 then (Ok (of_int F 1), g)
  else
    let min_ratio := of_int F 1 in
    match
      match max_ratio with
      | None => Ok (div_100 F max_seq_len)
      | Some r =>
          if fle F r min_ratio then
            Raise (ValueError "max_ratio must be >min_ratio")
          else Ok r
      end
    with
    | Raise e => (Raise e, g)
    | Ok max_ratio =>
        match profile_packing env min_ratio max_ratio g with
        | (Raise e, g) => (Raise e, g)
        | (Ok profiling_results, _) =>
            let packing_ratio :=
              select_ratio (of_int F 1) profiling_results in
            let packing_ratio :=
              if dist_initialized env then all_reduce_min env packing_ratio
              else packing_ratio in
            let g := saved in          (* load_rng_state(rng_state) *)
            (Ok packing_ratio, g)
        end
    end.

(** ** Scenarios *)

(** A collator as [__init__] leaves it. *)
Definition fresh (target_batch_size max_seq_len pad_token_id : Z)
    (padding_side : string) (max_leftover_bins_to_keep : option Z)
    (is_profiling : bool) : BinPackCollator :=
  {| out_size := target_batch_size;
     max_seq_len := max_seq_len;
     pad_token_id := pad_token_id;
     padding_side := padding_side;
     max_leftover_bins_to_keep := max_leftover_bins_to_keep;
     n_packed_tokens := 0;
     n_total_tokens := 0;
     n_packed_examples := 0;
     _leftover_bins := [];
     _is_profiling := is_profiling |}.

(** Three rows of six positions with labels; the last row is all
    padding. *)
Definition batch_with_empty_row : batch :=
  <["input_ids" := [[1; 2; 3; 4; 5; 6]; [1; 2; 3; 4; 5; 6];
                    [0; 0; 0; 0; 0; 0]]]>
  (<["attention_mask" := [[1; 1; 1; 1; 1; 1]; [1; 1; 1; 1; 1; 1];
                          [0; 0; 0; 0; 0; 0]]]>
  (<["labels" := [[1; 2; 3; 4; 5; 6]; [1; 2; 3; 4; 5; 6];
                  [0; 0; 0; 0; 0; 0]]]> ∅)).

(** A full row of [batch_with_empty_row], trimmed. *)
Definition trimmed_full_row : example :=
  <["input_ids" := [1; 2; 3; 4; 5; 6]]>
  (<["attention_mask" := [1; 1; 1; 1; 1; 1]]>
  (<["labels" := [1; 2; 3; 4; 5; 6]]>
  (<["sequence_id" := [0; 0; 0; 0; 0; 0]]> ∅))).

(** One row of three tokens. *)
Definition batch_of_three_tokens : batch :=
  <["input_ids" := [[1; 2; 3]]]> (<["attention_mask" := [[1; 1; 1]]]> ∅).

(** One row, all padding. *)
Definition batch_all_padding : batch :=
  <["input_ids" := [[0; 0]]]> (<["attention_mask" := [[0; 0]]]> ∅).

(** The two examples of the combine scenario of the specification, and
    an example without tokens. *)
Definition scenario_bin : example :=
  <["labels" := [5; 6; 7]]> (<["sequence_id" := [0; 0; 0]]> ∅).
Definition scenario_add_on : example :=
  <["labels" := [8; 9]]> (<["sequence_id" := [0; 0]]> ∅).
Definition scenario_empty : example :=
  <["labels" := []]> (<["sequence_id" := []]> ∅).

(** Two rows of three positions, of two and three tokens. *)
Definition batch_of_two_rows : batch :=
  <["input_ids" := [[7; 8; 0]; [9; 9; 9]]]>
  (<["attention_mask" := [[1; 1; 0]; [1; 1; 1]]]> ∅).

(** Floats read as exact rationals, and a single process whose profiler
    reports [results] and advances the generators. *)
Definition exact_floats : float_ops :=
  {| float := Q;
     of_int := inject_Z;
     div_100 := fun n => (inject_Z n / 100)%Q;
     fle := Qle_bool;
     positive := fun x => negb (Qle_bool x 0) |}.

Definition single_process
    (results : list (Q * option Q * option Q))
  : profiling_env exact_floats :=
  Build_profiling_env exact_floats
    Z                                        (* rng_state *)
    (fun seed => seed)                       (* seed_all *)
    (fun _ _ g => (Ok results, g + 1))       (* profile_packing *)
    false                                    (* dist_initialized *)
    (fun x => x).                            (* all_reduce_min *)

(** * Properties *)

(** ** Sums, slices and the stable sort *)

Section lists.
Context {A : Type}.
Implicit Types (xs ys : list (Z * A)) (x : Z * A).

Lemma sum_app (l1 l2 : list Z) : sum (l1 ++ l2) = sum l1 + sum l2.
Proof. unfold sum. induction l1 as [|a l1 IH]; simpl; lia. Qed.

Lemma sum_Permutation (l1 l2 : list Z) : l1 ≡ₚ l2 → sum l1 = sum l2.
Proof. unfold sum. induction 1; simpl; lia. Qed.

Lemma sum_nonneg (l : list Z) : Forall (fun z => 0 <= z) l → 0 <= sum l.
Proof. unfold sum. induction 1; simpl; lia. Qed.

Lemma total_nil : total_bin_sizes (@nil (Z * A)) = 0.
Proof. reflexivity. Qed.

Lemma total_cons x xs :
  total_bin_sizes (x :: xs) = x.1 + total_bin_sizes xs.
Proof. reflexivity. Qed.

Lemma total_app xs ys :
  total_bin_sizes (xs ++ ys) = total_bin_sizes xs + total_bin_sizes ys.
Proof. unfold total_bin_sizes. rewrite fmap_app. apply sum_app. Qed.

Lemma total_Permutation xs ys :
  xs ≡ₚ ys → total_bin_sizes xs = total_bin_sizes ys.
Proof.
  intros H. unfold total_bin_sizes. apply sum_Permutation.
  by apply fmap_Permutation.
Qed.

Lemma total_delete xs (i : nat) x :
  xs !! i = Some x →
  total_bin_sizes xs = x.1 + total_bin_sizes (delete i xs).
Proof.
  intros H. rewrite (total_Permutation _ _ (delete_Permutation _ _ _ H)).
  apply total_cons.
Qed.

Lemma slice_index_le (n : nat) (k : Z) : (slice_index n k ≤ n)%nat.
Proof. unfold slice_index. destruct (k <? 0) eqn:E; lia. Qed.

(** [xs[:k] + xs[k:] == xs], for every integer [k]. *)
Lemma slice_to_from (B : Type) (k : Z) (l : list B) :
  slice_to k l ++ slice_from k l = l.
Proof. apply take_drop. Qed.

Lemma slice_to_fmap (B C : Type) (f : B → C) (k : Z) (l : list B) :
  slice_to k (f <$> l) = f <$> slice_to k l.
Proof. unfold slice_to. by rewrite length_fmap, fmap_take. Qed.

Lemma length_slice_to (B : Type) (k : Z) (l : list B) :
  0 <= k <= len l → len (slice_to k l) = k.
Proof.
  unfold slice_to, slice_index, len. intros H.
  destruct (k <? 0) eqn:E; [lia|]. rewrite length_take. lia.
Qed.

Lemma slice_to_all (B : Type) (k : Z) (l : list B) :
  len l <= k → slice_to k l = l.
Proof.
  unfold slice_to, slice_index, len. intros H.
  destruct (k <? 0) eqn:E; [lia|]. apply take_ge. lia.
Qed.

Lemma slice_from_all (B : Type) (k : Z) (l : list B) :
  len l <= k → slice_from k l = [].
Proof.
  unfold slice_from, slice_index, len. intros H.
  destruct (k <? 0) eqn:E; [lia|]. apply drop_ge. lia.
Qed.

Lemma insert_desc_Permutation x xs : insert_desc x xs ≡ₚ x :: xs.
Proof.
  induction xs as [|y ys IH]; simpl; [done|].
  destruct (y.1 <=? x.1); [done|]. rewrite IH. apply Permutation_swap.
Qed.

Lemma sorted_desc_Permutation xs : sorted_desc xs ≡ₚ xs.
Proof.
  induction xs as [|x xs IH]; simpl; [done|].
  unfold sorted_desc in *. simpl. rewrite insert_desc_Permutation.
  by constructor.
Qed.

Lemma length_sorted_desc xs : length (sorted_desc xs) = length xs.
Proof. apply Permutation_length, sorted_desc_Permutation. Qed.

Lemma total_sorted_desc xs :
  total_bin_sizes (sorted_desc xs) = total_bin_sizes xs.
Proof. apply total_Permutation, sorted_desc_Permutation. Qed.

Lemma Forall_sorted_desc (P : Z * A → Prop) xs :
  Forall P xs → Forall P (sorted_desc xs).
Proof. intros H. by rewrite sorted_desc_Permutation. Qed.

(** The result of the sort is in non-increasing order of size. *)
Lemma insert_desc_sorted x xs :
  Sorted (fun a b => b.1 <= a.1) xs →
  Sorted (fun a b => b.1 <= a.1) (insert_desc x xs).
Proof.
  induction 1 as [|y ys Hs IH Hhd]; simpl.
  - repeat constructor.
  - destruct (Z.leb_spec y.1 x.1).
    + constructor; [by constructor|]. by constructor.
    + constructor; [done|]. destruct Hhd as [|z zs Hz]; simpl.
      * constructor. lia.
      * destruct (z.1 <=? x.1); constructor; lia.
Qed.

Lemma sorted_desc_sorted xs :
  Sorted (fun a b => b.1 <= a.1) (sorted_desc xs).
Proof.
  induction xs as [|x xs IH]; [constructor|].
  by apply insert_desc_sorted.
Qed.
End lists.

Lemma zip_fst_le {A B} (xs : list A) (ys : list B) :
  (length xs ≤ length ys)%nat → (zip xs ys).*1 = xs.
Proof.
  revert ys. induction xs as [|x xs IH]; intros [|y ys] H; simpl in *;
    try done; try lia.
  f_equal. apply IH. lia.
Qed.

Lemma length_zip {A B} (xs : list A) (ys : list B) :
  length (zip xs ys) = Nat.min (length xs) (length ys).
Proof.
  revert ys. induction xs as [|x xs IH]; intros [|y ys]; simpl; try done.
  by rewrite IH.
Qed.

(** ** The engine: what one placement does to the working list *)

Lemma combine_key_raise add_on k v e :
  combine_key add_on k v = Raise e → tensor_error e.
Proof.
  unfold combine_key, tensor_error. destruct (add_on !! k); [|naive_solver].
  case_decide; [|done]. destruct v; simpl; naive_solver.
Qed.

Lemma combine_keys_raise keys ex add_on e :
  combine_keys keys ex add_on = Raise e → tensor_error e.
Proof.
  revert ex. induction keys as [|k ks IH]; intros ex; simpl; [done|].
  destruct (ex !! k) as [v|]; [|unfold tensor_error; naive_solver].
  destruct (combine_key add_on k v) eqn:E; simpl; [apply IH|].
  intros [= <-]. by eapply combine_key_raise.
Qed.

Lemma combine_raise ex add_on e :
  _combine_in_place ex add_on = Raise e → tensor_error e.
Proof.
  unfold _combine_in_place. destruct (add_on !! "labels") as [[|x l]|]; simpl.
  - intros [= <-]. unfold tensor_error. naive_solver.
  - apply combine_keys_raise.
  - apply combine_keys_raise.
Qed.

Lemma first_fit_Some size mx (bins : list bin) i :
  first_fit size mx bins = Some i →
  ∃ b, bins !! i = Some b ∧ b.1 + size <= mx.
Proof.
  revert i. induction bins as [|b bs IH]; intros i; simpl; [done|].
  destruct (Z.leb_spec (b.1 + size) mx).
  - intros [= <-]. eauto.
  - destruct (first_fit size mx bs) as [j|]; simpl; [|done].
    intros [= <-]. destruct (IH j eq_refl) as (b' & ? & ?). eauto.
Qed.

Lemma first_fit_None size mx (bins : list bin) :
  first_fit size mx bins = None → Forall (fun b => mx < b.1 + size) bins.
Proof.
  induction bins as [|b bs IH]; simpl; [constructor|].
  destruct (Z.leb_spec (b.1 + size) mx); [done|].
  destruct (first_fit size mx bs); simpl; [done|]. intros _.
  constructor; [lia|by apply IH].
Qed.

Lemma len_app {A} (l1 l2 : list A) : len (l1 ++ l2) = len l1 + len l2.
Proof. unfold len. rewrite length_app. lia. Qed.

Lemma len_delete {A} (l : list A) i x :
  l !! i = Some x → len (delete i l) = len l - 1.
Proof.
  intros H. unfold len. rewrite length_delete by eauto.
  apply lookup_lt_Some in H. lia.
Qed.

Lemma len_nonneg {A} (l : list A) : 0 <= len l.
Proof. unfold len. lia. Qed.

Lemma len_nil {A} : len (@nil A) = 0.
Proof. reflexivity. Qed.

Lemma len_cons {A} (x : A) (l : list A) : len (x :: l) = 1 + len l.
Proof. unfold len. simpl. lia. Qed.

Lemma len_snoc {A} (l : list A) x : len (l ++ [x]) = len l + 1.
Proof. rewrite len_app. reflexivity. Qed.

Lemma total_snoc {A} (l : list (Z * A)) x :
  total_bin_sizes (l ++ [x]) = total_bin_sizes l + x.1.
Proof. rewrite total_app, total_cons, total_nil. lia. Qed.

(** The bare [assert n_remaining >= required_num_examples] holds
    whenever it held at the previous iteration: an iteration either
    leaves it to the side of the reserve or opens a bin. *)
Lemma place_item_placed prof nb mx n i item bins :
  Z.max 0 (nb - len bins) <= n - i →
  placed prof mx item bins
    (place_item prof nb mx n i item bins).1
    (place_item prof nb mx n i item bins).2.
Proof.
  intros Hinv. unfold place_item. destruct item as [size ex].
  destruct (Z.ltb_spec (n - i) (Z.max 0 (nb - len bins))); [lia|].
  destruct (Z.eqb_spec (n - i) (Z.max 0 (nb - len bins))); [constructor|].
  destruct (first_fit size mx bins) as [bidx|] eqn:Hfit; [|constructor].
  destruct (first_fit_Some _ _ _ _ Hfit) as ([bs p] & Hb & Hle).
  rewrite Hb. destruct prof.
  - by apply (placed_merge true mx (size, ex) bins bidx (bs, p) p).
  - destruct (_combine_in_place p ex) as [p'|e] eqn:Hc.
    + by apply (placed_merge false mx (size, ex) bins bidx (bs, p) p').
    + by apply (placed_raise false mx (size, ex) bins bidx (bs, p) e).
Qed.

(** An iteration that does not raise adds the size of its item to the
    total, never removes a bin, and keeps the number of items left at or
    above the number of bins still to open. *)
Lemma place_item_ok prof nb mx n i item bins bins' :
  Z.max 0 (nb - len bins) <= n - i → 1 <= n - i →
  place_item prof nb mx n i item bins = (Ok (), bins') →
  total_bin_sizes bins' = total_bin_sizes bins + item.1 ∧
  len bins <= len bins' ∧
  Z.max 0 (nb - len bins') <= n - (i + 1).
Proof.
  intros Hinv Hi Heq. unfold place_item in Heq. destruct item as [size ex].
  destruct (Z.ltb_spec (n - i) (Z.max 0 (nb - len bins))); [lia|].
  destruct (Z.eqb_spec (n - i) (Z.max 0 (nb - len bins))).
  { injection Heq as <-. rewrite total_snoc, len_snoc. simpl. lia. }
  destruct (first_fit size mx bins) as [bidx|] eqn:Hfit.
  2:{ injection Heq as <-. rewrite total_snoc, len_snoc. simpl. lia. }
  destruct (first_fit_Some _ _ _ _ Hfit) as ([bs p] & Hb & Hle).
  rewrite Hb in Heq.
  assert (∃ p', bins' = delete bidx bins ++ [(bs + size, p')]) as [p' ->].
  { destruct prof; [injection Heq as <-; eauto|].
    destruct (_combine_in_place p ex); [|done]. injection Heq as <-. eauto. }
  rewrite total_snoc, len_snoc, (len_delete _ _ _ Hb).
  rewrite (total_delete _ _ _ Hb). simpl. lia.
Qed.

Lemma place_item_raise prof nb mx n i item bins e bins' :
  Z.max 0 (nb - len bins) <= n - i →
  place_item prof nb mx n i item bins = (Raise e, bins') →
  prof = false ∧ tensor_error e.
Proof.
  intros Hinv Heq. pose proof (place_item_placed prof nb mx n i item bins Hinv) as H.
  rewrite Heq in H. simpl in H. inversion H; subst.
  split; [done|]. by eapply combine_raise.
Qed.

(** ** The engine: the whole loop and the output assembly *)

Lemma place_items_ok prof nb mx n items : ∀ i bins bins',
  Z.max 0 (nb - len bins) <= n - i → len items <= n - i →
  place_items prof nb mx n i items bins = (Ok (), bins') →
  total_bin_sizes bins' = total_bin_sizes bins + total_bin_sizes items ∧
  len bins <= len bins' ∧
  Z.max 0 (nb - len bins') <= n - (i + len items).
Proof.
  induction items as [|item rest IH]; intros i bins bins' Hinv Hlen; simpl.
  - intros [= <-]. rewrite total_nil.
    unfold len in *. simpl. lia.
  - rewrite len_cons in Hlen |- *. pose proof (len_nonneg rest).
    destruct (place_item prof nb mx n i item bins) as [[[]|e] bins1] eqn:E;
      [|done].
    intros Hrest.
    destruct (place_item_ok _ _ _ _ _ _ _ _ Hinv ltac:(lia) E)
      as (Ht & Hl & Hinv').
    destruct (IH (i + 1) bins1 bins' Hinv' ltac:(lia) Hrest)
      as (Ht' & Hl' & Hinv'').
    rewrite total_cons.
    replace (i + (1 + len rest)) with (i + 1 + len rest) by lia. lia.
Qed.

Lemma place_items_raise prof nb mx n items : ∀ i bins e bins',
  Z.max 0 (nb - len bins) <= n - i → len items <= n - i →
  place_items prof nb mx n i items bins = (Raise e, bins') →
  prof = false ∧ tensor_error e.
Proof.
  induction items as [|item rest IH]; intros i bins e bins' Hinv Hlen; simpl;
    [done|].
  rewrite len_cons in Hlen. pose proof (len_nonneg rest).
  destruct (place_item prof nb mx n i item bins) as [[[]|e1] bins1] eqn:E.
  - destruct (place_item_ok _ _ _ _ _ _ _ _ Hinv ltac:(lia) E)
      as (_ & _ & Hinv').
    apply IH; [done|lia].
  - intros [= <- <-]. by eapply place_item_raise.
Qed.

(** In profiling mode the loop cannot raise. *)
Lemma place_items_profiling nb mx n items i bins :
  Z.max 0 (nb - len bins) <= n - i → len items <= n - i →
  ∃ bins', place_items true nb mx n i items bins = (Ok (), bins').
Proof.
  intros Hinv Hlen.
  destruct (place_items true nb mx n i items bins) as [[[]|e] bins'] eqn:E;
    [eauto|].
  by destruct (place_items_raise _ _ _ _ _ _ _ _ _ Hinv Hlen E).
Qed.

Lemma assemble_bins sizes nb start bins :
  (assemble sizes nb start bins).2 = bins.
Proof. unfold assemble. by case_decide. Qed.

Lemma assemble_ok sizes nb start bins out bins' :
  assemble sizes nb start bins = (Ok out, bins') →
  bins' = bins ∧
  total_bin_sizes bins - start = sum sizes ∧
  out = ((slice_to nb (sorted_desc bins)).*2,
         total_bin_sizes (slice_to nb (sorted_desc bins)),
         sum sizes,
         slice_from nb (sorted_desc bins)).
Proof.
  unfold assemble. case_decide as Hne; [done|]. intros [= <- <-].
  split; [done|]. split; [lia|].
  unfold total_bin_sizes. by rewrite !slice_to_fmap.
Qed.

Lemma assemble_raise sizes nb start bins e bins' :
  assemble sizes nb start bins = (Raise e, bins') →
  e = AssertionError "Error in packing." ∧
  total_bin_sizes bins - start ≠ sum sizes.
Proof. unfold assemble. case_decide; [|done]. by intros [= <- <-]. Qed.

(** Whichever path the engine took, a result it returns was assembled
    from the working list as the call left it. *)
Lemma engine_ok prof sizes examples nb mx existing out bins' :
  _first_fit_bin_packing prof sizes examples nb mx existing
    = (Ok out, bins') →
  assemble sizes nb (total_bin_sizes existing) bins' = (Ok out, bins').
Proof.
  unfold _first_fit_bin_packing.
  destruct (len sizes <? Z.max 0 (nb - len existing)).
  - intros H. pose proof (f_equal snd H) as Hb. simpl in Hb.
    rewrite assemble_bins in Hb. by subst bins'.
  - destruct (place_items _ _ _ _ _ _ _) as [[[]|e] bins1]; [|done].
    intros H. pose proof (f_equal snd H) as Hb. simpl in Hb.
    rewrite assemble_bins in Hb. by subst bins'.
Qed.

(** The engine either returns or raises for one of two reasons: a tensor
    operation failed while an item was combined into a bin (this needs
    the normal mode), or [zip] dropped sizes that had no example and the
    consistency check noticed. *)
Lemma engine_outcome prof sizes examples nb mx existing :
  match (_first_fit_bin_packing prof sizes examples nb mx existing).1 with
  | Ok _ => True
  | Raise e =>
      (prof = false ∧ tensor_error e) ∨
      (e = AssertionError "Error in packing." ∧
       (length examples < length sizes)%nat)
  end.
Proof.
  unfold _first_fit_bin_packing.
  set (items := sorted_desc (zip sizes examples)).
  assert (len items <= len sizes) as Hlen.
  { unfold items, len. rewrite length_sorted_desc, length_zip. lia. }
  assert (total_bin_sizes items = sum (zip sizes examples).*1) as Hitems.
  { unfold items. by rewrite total_sorted_desc. }
  assert (∀ bins, total_bin_sizes bins
                   = total_bin_sizes existing + total_bin_sizes items →
          match (assemble sizes nb (total_bin_sizes existing) bins).1 with
          | Ok _ => True
          | Raise e =>
              (prof = false ∧ tensor_error e) ∨
              (e = AssertionError "Error in packing." ∧
               (length examples < length sizes)%nat)
          end) as Hasm.
  { intros bins Ht.
    destruct (assemble _ _ _ bins) as [[out|e] bins'] eqn:E; simpl; [done|].
    destruct (assemble_raise _ _ _ _ _ _ E) as [-> Hne]. right.
    split; [done|]. destruct (decide (length sizes ≤ length examples)%nat);
      [|lia].
    rewrite Hitems, zip_fst_le in Ht by done. lia. }
  destruct (Z.ltb_spec (len sizes) (Z.max 0 (nb - len existing))).
  - apply Hasm. by rewrite total_app.
  - destruct (place_items _ _ _ _ _ _ _) as [[[]|e] bins1] eqn:E.
    + apply Hasm.
      by destruct (place_items_ok prof nb mx (len sizes) items 0 existing
                     bins1) as (? & _ & _); [lia|lia|exact E|].
    + simpl. left.
      by apply (place_items_raise prof nb mx (len sizes) items 0 existing
                  e bins1); [lia|lia|exact E].
Qed.

(** In profiling mode, with an example for every size, the engine
    returns. *)
Lemma engine_profiling_returns sizes examples nb mx existing :
  (length sizes ≤ length examples)%nat →
  ∃ out bins',
    _first_fit_bin_packing true sizes examples nb mx existing
      = (Ok out, bins').
Proof.
  intros Hlen.
  pose proof (engine_outcome true sizes examples nb mx existing) as H.
  destruct (_first_fit_bin_packing true sizes examples nb mx existing)
    as [[out|e] bins']; simpl in H; [eauto|].
  destruct H as [[? _]|[_ ?]]; [done|lia].
Qed.

(** ** Token conservation *)

(** C1.  Token conservation: whenever the engine returns, the returned
    examples are those of a list [selected] of bins whose sizes add up to
    the returned [n_packed_tokens], and the sizes of the new items plus
    the sizes of the bins carried in equal the sizes of the selected bins
    plus the sizes of the returned leftover bins; [n_total_tokens] is the
    sum of the new sizes.  This holds for every [num_bins] (a negative
    one included: a Python slice at any bound splits the list in two),
    every [max_bin_size] and both modes.  The engine does return: the
    only calls that raise are those where a tensor operation fails while
    combining, in normal mode, and those that pass fewer examples than
    sizes. *)
Theorem first_fit_conservation prof sizes examples nb mx existing :
  match (_first_fit_bin_packing prof sizes examples nb mx existing).1 with
  | Ok (packed_examples, n_packed, n_total, leftover_bins) =>
      ∃ selected : list bin,
        packed_examples = selected.*2 ∧
        n_packed = total_bin_sizes selected ∧
        n_total = sum sizes ∧
        selected ++ leftover_bins ≡ₚ
          (_first_fit_bin_packing prof sizes examples nb mx existing).2 ∧
        sum sizes + total_bin_sizes existing
          = total_bin_sizes selected + total_bin_sizes leftover_bins
  | Raise e =>
      (prof = false ∧ tensor_error e) ∨
      (e = AssertionError "Error in packing." ∧
       (length examples < length sizes)%nat)
  end.
Proof.
  pose proof (engine_outcome prof sizes examples nb mx existing) as Hout.
  destruct (_first_fit_bin_packing prof sizes examples nb mx existing)
    as [[out|e] bins'] eqn:E; simpl in *; [|done].
  apply engine_ok, assemble_ok in E as (_ & Hsum & ->).
  exists (slice_to nb (sorted_desc bins')).
  repeat split.
  - by rewrite slice_to_from, sorted_desc_Permutation.
  - rewrite <- total_app, slice_to_from, total_sorted_desc. lia.
Qed.

(** ** The consistency check *)

(** C6.  The items of the engine are (size, example) pairs: every size
    comes with its example, as in both callers ([pack] through
    [_trim_batch], the profiler through equal slices).  On such input the
    engine raises no [AssertionError] at all, neither the one of the
    consistency check nor the one of the bare [assert] of the loop, on
    the fast-exit path and on the general path alike; whenever it
    returns, the total of the bins minus the total of the bins carried in
    is the sum of the sizes; and in profiling mode it does return. *)
Theorem assertion_unreachable prof sizes examples nb mx existing :
  (length sizes ≤ length examples)%nat →
  (∀ msg, (_first_fit_bin_packing prof sizes examples nb mx existing).1
          ≠ Raise (AssertionError msg)) ∧
  (is_ok (_first_fit_bin_packing prof sizes examples nb mx existing).1 →
   total_bin_sizes
     (_first_fit_bin_packing prof sizes examples nb mx existing).2
   - total_bin_sizes existing = sum sizes) ∧
  (prof = true →
   is_ok (_first_fit_bin_packing prof sizes examples nb mx existing).1).
Proof.
  intros Hlen.
  pose proof (engine_outcome prof sizes examples nb mx existing) as Hout.
  destruct (_first_fit_bin_packing prof sizes examples nb mx existing)
    as [[out|e] bins'] eqn:E; simpl in *.
  - split; [done|]. split; [|done]. intros _.
    by apply engine_ok, assemble_ok in E as (_ & Hsum & _).
  - destruct Hout as [[-> Herr]|[_ ?]]; [|lia].
    split; [|done]. intros msg [= ->].
    destruct Herr as [?|[?|[k ?]]]; done.
Qed.

Lemma assertion_unreachable_witness :
  (length [50; 50; 50; 50] ≤ length [(∅ : example); ∅; ∅; ∅])%nat ∧
  (_first_fit_bin_packing true [50; 50; 50; 50] [∅; ∅; ∅; ∅] 2 100 []).1
    ≠ Raise (AssertionError "Error in packing.").
Proof.
  assert (length [50; 50; 50; 50] ≤ length [(∅ : example); ∅; ∅; ∅])%nat
    as H by (simpl; lia).
  split; [exact H|].
  exact (proj1 (assertion_unreachable true [50; 50; 50; 50] [∅; ∅; ∅; ∅]
                  2 100 [] H) "Error in packing.").
Defined.

(** ** The capacity of the bins *)

(** A property of bin sizes that a merge which fits preserves: it then
    holds of every bin of the working list at every step. *)
Section sizes.
Context (mx : Z) (P : Z → Prop).
Hypothesis P_merge : ∀ a b, P a → P b → a + b <= mx → P (a + b).

Lemma place_item_sizes prof nb n i item (bins : list bin) :
  Forall (fun b => P b.1) bins → P item.1 →
  Forall (fun b => P b.1) (place_item prof nb mx n i item bins).2.
Proof.
  intros Hb Hi. unfold place_item. destruct item as [size ex].
  destruct (n - i <? Z.max 0 (nb - len bins)); [done|].
  destruct (n - i =? Z.max 0 (nb - len bins)).
  { simpl. apply Forall_app. split; [done|]. by constructor. }
  destruct (first_fit size mx bins) as [bidx|] eqn:Hfit.
  2:{ simpl. apply Forall_app. split; [done|]. by constructor. }
  destruct (first_fit_Some _ _ _ _ Hfit) as ([bs p] & Hl & Hle).
  rewrite Hl. simpl in Hle.
  assert (Forall (fun b : bin => P b.1) (delete bidx bins))
    by by apply Forall_delete.
  assert (P (bs + size)).
  { apply P_merge; [|done|done].
    by apply (Forall_lookup_1 _ _ _ _ Hb Hl). }
  destruct prof; [|destruct (_combine_in_place p ex)]; simpl; try done;
    (apply Forall_app; split; [done|]; by constructor).
Qed.

Lemma place_items_sizes prof nb n items : ∀ i (bins : list bin),
  Forall (fun b => P b.1) bins → Forall (fun b => P b.1) items →
  Forall (fun b => P b.1) (place_items prof nb mx n i items bins).2.
Proof.
  induction items as [|item rest IH]; intros i bins Hb Hi; simpl; [done|].
  apply Forall_cons in Hi as [Hitem Hrest].
  pose proof (place_item_sizes prof nb n i item bins Hb Hitem) as H1.
  destruct (place_item prof nb mx n i item bins) as [[[]|e] bins1];
    simpl in *; [by apply IH|done].
Qed.

Lemma zip_sizes (sizes : list Z) (examples : list example) :
  Forall P sizes → Forall (fun b : bin => P b.1) (zip sizes examples).
Proof.
  intros H. revert examples.
  induction H as [|s sizes Hs _ IH]; intros [|e examples]; simpl;
    try constructor; [done|apply IH].
Qed.

Lemma engine_sizes prof sizes examples nb existing :
  Forall P sizes → Forall (fun b => P b.1) existing →
  Forall (fun b => P b.1)
    (_first_fit_bin_packing prof sizes examples nb mx existing).2.
Proof.
  intros Hs He. unfold _first_fit_bin_packing.
  assert (Forall (fun b : bin => P b.1) (sorted_desc (zip sizes examples)))
    as Hi by by apply Forall_sorted_desc, zip_sizes.
  destruct (len sizes <? Z.max 0 (nb - len existing)).
  - rewrite assemble_bins. by apply Forall_app.
  - pose proof (place_items_sizes prof nb (len sizes) _ 0 _ He Hi) as H.
    destruct (place_items _ _ _ _ _ _ _) as [[[]|e] bins1]; simpl in *;
      [by rewrite assemble_bins|done].
Qed.
End sizes.

Lemma within_merge mx a b : a <= mx → b <= mx → a + b <= mx → a + b <= mx.
Proof. done. Qed.

(** C2, as the code has it.  When every new size and every bin carried in
    is at most [max_bin_size], so is every bin of the working list after
    each iteration of the loop (the list after any number [k] of items),
    every bin of the list when the call returns or raises, and every
    selected and leftover bin the call returns. *)
Theorem capacity_invariant prof sizes examples nb mx existing :
  Forall (fun s => s <= mx) sizes →
  Forall (within mx) existing →
  (∀ k, Forall (within mx)
          (place_items prof nb mx (len sizes) 0
             (take k (sorted_desc (zip sizes examples))) existing).2) ∧
  Forall (within mx)
    (_first_fit_bin_packing prof sizes examples nb mx existing).2 ∧
  match (_first_fit_bin_packing prof sizes examples nb mx existing).1 with
  | Ok (packed_examples, n_packed, _, leftover_bins) =>
      Forall (within mx) leftover_bins ∧
      ∃ selected : list bin,
        packed_examples = selected.*2 ∧
        n_packed = total_bin_sizes selected ∧
        Forall (within mx) selected
  | Raise _ => True
  end.
Proof.
  intros Hs He. split; [|split].
  - intros k.
    apply (place_items_sizes mx (fun s => s <= mx) (within_merge mx));
      [done|].
    apply Forall_take, Forall_sorted_desc.
    by apply (zip_sizes (fun s => s <= mx)).
  - by apply (engine_sizes mx (fun s => s <= mx) (within_merge mx)).
  - pose proof (engine_sizes mx (fun s => s <= mx) (within_merge mx)
                  prof sizes examples nb existing Hs He) as H.
    destruct (_first_fit_bin_packing prof sizes examples nb mx existing)
      as [[out|e] bins'] eqn:E; simpl in *; [|done].
    apply engine_ok, assemble_ok in E as (_ & _ & ->).
    apply Forall_sorted_desc in H.
    split; [by apply Forall_drop|].
    exists (slice_to nb (sorted_desc bins')).
    repeat split. by apply Forall_take.
Qed.

Lemma capacity_invariant_witness :
  Forall (fun s => s <= 100) [50; 50; 50; 50] ∧
  Forall (within 100) (@nil bin) ∧
  Forall (within 100)
    (_first_fit_bin_packing true [50; 50; 50; 50] [∅; ∅; ∅; ∅] 2 100 []).2.
Proof.
  assert (Forall (fun s => s <= 100) [50; 50; 50; 50]) as Hs
    by (repeat constructor; lia).
  assert (Forall (within 100) (@nil bin)) as He by constructor.
  split; [exact Hs|]. split; [exact He|].
  exact (proj1 (proj2 (capacity_invariant true [50; 50; 50; 50]
                         [∅; ∅; ∅; ∅] 2 100 [] Hs He))).
Defined.

(** C2 as stated fails: nothing compares a new item with the capacity, so
    an item larger than [max_bin_size] gets a bin of its own size.  No bin
    is carried in, and the one bin returned holds 150 tokens against a
    capacity of 100. *)
Lemma capacity_exceeded :
  Forall (within 100) (@nil bin) ∧
  _first_fit_bin_packing true [150] [∅] 1 100 []
    = (Ok ([∅], 150, 150, []), [(150, ∅)]) ∧
  ¬ Forall (within 100) [(150, (∅ : example))].
Proof.
  split; [constructor|]. split; [reflexivity|].
  intros H. apply Forall_cons in H as [H _]. unfold within in H. simpl in H.
  lia.
Qed.

(** ** The fast exit *)

(** C5.  When there are fewer new items than [max(0, num_bins -
    len(existing_bins))], the working list becomes the bins carried in,
    unchanged, followed by one bin per new item, largest first; the
    result is assembled from that list at once.  Neither the mode nor
    [_combine_in_place] takes part.  When every size has an example the
    call returns, and it returns every bin as a packed example: none is
    left over. *)
Theorem fast_exit prof sizes examples nb mx existing :
  len sizes < Z.max 0 (nb - len existing) →
  _first_fit_bin_packing prof sizes examples nb mx existing
    = assemble sizes nb (total_bin_sizes existing)
        (existing ++ sorted_desc (zip sizes examples)) ∧
  (_first_fit_bin_packing prof sizes examples nb mx existing).2
    = existing ++ sorted_desc (zip sizes examples) ∧
  ((length sizes ≤ length examples)%nat →
   (_first_fit_bin_packing prof sizes examples nb mx existing).1
     = Ok ((sorted_desc (existing ++ sorted_desc (zip sizes examples))).*2,
           total_bin_sizes existing + sum sizes,
           sum sizes,
           [])).
Proof.
  intros Hfew. unfold _first_fit_bin_packing.
  destruct (Z.ltb_spec (len sizes) (Z.max 0 (nb - len existing))); [|lia].
  split; [done|]. split; [apply assemble_bins|]. intros Hlen.
  set (bins := existing ++ sorted_desc (zip sizes examples)).
  assert (total_bin_sizes bins = total_bin_sizes existing + sum sizes) as Ht.
  { unfold bins. rewrite total_app, total_sorted_desc.
    unfold total_bin_sizes at 2. by rewrite zip_fst_le. }
  assert (len (sorted_desc bins) <= nb) as Hall.
  { unfold len, bins in *.
    rewrite length_sorted_desc, length_app, length_sorted_desc, length_zip.
    lia. }
  unfold assemble. case_decide as Hne; [lia|]. simpl.
  rewrite slice_from_all by done.
  rewrite !slice_to_all by (unfold len in *; by rewrite length_fmap).
  fold (total_bin_sizes (sorted_desc bins)).
  by rewrite total_sorted_desc, Ht.
Qed.

Lemma fast_exit_witness :
  len [90; 30] < Z.max 0 (4 - len [(60, (∅ : example))]) ∧
  (_first_fit_bin_packing false [90; 30] [∅; ∅] 4 100 [(60, ∅)]).2
    = [(60, ∅); (90, ∅); (30, ∅)].
Proof.
  assert (len [90; 30] < Z.max 0 (4 - len [(60, (∅ : example))])) as H
    by (vm_compute; reflexivity).
  split; [exact H|].
  exact (proj1 (proj2 (fast_exit false [90; 30] [∅; ∅] 4 100 [(60, ∅)] H))).
Defined.

(** ** The combine rule *)

Lemma foldl_max_ge (t : tensor) : ∀ x, x <= foldl Z.max x t.
Proof.
  induction t as [|y t IH]; intros x; simpl; [lia|].
  specialize (IH (Z.max x y)). lia.
Qed.

Lemma foldl_max_upper (t : tensor) : ∀ x y, y ∈ t → y <= foldl Z.max x t.
Proof.
  induction t as [|z t IH]; intros x y Hy; simpl.
  - by apply elem_of_nil in Hy.
  - apply elem_of_cons in Hy as [->|Hy]; [|by apply IH].
    pose proof (foldl_max_ge t (Z.max x z)). lia.
Qed.

Lemma foldl_max_elem (t : tensor) : ∀ x, foldl Z.max x t ∈ x :: t.
Proof.
  induction t as [|z t IH]; intros x; simpl; [apply list_elem_of_here|].
  specialize (IH (Z.max x z)). apply elem_of_cons in IH as [->|IH].
  - destruct (Z.max_spec x z) as [[_ ->]|[_ ->]];
      [apply list_elem_of_further|]; apply list_elem_of_here.
  - by do 2 apply list_elem_of_further.
Qed.

(** [max_of] is the maximum: an element of the tensor that bounds all of
    them. *)
Lemma max_of_spec (t : tensor) :
  t ≠ [] → max_of t ∈ t ∧ ∀ y, y ∈ t → y <= max_of t.
Proof.
  destruct t as [|x t]; [done|]. intros _. unfold max_of. simpl. split.
  - apply foldl_max_elem.
  - intros y Hy. apply elem_of_cons in Hy as [->|Hy].
    + apply foldl_max_ge.
    + by apply foldl_max_upper.
Qed.

Lemma tensor_max_ok (t : tensor) : t ≠ [] → tensor_max t = Ok (max_of t).
Proof. by destruct t. Qed.

Lemma combine_key_ok add_on k v a :
  add_on !! k = Some a → (k = "sequence_id" → v ≠ []) →
  combine_key add_on k v = Ok (joined k v a).
Proof.
  intros Ha Hv. unfold combine_key, joined. rewrite Ha.
  case_decide; [|done]. by rewrite tensor_max_ok by auto.
Qed.

Lemma combine_keys_ok add_on keys : ∀ cur : example,
  NoDup keys →
  (∀ k, k ∈ keys →
     ∃ v, cur !! k = Some v ∧ is_Some (add_on !! k) ∧
          (k = "sequence_id" → v ≠ [])) →
  ∃ r : example,
    combine_keys keys cur add_on = Ok r ∧
    (∀ k v a, k ∈ keys → cur !! k = Some v → add_on !! k = Some a →
       r !! k = Some (joined k v a)) ∧
    (∀ k, k ∉ keys → r !! k = cur !! k).
Proof.
  induction keys as [|k ks IH]; intros cur Hnd Hkeys; simpl.
  { exists cur. split; [done|]. split; [|done].
    intros k v a Hk. by apply elem_of_nil in Hk. }
  apply NoDup_cons in Hnd as [Hk Hnd].
  destruct (Hkeys k) as (v & Hv & [a Ha] & Hne); [apply list_elem_of_here|].
  rewrite Hv, (combine_key_ok _ _ _ _ Ha Hne). simpl.
  destruct (IH (<[k := joined k v a]> cur) Hnd) as (r & Hr & Hin & Hout).
  { intros k' Hk'. assert (k ≠ k') by (intros ->; done).
    rewrite lookup_insert_ne by done.
    apply Hkeys. by apply list_elem_of_further. }
  exists r. split; [done|]. split.
  - intros k' v' a' Hk' Hv' Ha'. apply elem_of_cons in Hk' as [->|Hk'].
    + rewrite Hout by done. rewrite lookup_insert_eq. congruence.
    + assert (k ≠ k') by (intros ->; done).
      apply Hin; [done| |done]. by rewrite lookup_insert_ne.
  - intros k' Hk'. apply not_elem_of_cons in Hk' as [Hne' Hk'].
    rewrite Hout by done. by rewrite lookup_insert_ne.
Qed.

Lemma elem_of_keys (ex : example) k :
  k ∈ map fst (map_to_list ex) ↔ is_Some (ex !! k).
Proof.
  rewrite list_elem_of_fmap. split.
  - intros ([k' v] & -> & H). apply elem_of_map_to_list in H. eauto.
  - intros [v H]. exists (k, v). split; [done|].
    by apply elem_of_map_to_list.
Qed.

Lemma forced_lookup (add_on : example) k a :
  add_on !! k = Some a →
  forced add_on !! k
  = Some (if decide (k = "labels") then CROSS_ENTROPY_IGNORE_INDEX :: tl a
          else a).
Proof.
  intros Ha. unfold forced. case_decide as Hk.
  - subst k. rewrite Ha. by rewrite lookup_insert_eq.
  - destruct (add_on !! "labels"); [|done]. by rewrite lookup_insert_ne.
Qed.

(** What [_combine_in_place] returns when no tensor operation fails: the
    fields of [ex], each joined with the field of the add-on as it is
    once its first label has been forced. *)
Lemma combine_in_place_joined (ex add_on : example) :
  dom ex ⊆ dom add_on →
  (∀ s, ex !! "sequence_id" = Some s → s ≠ []) →
  (∀ l, add_on !! "labels" = Some l → l ≠ []) →
  ∃ r : example,
    _combine_in_place ex add_on = Ok r ∧
    (∀ k v a, ex !! k = Some v → forced add_on !! k = Some a →
       r !! k = Some (joined k v a)) ∧
    (∀ k, ex !! k = None → r !! k = None).
Proof.
  intros Hdom Hseq Hlab. unfold _combine_in_place.
  assert ((match add_on !! "labels" with
           | Some l =>
               l' ← set_first CROSS_ENTROPY_IGNORE_INDEX l;
               Ok (<["labels" := l']> add_on)
           | None => Ok add_on
           end) = Ok (forced add_on)) as ->.
  { unfold forced. destruct (add_on !! "labels") as [[|x l]|] eqn:E;
      try done.
    by destruct (Hlab [] eq_refl). }
  simpl.
  destruct (combine_keys_ok (forced add_on) (map fst (map_to_list ex)) ex)
    as (r & Hr & Hin & Hout).
  { apply NoDup_fst_map_to_list. }
  { intros k Hk. apply elem_of_keys in Hk as [v Hv]. exists v.
    split; [done|]. split; [|intros ->; eauto].
    assert (k ∈ dom add_on) as Hka by (apply Hdom, elem_of_dom; eauto).
    apply elem_of_dom in Hka as [a Ha]. rewrite (forced_lookup _ _ _ Ha).
    eauto. }
  exists r. split; [done|]. split.
  - intros k v a Hv Ha. apply Hin; [|done|done]. apply elem_of_keys. eauto.
  - intros k Hk. rewrite Hout, Hk; [done|]. rewrite elem_of_keys, Hk.
    by intros [? ?].
Qed.

Lemma wrap64_small (z : Z) :
  -9223372036854775808 <= z < 9223372036854775808 → wrap64 z = z.
Proof. intros H. unfold wrap64. rewrite Z.mod_small; lia. Qed.

Lemma wrap64_add (a b : Z) : wrap64 (wrap64 a + b) = wrap64 (a + b).
Proof.
  unfold wrap64. f_equal.
  replace ((a + 9223372036854775808) mod 18446744073709551616
           - 9223372036854775808 + b + 9223372036854775808)
    with ((a + 9223372036854775808) mod 18446744073709551616 + b) by lia.
  rewrite Zplus_mod_idemp_l. f_equal. lia.
Qed.

(** C4, as the code has it.  Take a bin's packed example [ex] and an
    add-on that has every field of [ex] (as when both have the fixed
    field set), the bin being non-empty (its [sequence_id] has a maximum)
    and the add-on being non-empty too (its [labels], when it has the
    field, have a first element).  Then [_combine_in_place] returns an
    example with the fields of [ex]: its [labels] are those of [ex]
    followed by the add-on's with the first one replaced by -100, its
    [sequence_id] is that of [ex] followed by the add-on's values each
    raised, in 64-bit arithmetic, by 1 plus the maximum [sequence_id] of
    the bin, and every other field is the plain concatenation.  As long
    as no sum leaves the 64-bit range the new [sequence_id] values are
    exactly the add-on's plus 1 plus that maximum. *)
Theorem combine_rule (ex add_on : example) :
  dom ex ⊆ dom add_on →
  (∀ s, ex !! "sequence_id" = Some s → s ≠ []) →
  (∀ l, add_on !! "labels" = Some l → l ≠ []) →
  ∃ r : example,
    _combine_in_place ex add_on = Ok r ∧
    dom r = dom ex ∧
    (∀ k v a, ex !! k = Some v → add_on !! k = Some a →
       r !! k = Some
         (if decide (k = "labels") then
            v ++ CROSS_ENTROPY_IGNORE_INDEX :: tl a
          else if decide (k = "sequence_id") then
            v ++ map (fun x => wrap64 (wrap64 (x + 1) + max_of v)) a
          else v ++ a)) ∧
    (∀ v a, ex !! "sequence_id" = Some v →
       add_on !! "sequence_id" = Some a →
       Forall (fun x => -9223372036854775808 <= x + 1 + max_of v
                        < 9223372036854775808) a →
       r !! "sequence_id" = Some (v ++ map (fun x => x + 1 + max_of v) a)).
Proof.
  intros Hdom Hseq Hlab.
  destruct (combine_in_place_joined ex add_on Hdom Hseq Hlab)
    as (r & Hr & Hin & Hout).
  exists r. split; [done|]. split; [|split].
  - apply set_eq. intros k. rewrite !elem_of_dom.
    destruct (ex !! k) as [v|] eqn:Hv.
    + assert (k ∈ dom add_on) as Hka by (apply Hdom, elem_of_dom; eauto).
      apply elem_of_dom in Hka as [a Ha].
      rewrite (Hin k v _ Hv (forced_lookup _ _ _ Ha)). split; eauto.
    + by rewrite (Hout k Hv).
  - intros k v a Hv Ha. rewrite (Hin k v _ Hv (forced_lookup _ _ _ Ha)).
    unfold joined. f_equal. repeat case_decide; congruence.
  - intros v a Hv Ha Hrange.
    rewrite (Hin _ v _ Hv (forced_lookup _ _ _ Ha)).
    unfold joined. rewrite decide_True by done. do 2 f_equal.
    clear Ha. induction Hrange as [|x l Hx _ IH]; [done|]. cbn [map].
    rewrite IH, wrap64_add, wrap64_small by apply Hx. done.
Qed.

Lemma combine_rule_witness :
  dom scenario_bin ⊆ dom scenario_add_on ∧
  (∀ s, scenario_bin !! "sequence_id" = Some s → s ≠ []) ∧
  (∀ l, scenario_add_on !! "labels" = Some l → l ≠ []) ∧
  ∃ r : example,
    _combine_in_place scenario_bin scenario_add_on = Ok r ∧
    r !! "labels" = Some [5; 6; 7; -100; 9] ∧
    r !! "sequence_id" = Some [0; 0; 0; 1; 1].
Proof.
  assert (dom scenario_bin ⊆ dom scenario_add_on) as Hdom.
  { unfold scenario_bin, scenario_add_on. rewrite !dom_insert_L. done. }
  assert (∀ s, scenario_bin !! "sequence_id" = Some s → s ≠ []) as Hseq.
  { intros s [= <-]. done. }
  assert (∀ l, scenario_add_on !! "labels" = Some l → l ≠ []) as Hlab.
  { intros l [= <-]. done. }
  split; [exact Hdom|]. split; [exact Hseq|]. split; [exact Hlab|].
  destruct (combine_rule scenario_bin scenario_add_on Hdom Hseq Hlab)
    as (r & Hr & _ & Hk & Hexact).
  exists r. split; [exact Hr|]. split.
  - exact (Hk "labels" [5; 6; 7] [8; 9] eq_refl eq_refl).
  - assert (Forall (fun x => -9223372036854775808 <= x + 1 + max_of [0; 0; 0]
                             < 9223372036854775808) [0; 0]) as Hrange.
    { change (max_of [0; 0; 0]) with 0.
      apply Forall_cons. split; [lia|].
      apply Forall_cons. split; [lia|]. apply Forall_nil_2. }
    exact (Hexact [0; 0; 0] [0; 0] eq_refl eq_refl Hrange).
Defined.

(** C4 as stated fails for an add-on without tokens: both examples have
    the same two fields and the bin is not empty, but the add-on's
    [labels] have no first element to overwrite, and the call raises. *)
Lemma combine_empty_add_on :
  dom scenario_bin = dom scenario_empty ∧
  scenario_bin !! "sequence_id" = Some [0; 0; 0] ∧
  _combine_in_place scenario_bin scenario_empty = Raise IndexError.
Proof.
  split; [|split; reflexivity].
  unfold scenario_bin, scenario_empty. by rewrite !dom_insert_L.
Qed.

(** At the top of the 64-bit range the offset wraps around: past a bin
    whose [sequence_id] is [2^63 - 1] the add-on's ids become [-2^63]. *)
Lemma combine_sequence_id_wraps :
  _combine_in_place (<["sequence_id" := [9223372036854775807]]> ∅)
    (<["sequence_id" := [0]]> ∅)
  = Ok (<["sequence_id" := [9223372036854775807; -9223372036854775808]]> ∅).
Proof. vm_compute. reflexivity. Qed.

(** ** Padding *)

Lemma pad_tensor_same t pad side : _pad_tensor t pad (len t) side = Ok t.
Proof. unfold _pad_tensor. by case_decide. Qed.

Lemma pad_tensor_left t pad L :
  len t < L → t ≠ [] →
  _pad_tensor t pad L "left" = Ok (replicate (Z.to_nat (L - len t)) pad ++ t).
Proof.
  intros Hlt Hne. unfold _pad_tensor. case_decide; [lia|].
  pose proof (len_nonneg t).
  destruct (Z.ltb_spec L 0); [lia|]. simpl.
  assert (0 < len t) by (destruct t; [done|unfold len; simpl; lia]).
  assert (slice_index (Z.to_nat L) (- len t)
          = (Z.to_nat L - length t)%nat) as ->.
  { unfold slice_index. destruct (Z.ltb_spec (- len t) 0); [|lia].
    unfold len in *. lia. }
  unfold slice_assign. case_decide as Hm; [|unfold len in *; lia].
  rewrite take_replicate, drop_replicate.
  replace (Z.to_nat L - Z.to_nat L)%nat with 0%nat by lia. simpl.
  rewrite app_nil_r. do 3 f_equal. unfold len in *. lia.
Qed.

Lemma pad_tensor_right t pad L :
  len t < L →
  _pad_tensor t pad L "right"
    = Ok (t ++ replicate (Z.to_nat (L - len t)) pad).
Proof.
  intros Hlt. unfold _pad_tensor. case_decide; [lia|].
  pose proof (len_nonneg t).
  destruct (Z.ltb_spec L 0); [lia|]. simpl.
  assert (slice_index (Z.to_nat L) (len t) = length t) as ->.
  { unfold slice_index. destruct (Z.ltb_spec (len t) 0); [lia|].
    unfold len in *. lia. }
  unfold slice_assign. case_decide as Hm; [|lia].
  rewrite drop_replicate. simpl. do 3 f_equal. unfold len in *. lia.
Qed.

Lemma pad_tensor_bad_side t pad L side :
  side ≠ "left" → side ≠ "right" → len t ≠ L →
  ∃ e, _pad_tensor t pad L side = Raise e.
Proof.
  intros Hl Hr Hne. unfold _pad_tensor. case_decide; [done|].
  destruct (L <? 0); [eauto|]. simpl. repeat case_decide; try done. eauto.
Qed.

(** C9, as the code has it.  A sequence already of the target length is
    returned unchanged before the side is looked at; for any other length
    a side that is neither 'left' nor 'right' raises.  On the valid sides
    a sequence no longer than the target (and not empty, when padding on
    the left of a positive target) comes back with exactly the target
    length, the original values flush to the chosen side and the pad
    value everywhere else. *)
Theorem pad_tensor_sides t pad L side :
  _pad_tensor t pad (len t) side = Ok t ∧
  (side ≠ "left" → side ≠ "right" → len t ≠ L →
   ∃ e, _pad_tensor t pad L side = Raise e) ∧
  (len t <= L → (t = [] → L = 0) →
   ∃ r, _pad_tensor t pad L "left" = Ok r ∧ len r = L ∧
        r = replicate (Z.to_nat (L - len t)) pad ++ t) ∧
  (len t <= L →
   ∃ r, _pad_tensor t pad L "right" = Ok r ∧ len r = L ∧
        r = t ++ replicate (Z.to_nat (L - len t)) pad).
Proof.
  split; [apply pad_tensor_same|]. split; [apply pad_tensor_bad_side|].
  pose proof (len_nonneg t) as Hn.
  assert (len (replicate (Z.to_nat (L - len t)) pad) = Z.max 0 (L - len t))
    as Hrep by (unfold len; rewrite length_replicate; lia).
  split.
  - intros Hle Hnil. eexists. split; [|split; [|reflexivity]].
    + destruct (decide (len t = L)) as [<-|].
      * rewrite pad_tensor_same, Z.sub_diag. reflexivity.
      * apply pad_tensor_left; [lia|]. intros ->. specialize (Hnil eq_refl).
        subst L. done.
    + rewrite len_app, Hrep. lia.
  - intros Hle. eexists. split; [|split; [|reflexivity]].
    + destruct (decide (len t = L)) as [<-|].
      * rewrite pad_tensor_same, Z.sub_diag. simpl. by rewrite app_nil_r.
      * apply pad_tensor_right. lia.
    + rewrite len_app, Hrep. lia.
Qed.

Lemma pad_tensor_sides_witness :
  _pad_tensor [1; 2; 3] 0 5 "left" = Ok [0; 0; 1; 2; 3] ∧
  _pad_tensor [1; 2; 3] 0 5 "right" = Ok [1; 2; 3; 0; 0] ∧
  ∃ e, _pad_tensor [1; 2; 3] 0 5 "middle" = Raise e.
Proof.
  assert (len [1; 2; 3] <= 5) as Hle by (vm_compute; discriminate).
  assert ([1; 2; 3] = [] → 5 = 0) as Hnil by discriminate.
  assert ("middle" ≠ "left") as Hl by discriminate.
  assert ("middle" ≠ "right") as Hr by discriminate.
  assert (len [1; 2; 3] ≠ 5) as Hne by (vm_compute; discriminate).
  destruct (pad_tensor_sides [1; 2; 3] 0 5 "middle")
    as (_ & Hbad & Hleft & Hright).
  destruct (Hleft Hle Hnil) as (r1 & H1 & _ & ->).
  destruct (Hright Hle) as (r2 & H2 & _ & ->).
  split; [exact H1|]. split; [exact H2|]. exact (Hbad Hl Hr Hne).
Defined.

(** C9 as stated fails twice.  A side that is neither 'left' nor 'right'
    does not raise when the sequence already has the target length; and
    on a valid side a sequence longer than the target raises (the slice
    of the buffer is shorter than the sequence assigned to it) instead of
    giving a sequence of the target length. *)
Lemma pad_side_unchecked :
  "middle" ≠ "left" ∧ "middle" ≠ "right" ∧
  _pad_tensor [1; 2; 3] 0 3 "middle" = Ok [1; 2; 3] ∧
  _pad_tensor [1; 2; 3] 0 2 "left" = Raise RuntimeError ∧
  _pad_tensor [1; 2; 3] 0 2 "right" = Raise RuntimeError.
Proof. repeat split; (discriminate || reflexivity). Qed.

(** ** The random-number generators around profiling *)

(** Past the short-circuit, a call that returns has put the generators
    back in the state it found them in. *)
Lemma rng_restored_after_profiling {F : float_ops} (env : profiling_env F)
    max_seq_len max_ratio (g : rng_state env) r g' :
  100 < max_seq_len →
  auto_packing_ratio env max_seq_len max_ratio g = (Ok r, g') →
  g' = g.
Proof.
  intros Hlen. unfold auto_packing_ratio.
  destruct (Z.leb_spec max_seq_len 100); [lia|].
  destruct max_ratio as [mr|].
  - destruct (fle F mr (of_int F 1)); [done|].
    destruct (profile_packing env _ _ _) as [[res|e] g1]; [|done].
    by intros [= _ <-].
  - destruct (profile_packing env _ _ _) as [[res|e] g1]; [|done].
    by intros [= _ <-].
Qed.

(** C8 fails on the short-circuit.  For [max_seq_len <= 100] the call
    returns ratio 1 with the generators in the state [seed_all(0)] put
    them in, whatever state they were in before: the saved state is never
    loaded back. *)
Theorem rng_not_restored_on_short_circuit {F : float_ops}
    (env : profiling_env F) max_ratio (g : rng_state env) :
  auto_packing_ratio env 50 max_ratio g = (Ok (of_int F 1), seed_all env 0).
Proof. reflexivity. Qed.

(** ** The counters of the collator *)

Lemma mapM_Ok {A B} (f : A → result B) (l : list A) (ys : list B) :
  mapM f l = Ok ys → Forall2 (fun x y => f x = Ok y) l ys.
Proof.
  revert ys. induction l as [|x l IH]; intros ys; simpl.
  - intros [= <-]. constructor.
  - destruct (f x) as [y|e] eqn:E; [|done]. simpl.
    destruct (mapM f l) as [k|e]; [|done]. simpl.
    intros [= <-]. constructor; [done|by apply IH].
Qed.

Lemma extract_size_nonneg b idx size ex :
  _extract_trim_batch_idx b idx = Ok (size, ex) → 0 <= size.
Proof.
  unfold _extract_trim_batch_idx. case_bool_decide; [|done].
  destruct (_ !! "attention_mask") as [mask|]; [|done].
  case_bool_decide; [|done].
  destruct (_ !! "input_ids"); [|done].
  intros [= <- _]. apply len_nonneg.
Qed.

Lemma trim_batch_sizes_nonneg b sizes trimmed :
  _trim_batch b = Ok (sizes, trimmed) → Forall (fun s => 0 <= s) sizes.
Proof.
  unfold _trim_batch. destruct (b !! "attention_mask") as [mask|]; [|done].
  destruct (mapM _ _) as [l|e] eqn:E; [|done]. simpl. intros [= <- _].
  apply mapM_Ok in E. apply Forall_fmap.
  induction E as [|idx [size ex] idxs l H _ IH]; constructor; [|done].
  by eapply extract_size_nonneg.
Qed.

Lemma total_nonneg {A} (l : list (Z * A)) :
  Forall (fun b => 0 <= b.1) l → 0 <= total_bin_sizes l.
Proof. intros H. apply sum_nonneg. by apply Forall_fmap. Qed.

Lemma total_take_le {A} (l : list (Z * A)) n :
  Forall (fun b => 0 <= b.1) l →
  total_bin_sizes (take n l) <= total_bin_sizes l.
Proof.
  intros H. rewrite <- (take_drop n l) at 2. rewrite total_app.
  pose proof (total_nonneg (drop n l) (Forall_drop _ n _ H)). lia.
Qed.

Lemma total_slice_to_opt_le {A} (l : list (Z * A)) k :
  Forall (fun b => 0 <= b.1) l →
  total_bin_sizes (slice_to_opt k l) <= total_bin_sizes l.
Proof. destruct k; simpl; [apply total_take_le|lia]. Qed.

Lemma nonneg_merge (mx a b : Z) : 0 <= a → 0 <= b → a + b <= mx → 0 <= a + b.
Proof. lia. Qed.

Lemma pack_trimmed_accounted self trimmed sizes r self' :
  accounted self → Forall (fun s => 0 <= s) sizes →
  _pack_trimmed_examples self trimmed sizes = (Ok r, self') →
  accounted self'.
Proof.
  intros (Hp & Hle & Hnn) Hs. unfold _pack_trimmed_examples.
  pose proof (engine_sizes (max_seq_len self) (fun s => 0 <= s)
                (nonneg_merge (max_seq_len self)) (_is_profiling self)
                sizes trimmed (out_size self) (_leftover_bins self) Hs Hnn)
    as Hbins.
  destruct (_first_fit_bin_packing _ _ _ _ _ _) as [[out|e] bins'] eqn:E;
    [|done].
  apply engine_ok, assemble_ok in E as (_ & Hsum & ->). simpl in Hbins.
  apply (Forall_sorted_desc (fun b => 0 <= b.1)) in Hbins.
  set (sorted := sorted_desc bins') in *.
  assert (total_bin_sizes (slice_to (out_size self) sorted)
          + total_bin_sizes (slice_from (out_size self) sorted)
          = total_bin_sizes bins') as Hsplit.
  { rewrite <- total_app, slice_to_from. apply total_sorted_desc. }
  assert (0 <= total_bin_sizes (slice_to (out_size self) sorted)) as Hsel
    by (apply total_nonneg; by apply Forall_take).
  assert (Forall (fun b : bin => 0 <= b.1)
            (slice_from (out_size self) sorted)) as Hleft
    by by apply Forall_drop.
  pose proof (total_slice_to_opt_le _ (max_leftover_bins_to_keep self) Hleft)
    as Hkeep.
  assert (Forall (fun b : bin => 0 <= b.1)
            (slice_to_opt (max_leftover_bins_to_keep self)
               (slice_from (out_size self) sorted))) as Hkeepnn.
  { destruct (max_leftover_bins_to_keep self); simpl; [|done].
    by apply Forall_take. }
  assert (accounted
    {| out_size := out_size self;
       max_seq_len := max_seq_len self;
       pad_token_id := pad_token_id self;
       padding_side := padding_side self;
       max_leftover_bins_to_keep := max_leftover_bins_to_keep self;
       n_packed_tokens :=
         n_packed_tokens self
         + total_bin_sizes (slice_to (out_size self) sorted);
       n_total_tokens := n_total_tokens self + sum sizes;
       n_packed_examples := n_packed_examples self + out_size self;
       _leftover_bins :=
         slice_to_opt (max_leftover_bins_to_keep self)
           (slice_from (out_size self) sorted);
       _is_profiling := _is_profiling self |}) as Hacc.
  { unfold accounted. simpl. split; [lia|]. split; [lia|done]. }
  destruct (_is_profiling self).
  - by intros [= _ <-].
  - destruct (_convert_to_batch _ _); [|done]. by intros [= _ <-].
Qed.

Lemma pack_accounted self b r self' :
  accounted self → pack self b = (Ok r, self') → accounted self'.
Proof.
  intros Hacc. unfold pack.
  destruct (_is_profiling self); [done|].
  repeat (case_bool_decide; [done|]).
  destruct (negb _); [done|].
  destruct (_trim_batch b) as [[sizes trimmed]|e] eqn:Ht; [|done].
  apply trim_batch_sizes_nonneg in Ht.
  destruct (_pack_trimmed_examples self trimmed sizes)
    as [[[pb|]|e] self1] eqn:E; [|done|done].
  intros [= _ <-]. by eapply pack_trimmed_accounted.
Qed.

Lemma do_call_accounted self c self' :
  accounted self → token_counts c →
  do_call self c = (Ok (), self') → accounted self'.
Proof.
  intros Hacc Hc. destruct c as [b|trimmed sizes]; simpl.
  - destruct (pack self b) as [[r|e] self1] eqn:E; [|done].
    intros [= <-]. by eapply pack_accounted.
  - destruct (_pack_trimmed_examples self trimmed sizes)
      as [[r|e] self1] eqn:E; [|done].
    intros [= <-]. by eapply pack_trimmed_accounted.
Qed.

Lemma successful_calls_accounted calls : ∀ self self',
  accounted self → Forall token_counts calls →
  successful_calls self calls = Some self' → accounted self'.
Proof.
  induction calls as [|c cs IH]; intros self self' Hacc Hcs; simpl.
  - by intros [= <-].
  - apply Forall_cons in Hcs as [Hc Hcs].
    destruct (do_call self c) as [[[]|e] self1] eqn:E; [|done].
    apply IH; [|done]. by eapply do_call_accounted.
Qed.

Lemma init_accounted tbs msl pad side keep prof self :
  __init__ tbs msl pad side keep prof = Ok self → accounted self.
Proof.
  unfold __init__. repeat (destruct (_ : bool); [done|]).
  intros [= <-]. unfold accounted. simpl.
  split; [done|]. split; [by vm_compute|constructor].
Qed.

Lemma waste_bounds self :
  0 <= n_packed_tokens self <= n_total_tokens self →
  0 < n_total_tokens self →
  ∃ w, waste self = Ok w ∧ (0 <= w)%Q ∧ (w <= 1)%Q.
Proof.
  intros [Hp Hle] Ht. unfold waste.
  destruct (Z.eqb_spec (n_total_tokens self) 0); [lia|].
  eexists. split; [reflexivity|].
  destruct (n_total_tokens self) as [|t|t]; [lia| |lia].
  unfold Qle, Qminus, Qplus, Qopp, Qdiv, Qmult, Qinv, inject_Z. simpl.
  split; nia.
Qed.

(** C10, as the code has it.  After any sequence of packing calls that
    all return, on a collator as [__init__] made it, the sizes passed
    being token counts, [0 <= n_packed_tokens <= n_total_tokens]: the
    tokens counted as packed and those waiting in the leftover bins never
    exceed those counted as received.  Hence, as soon as a token has been
    received, [waste] is defined and lies between 0 and 1. *)
Theorem waste_bounded tbs msl pad side keep prof self0 calls self :
  __init__ tbs msl pad side keep prof = Ok self0 →
  Forall token_counts calls →
  successful_calls self0 calls = Some self →
  0 <= n_packed_tokens self <= n_total_tokens self ∧
  (0 < n_total_tokens self →
   ∃ w, waste self = Ok w ∧ (0 <= w)%Q ∧ (w <= 1)%Q).
Proof.
  intros Hinit Hcalls Hrun.
  assert (accounted self) as (Hp & Hle & Hnn).
  { eapply successful_calls_accounted; [|done|done].
    by eapply init_accounted. }
  pose proof (total_nonneg _ Hnn).
  split; [lia|]. intros Ht. apply waste_bounds; lia.
Qed.

Lemma waste_bounded_witness :
  __init__ 1 4 0 "left" None true = Ok (fresh 1 4 0 "left" None true) ∧
  Forall token_counts [call_pack_trimmed [∅; ∅] [3; 2]] ∧
  (∃ self,
     successful_calls (fresh 1 4 0 "left" None true)
       [call_pack_trimmed [∅; ∅] [3; 2]] = Some self ∧
     0 <= n_packed_tokens self <= n_total_tokens self).
Proof.
  assert (__init__ 1 4 0 "left" None true
          = Ok (fresh 1 4 0 "left" None true)) as Hinit by reflexivity.
  assert (Forall token_counts [call_pack_trimmed [∅; ∅] [3; 2]]) as Hc.
  { repeat constructor; simpl; lia. }
  split; [exact Hinit|]. split; [exact Hc|].
  eexists. split; [vm_compute; reflexivity|].
  eapply (proj1 (waste_bounded 1 4 0 "left" None true _
                   [call_pack_trimmed [∅; ∅] [3; 2]] _ Hinit Hc eq_refl)).
Defined.

(** C10 as stated fails in its last part: a call can succeed without
    receiving a token.  Packing a batch whose only row is all padding
    returns a batch and leaves [n_total_tokens] at 0, and [waste] then
    divides by zero. *)
Lemma waste_undefined_after_call :
  __init__ 1 4 0 "right" None false = Ok (fresh 1 4 0 "right" None false) ∧
  is_ok (pack (fresh 1 4 0 "right" None false) batch_all_padding).1 = true ∧
  n_total_tokens (pack (fresh 1 4 0 "right" None false) batch_all_padding).2
    = 0 ∧
  waste (pack (fresh 1 4 0 "right" None false) batch_all_padding).2
    = Raise ZeroDivisionError.
Proof. repeat split; vm_compute; reflexivity. Qed.

(** ** The state of the collator when a call raises *)

Lemma allowed_keys_check (b : batch) :
  map_Forall (fun k _ => k ∈ allowed_keys) b →
  forallb (fun k => bool_decide (k ∈ allowed_keys)) (map fst (map_to_list b))
  = true.
Proof.
  intros H. apply forallb_forall. intros k Hk.
  apply bool_decide_eq_true_2.
  apply list_elem_of_In, list_elem_of_fmap in Hk as ([k' v] & -> & Hkv).
  apply elem_of_map_to_list in Hkv. by apply (H k' v).
Qed.

Lemma trim_batch_lengths b sizes trimmed :
  _trim_batch b = Ok (sizes, trimmed) → length sizes = length trimmed.
Proof.
  unfold _trim_batch. destruct (b !! "attention_mask"); [|done].
  destruct (mapM _ _) as [res|e]; [|done]. simpl. intros [= <- <-].
  by rewrite !length_fmap.
Qed.

(** C7, as the code has it.  A [pack] call that raises never changes the
    constructor arguments, and it raised at one of three places, which
    the input tells apart.  Before the engine (the profiling-mode check,
    the assertions on the fields, the trimming): the state is intact, and
    this is the only case in which the theorem lets it be.  In the
    engine, once the batch has been trimmed, where only a tensor
    operation of [_combine_in_place] can fail: the counters are intact,
    and the leftover-bin list is the working list of the engine as the
    raise found it, because the engine works on that very list.  In the
    re-padding, after the engine has returned: the counters and the
    leftover bins have already been updated with what the engine
    returned. *)
Theorem pack_raise_state self b e self' :
  pack self b = (Raise e, self') →
  same_config self self' ∧
  (((_is_profiling self = true ∨
     b !! "attention_mask" = None ∨ b !! "input_ids" = None ∨
     ¬ map_Forall (fun k _ => k ∈ allowed_keys) b ∨
     _trim_batch b = Raise e) ∧
    self' = self) ∨
   ∃ sizes trimmed,
     _is_profiling self = false ∧
     _trim_batch b = Ok (sizes, trimmed) ∧
     ((_first_fit_bin_packing false sizes trimmed (out_size self)
         (max_seq_len self) (_leftover_bins self)
       = (Raise e, _leftover_bins self') ∧
       tensor_error e ∧ same_counters self self') ∨
      (∃ packed n_packed n_total leftover bins',
         _first_fit_bin_packing false sizes trimmed (out_size self)
           (max_seq_len self) (_leftover_bins self)
         = (Ok (packed, n_packed, n_total, leftover), bins') ∧
         _convert_to_batch self' packed = Raise e ∧
         n_packed_tokens self' = n_packed_tokens self + n_packed ∧
         n_total_tokens self' = n_total_tokens self + n_total ∧
         n_packed_examples self' = n_packed_examples self + out_size self ∧
         _leftover_bins self'
         = slice_to_opt (max_leftover_bins_to_keep self) leftover))).
Proof.
  unfold pack. destruct (_is_profiling self) eqn:Hprof.
  { intros [= _ <-]. split; [done|]. left. split; [by left|done]. }
  case_bool_decide as Hmask.
  { intros [= _ <-]. split; [done|]. left. split; [|done]. right. by left. }
  case_bool_decide as Hids.
  { intros [= _ <-]. split; [done|]. left. split; [|done].
    right. right. by left. }
  destruct (forallb _ _) eqn:Hkeys; simpl.
  2:{ intros [= _ <-]. split; [done|]. left. split; [|done].
      right. right. right. left. intros Hall.
      by rewrite (allowed_keys_check b Hall) in Hkeys. }
  destruct (_trim_batch b) as [[sizes trimmed]|e0] eqn:Ht.
  2:{ intros [= <- <-]. split; [done|]. left. split; [|done].
      right. right. right. by right. }
  unfold _pack_trimmed_examples. rewrite Hprof.
  pose proof (engine_outcome false sizes trimmed (out_size self)
                (max_seq_len self) (_leftover_bins self)) as Hout.
  destruct (_first_fit_bin_packing _ _ _ _ _ _)
    as [[[[[packed np] nt] left]|e1] bins'] eqn:E.
  - destruct (_convert_to_batch _ packed) as [pb|e2] eqn:Hc; [done|].
    intros [= <- <-]. split; [done|]. right. exists sizes, trimmed.
    split; [done|]. split; [done|]. right.
    exists packed, np, nt, left, bins'. done.
  - intros [= <- <-]. split; [done|]. right. exists sizes, trimmed.
    split; [done|]. split; [done|]. left. simpl in *.
    split; [done|]. split; [|done].
    destruct Hout as [[_ ?]|[_ Hlen]]; [done|].
    apply trim_batch_lengths in Ht. lia.
Qed.

Lemma pack_raise_state_witness :
  pack (fresh 1 10 0 "right" None false) batch_with_empty_row
    = (Raise IndexError,
       (pack (fresh 1 10 0 "right" None false) batch_with_empty_row).2) ∧
  same_config (fresh 1 10 0 "right" None false)
    (pack (fresh 1 10 0 "right" None false) batch_with_empty_row).2.
Proof.
  assert (pack (fresh 1 10 0 "right" None false) batch_with_empty_row
          = (Raise IndexError,
             (pack (fresh 1 10 0 "right" None false)
                batch_with_empty_row).2)) as H
    by (vm_compute; reflexivity).
  split; [exact H|].
  exact (proj1 (pack_raise_state _ _ _ _ H)).
Defined.

(** C7 as stated fails for the leftover bins and for the counters.  With
    one bin wanted of capacity 10, two rows of six tokens open two bins
    in the collator's own list; the third row is all padding, and writing
    its first label raises after one of the two bins has been popped: the
    list, empty before the call, holds a bin after it.  And when a row is
    longer than [max_seq_len] the engine returns, the counters are
    updated, and only then does the re-padding raise. *)
Lemma pack_not_atomic :
  _leftover_bins (fresh 1 10 0 "right" None false) = [] ∧
  pack (fresh 1 10 0 "right" None false) batch_with_empty_row
    = (Raise IndexError,
       {| out_size := 1; max_seq_len := 10; pad_token_id := 0;
          padding_side := "right"; max_leftover_bins_to_keep := None;
          n_packed_tokens := 0; n_total_tokens := 0;
          n_packed_examples := 0;
          _leftover_bins := [(6, trimmed_full_row)];
          _is_profiling := false |}) ∧
  pack (fresh 1 2 0 "right" None false) batch_of_three_tokens
    = (Raise RuntimeError,
       {| out_size := 1; max_seq_len := 2; pad_token_id := 0;
          padding_side := "right"; max_leftover_bins_to_keep := None;
          n_packed_tokens := 3; n_total_tokens := 3;
          n_packed_examples := 1;
          _leftover_bins := [];
          _is_profiling := false |}).
Proof. repeat split; vm_compute; reflexivity. Qed.

(** ** Packing well-formed examples in normal mode *)

Lemma len_pos_nonempty {A} (l : list A) : 1 <= len l → l ≠ [].
Proof. intros H ->. unfold len in H. simpl in H. lia. Qed.

Lemma wf_example_lookup K size ex k :
  wf_example K size ex → k ∈ K → ∃ v, ex !! k = Some v ∧ len v = size.
Proof.
  intros [Hdom Hall] Hk. rewrite <- Hdom in Hk.
  apply elem_of_dom in Hk as [v Hv]. exists v. split; [done|].
  by apply (Hall k v).
Qed.

(** Combining two well-formed, non-empty examples gives the well-formed
    example of their sizes added. *)
Lemma combine_wf K s1 s2 ex add_on :
  wf_example K s1 ex → wf_example K s2 add_on → 1 <= s1 → 1 <= s2 →
  ∃ r, _combine_in_place ex add_on = Ok r ∧ wf_example K (s1 + s2) r.
Proof.
  intros Hex Hadd H1 H2.
  destruct (combine_in_place_joined ex add_on) as (r & Hr & Hin & Hout).
  { destruct Hex as [-> _], Hadd as [-> _]. done. }
  { intros sq Hsq. apply len_pos_nonempty.
    destruct Hex as [_ Hall]. rewrite (Hall _ _ Hsq). done. }
  { intros l Hl. apply len_pos_nonempty.
    destruct Hadd as [_ Hall]. rewrite (Hall _ _ Hl). done. }
  exists r. split; [done|].
  assert (∀ k, k ∈ K →
            ∃ v a, ex !! k = Some v ∧ len v = s1 ∧
                   forced add_on !! k = Some a ∧ len a = s2) as Hfields.
  { intros k HkK.
    destruct (wf_example_lookup _ _ _ k Hex HkK) as (v & Hv & Hlv).
    destruct (wf_example_lookup _ _ _ k Hadd HkK) as (a & Ha & Hla).
    exists v. eexists. split; [done|]. split; [done|].
    split; [by apply forced_lookup|].
    case_decide; [|done]. destruct a as [|x a]; [|done].
    unfold len in Hla. simpl in Hla. lia. }
  split.
  - apply set_eq. intros k. rewrite elem_of_dom. split.
    + intros [v' Hv']. destruct (ex !! k) as [v|] eqn:Hv.
      * destruct Hex as [<- _]. apply elem_of_dom. eauto.
      * by rewrite (Hout k Hv) in Hv'.
    + intros HkK. destruct (Hfields k HkK) as (v & a & Hv & _ & Ha & _).
      rewrite (Hin k v a Hv Ha). eauto.
  - intros k v' Hv'.
    assert (k ∈ K) as HkK.
    { destruct (ex !! k) as [v|] eqn:Hv.
      - destruct Hex as [<- _]. apply elem_of_dom. eauto.
      - by rewrite (Hout k Hv) in Hv'. }
    destruct (Hfields k HkK) as (v & a & Hv & Hlv & Ha & Hla).
    rewrite (Hin k v a Hv Ha) in Hv'. injection Hv' as <-.
    unfold joined. case_decide; rewrite len_app; [|lia].
    unfold len in *. rewrite length_map. lia.
Qed.

Lemma place_item_wf K nb mx n i item bins :
  Z.max 0 (nb - len bins) <= n - i →
  Forall (wf_bin K mx) bins → wf_bin K mx item →
  ∃ bins', place_item false nb mx n i item bins = (Ok (), bins') ∧
           Forall (wf_bin K mx) bins'.
Proof.
  intros Hinv Hbins Hitem.
  pose proof (place_item_placed false nb mx n i item bins Hinv) as Hp.
  destruct (place_item false nb mx n i item bins) as [r bins'].
  simpl in Hp. inversion Hp as [| bidx b packed Hb Hfit Hc | bidx b e Hb _ Hc];
    subst.
  - eexists. split; [done|]. apply Forall_app. split; [done|].
    by constructor.
  - pose proof (Forall_lookup_1 _ _ _ _ Hbins Hb) as [Hbs Hbex].
    destruct Hitem as [His Hiex].
    destruct (combine_wf K b.1 item.1 b.2 item.2) as (r & Hr & Hwf);
      [done|done|lia|lia|].
    rewrite Hr in Hc. injection Hc as <-.
    eexists. split; [done|]. apply Forall_app.
    split; [by apply Forall_delete|]. constructor; [|done].
    split; simpl; [lia|done].
  - pose proof (Forall_lookup_1 _ _ _ _ Hbins Hb) as [Hbs Hbex].
    destruct Hitem as [His Hiex].
    destruct (combine_wf K b.1 item.1 b.2 item.2) as (r & Hr & Hwf);
      [done|done|lia|lia|].
    by rewrite Hr in Hc.
Qed.

Lemma place_items_wf K nb mx n items : ∀ i bins,
  Z.max 0 (nb - len bins) <= n - i → len items <= n - i →
  Forall (wf_bin K mx) bins → Forall (wf_bin K mx) items →
  ∃ bins', place_items false nb mx n i items bins = (Ok (), bins') ∧
           Forall (wf_bin K mx) bins'.
Proof.
  induction items as [|item rest IH]; intros i bins Hinv Hlen Hbins Hitems;
    simpl.
  { eauto. }
  rewrite len_cons in Hlen. pose proof (len_nonneg rest).
  apply Forall_cons in Hitems as [Hitem Hrest].
  destruct (place_item_wf K nb mx n i item bins Hinv Hbins Hitem)
    as (bins1 & E & Hbins1).
  rewrite E.
  destruct (place_item_ok _ _ _ _ _ _ _ _ Hinv ltac:(lia) E)
    as (_ & _ & Hinv').
  apply IH; [done|lia|done|done].
Qed.

Lemma zip_wf K mx (sizes : list Z) (examples : list example) :
  Forall2 (fun s ex => 1 <= s <= mx ∧ wf_example K s ex) sizes examples →
  Forall (wf_bin K mx) (zip sizes examples) ∧
  length sizes = length examples.
Proof.
  induction 1 as [|s ex sizes examples [Hs Hex] _ [IH1 IH2]]; simpl.
  - split; [constructor|done].
  - split; [|by rewrite IH2]. constructor; [|done]. by split.
Qed.

(** With enough well-formed input the engine returns, in normal mode,
    [num_bins] well-formed packed examples and well-formed leftover
    bins. *)
Lemma engine_wf K sizes examples nb mx existing :
  Forall2 (fun s ex => 1 <= s <= mx ∧ wf_example K s ex) sizes examples →
  Forall (wf_bin K mx) existing →
  0 <= nb <= len sizes + len existing →
  ∃ selected leftover bins',
    _first_fit_bin_packing false sizes examples nb mx existing
      = (Ok (selected.*2, total_bin_sizes selected, sum sizes, leftover),
         bins') ∧
    len selected = nb ∧
    Forall (wf_bin K mx) selected ∧
    Forall (wf_bin K mx) leftover.
Proof.
  intros Hin Hex Hnb. apply zip_wf in Hin as [Hitems Hlen].
  unfold _first_fit_bin_packing. pose proof (len_nonneg sizes).
  destruct (Z.ltb_spec (len sizes) (Z.max 0 (nb - len existing))); [lia|].
  set (items := sorted_desc (zip sizes examples)).
  assert (len items = len sizes) as Hli.
  { unfold items, len. rewrite length_sorted_desc, length_zip. lia. }
  assert (Forall (wf_bin K mx) items) as Hwi
    by by apply Forall_sorted_desc.
  destruct (place_items_wf K nb mx (len sizes) items 0 existing)
    as (bins' & E & Hbins'); [lia|lia|done|done|].
  rewrite E.
  destruct (place_items_ok false nb mx (len sizes) items 0 existing bins')
    as (Ht & _ & Hfull); [lia|lia|done|].
  assert (total_bin_sizes items = sum sizes) as Hsum.
  { unfold items. rewrite total_sorted_desc. unfold total_bin_sizes.
    rewrite zip_fst_le; [done|lia]. }
  unfold assemble. case_decide as Hne; [lia|].
  apply (Forall_sorted_desc (wf_bin K mx)) in Hbins'.
  exists (slice_to nb (sorted_desc bins')), (slice_from nb (sorted_desc bins')),
    bins'.
  split; [|split; [|split]].
  - unfold total_bin_sizes. by rewrite !slice_to_fmap.
  - apply length_slice_to. unfold len in *.
    rewrite length_sorted_desc. lia.
  - by apply Forall_take.
  - by apply Forall_drop.
Qed.

Lemma mapM_ok_Forall {A B} (f : A → result B) (P : B → Prop) (l : list A) :
  Forall (fun x => ∃ y, f x = Ok y ∧ P y) l →
  ∃ ys, mapM f l = Ok ys ∧ Forall P ys ∧ length ys = length l.
Proof.
  induction 1 as [|x l (y & Hy & HP) _ (ys & Hys & HPs & Hlen)]; simpl.
  - exists []. by repeat split.
  - exists (y :: ys). rewrite Hy, Hys. simpl.
    split; [done|]. split; [by constructor|by rewrite Hlen].
Qed.

Lemma pad_tensor_len t pad mx side :
  1 <= len t <= mx → side = "left" ∨ side = "right" →
  ∃ r, _pad_tensor t pad mx side = Ok r ∧ len r = mx.
Proof.
  intros Hlen Hside. destruct (decide (len t = mx)) as [<-|Hne].
  { rewrite pad_tensor_same. eauto. }
  assert (len (replicate (Z.to_nat (mx - len t)) pad) = mx - len t) as Hrep
    by (unfold len in *; rewrite length_replicate; lia).
  destruct Hside as [-> | ->].
  - rewrite pad_tensor_left; [|lia|apply len_pos_nonempty; lia].
    eexists. split; [done|]. rewrite len_app, Hrep. lia.
  - rewrite pad_tensor_right; [|lia].
    eexists. split; [done|]. rewrite len_app, Hrep. lia.
Qed.

Lemma pad_vals_allowed self k : k ∈ allowed_keys → is_Some (pad_vals self k).
Proof.
  unfold allowed_keys, pad_vals. rewrite !elem_of_cons, elem_of_nil.
  intros [->|[->|[->|[->|[]]]]]; repeat case_decide; eauto; done.
Qed.

Lemma pad_field_ok self K s ex key :
  wf_example K s ex → 1 <= s <= max_seq_len self →
  key ∈ K → key ∈ allowed_keys →
  padding_side self = "left" ∨ padding_side self = "right" →
  ∃ r, pad_field self key ex = Ok r ∧ len r = max_seq_len self.
Proof.
  intros Hwf Hs HK Hallowed Hside. unfold pad_field.
  destruct (wf_example_lookup _ _ _ _ Hwf HK) as (t & -> & Hlen).
  destruct (pad_vals_allowed self key Hallowed) as [pad ->].
  apply pad_tensor_len; [lia|done].
Qed.

Lemma stack_ok (rows : list tensor) n :
  rows ≠ [] → Forall (fun r => len r = n) rows → stack rows = Ok rows.
Proof.
  intros Hne Hall. unfold stack. destruct rows as [|r rows]; [done|].
  assert (forallb (fun r' => Nat.eqb (length r') (length r)) (r :: rows)
          = true) as ->; [|done].
  apply forallb_forall. intros r' Hr'. apply Nat.eqb_eq.
  apply Forall_cons in Hall as [Hr Hrows].
  assert (len r' = n) as Hn.
  { destruct Hr' as [<-|Hin]; [done|].
    rewrite Forall_forall in Hrows. apply Hrows.
    by apply list_elem_of_In. }
  unfold len in *. lia.
Qed.

Lemma convert_keys_ok self K packed keys : ∀ acc : batch,
  packed ≠ [] →
  Forall (fun ex => ∃ s, 1 <= s <= max_seq_len self ∧ wf_example K s ex)
    packed →
  Forall (fun k => k ∈ K ∧ k ∈ allowed_keys) keys →
  padding_side self = "left" ∨ padding_side self = "right" →
  map_Forall (fun _ => stacked (len packed) (max_seq_len self)) acc →
  ∃ b : batch,
    convert_keys self keys packed acc = Ok b ∧
    dom b = dom acc ∪ list_to_set keys ∧
    map_Forall (fun _ => stacked (len packed) (max_seq_len self)) b.
Proof.
  induction keys as [|key ks IH]; intros acc Hne Hpacked Hkeys Hside Hacc;
    simpl.
  { exists acc. split; [done|]. split; [|done].
    by rewrite (right_id_L ∅ (∪)). }
  apply Forall_cons in Hkeys as [[HK Hallowed] Hks].
  destruct (mapM_ok_Forall (pad_field self key)
              (fun r => len r = max_seq_len self) packed)
    as (rows & -> & Hrows & Hlen).
  { eapply Forall_impl; [exact Hpacked|]. intros ex (s & Hs & Hwf).
    by eapply pad_field_ok. }
  simpl. rewrite (stack_ok rows (max_seq_len self)); [|by destruct rows, packed|done].
  simpl.
  destruct (IH (<[key := rows]> acc)) as (b & Hb & Hdom & Hall);
    [done|done|done|done| |].
  { apply map_Forall_insert_2; [|done]. split; [|done].
    unfold len. by rewrite Hlen. }
  exists b. split; [done|]. split; [|done].
  rewrite Hdom, dom_insert_L.
  by rewrite (comm_L (∪) {[key]}), <- (assoc_L (∪)).
Qed.

Lemma keys_to_set (ex : example) :
  list_to_set (map fst (map_to_list ex)) =@{gset string} dom ex.
Proof.
  apply set_eq. intros k.
  by rewrite elem_of_list_to_set, elem_of_keys, elem_of_dom.
Qed.

Lemma convert_to_batch_ok self K packed :
  packed ≠ [] →
  Forall (fun ex => ∃ s, 1 <= s <= max_seq_len self ∧ wf_example K s ex)
    packed →
  (∀ k, k ∈ K → k ∈ allowed_keys) →
  padding_side self = "left" ∨ padding_side self = "right" →
  ∃ b : batch,
    _convert_to_batch self packed = Ok b ∧
    dom b = K ∧
    map_Forall (fun _ => stacked (len packed) (max_seq_len self)) b.
Proof.
  intros Hne Hpacked HK Hside. unfold _convert_to_batch.
  destruct packed as [|first rest] eqn:Hp; [done|]. rewrite <- Hp in *.
  assert (dom first = K) as Hfirst.
  { rewrite Hp in Hpacked. apply Forall_cons in Hpacked as [(s & _ & [? _]) _].
    done. }
  destruct (convert_keys_ok self K packed (map fst (map_to_list first)) ∅)
    as (b & Hb & Hdom & Hall); [done|done| |done|apply map_Forall_empty|].
  { apply Forall_forall. intros k Hk.
    apply elem_of_keys, elem_of_dom in Hk.
    rewrite Hfirst in Hk. auto. }
  exists b. split; [done|]. split; [|done].
  by rewrite Hdom, keys_to_set, Hfirst, dom_empty_L, (left_id_L ∅ (∪)).
Qed.

Lemma pack_trimmed_wf K self trimmed sizes :
  _is_profiling self = false →
  1 <= out_size self <= len sizes + len (_leftover_bins self) →
  padding_side self = "left" ∨ padding_side self = "right" →
  (∀ k, k ∈ K → k ∈ allowed_keys) →
  Forall2 (fun s ex => 1 <= s <= max_seq_len self ∧ wf_example K s ex)
    sizes trimmed →
  Forall (wf_bin K (max_seq_len self)) (_leftover_bins self) →
  ∃ b self',
    _pack_trimmed_examples self trimmed sizes = (Ok (Some b), self') ∧
    dom b = K ∧
    map_Forall (fun _ => stacked (out_size self) (max_seq_len self)) b ∧
    same_config self self' ∧
    Forall (wf_bin K (max_seq_len self)) (_leftover_bins self').
Proof.
  intros Hprof Hnb Hside HK Hin Hleft. unfold _pack_trimmed_examples.
  rewrite Hprof.
  destruct (engine_wf K sizes trimmed (out_size self) (max_seq_len self)
              (_leftover_bins self) Hin Hleft ltac:(lia))
    as (selected & leftover & bins' & -> & Hlen & Hsel & Hlo).
  match goal with
  | |- context [_convert_to_batch ?s _] => set (self' := s)
  end.
  destruct (convert_to_batch_ok self' K (selected.*2))
    as (b & Hb & Hdom & Hall); [| |done|done|].
  { destruct selected; [|done]. rewrite len_nil in Hlen. lia. }
  { apply Forall_fmap. eapply Forall_impl; [exact Hsel|].
    intros [s ex] [Hs Hwf]. by exists s. }
  rewrite Hb. exists b, self'. split; [done|]. split; [done|].
  split; [|split; [done|]].
  - assert (len selected.*2 = out_size self) as <-
      by (unfold len in *; by rewrite length_fmap).
    done.
  - simpl. destruct (max_leftover_bins_to_keep self); simpl; [|done].
    by apply Forall_take.
Qed.

(** *** Trimming a well-formed batch *)

Lemma length_mask_select keep : ∀ row,
  length row = length keep →
  length (mask_select keep row) = length (filter (fun x => x = true) keep).
Proof.
  unfold mask_select.
  induction keep as [|k keep IH]; intros [|x row] Hlen; simpl in *;
    try done.
  rewrite !filter_cons. simpl. destruct k; simpl.
  - f_equal. apply IH. lia.
  - apply IH. lia.
Qed.

Lemma attended_keep (mask_row : list Z) :
  len (filter (fun x => x = true)
         (map (fun x => bool_decide (x = 1)) mask_row))
  = attended mask_row.
Proof.
  unfold attended, len. f_equal.
  induction mask_row as [|x l IH]; [done|]. simpl.
  rewrite !filter_cons. destruct (decide (x = 1)) as [->|Hne].
  - rewrite bool_decide_eq_true_2 by done.
    rewrite decide_True by done. simpl. by rewrite IH.
  - rewrite bool_decide_eq_false_2 by done.
    rewrite decide_False by done. done.
Qed.

Lemma extract_trim_wf mx (b : batch) mask idx mask_row :
  wf_batch mx b mask → mask !! idx = Some mask_row →
  ∃ ex, _extract_trim_batch_idx b idx = Ok (attended mask_row, ex) ∧
        wf_example ({["sequence_id"]} ∪ dom b) (attended mask_row) ex.
Proof.
  intros (Hmask & [ids Hids] & _ & Hshape & _) Hrow.
  unfold _extract_trim_batch_idx.
  assert (∀ k v, b !! k = Some v →
            ∃ row, v !! idx = Some row ∧ length row = length mask_row)
    as Hrows.
  { intros k v Hv. specialize (Hshape k v Hv).
    destruct (Forall2_lookup_r _ _ _ _ _ Hshape Hrow) as (row & ? & ?).
    eauto. }
  rewrite bool_decide_eq_true_2.
  2:{ intros k v Hv. destruct (Hrows k v Hv) as (row & Hr & _).
      by apply lookup_lt_Some in Hr. }
  rewrite lookup_fmap, Hmask. simpl.
  destruct (Hrows _ _ Hmask) as (mrow & Hm & _).
  rewrite Hrow in Hm. injection Hm as <-. rewrite Hrow. simpl.
  set (keep := map (fun x => bool_decide (x = 1)) mask_row).
  assert (length keep = length mask_row) as Hkeep
    by (unfold keep; by rewrite length_map).
  rewrite bool_decide_eq_true_2.
  2:{ intros k row. rewrite lookup_fmap.
      destruct (b !! k) as [v|] eqn:Hv; [|done]. simpl. intros [= <-].
      destruct (Hrows k v Hv) as (row & -> & Hlen). simpl. lia. }
  rewrite !lookup_fmap, Hids. simpl.
  pose proof (attended_keep mask_row) as Hatt. fold keep in Hatt.
  rewrite Hatt. eexists. split; [reflexivity|].
  split.
  - by rewrite dom_insert_L, !dom_fmap_L.
  - apply map_Forall_insert_2.
    + unfold len. rewrite length_replicate.
      destruct (Hrows _ _ Hids) as (row & -> & Hlen). simpl.
      rewrite length_mask_select by lia. exact Hatt.
    + intros k t. rewrite !lookup_fmap.
      destruct (b !! k) as [v|] eqn:Hv; [|done]. simpl. intros [= <-].
      destruct (Hrows k v Hv) as (row & -> & Hlen). simpl.
      unfold len. rewrite length_mask_select by lia. exact Hatt.
Qed.

Lemma trim_batch_wf mx (b : batch) mask :
  wf_batch mx b mask →
  ∃ sizes trimmed,
    _trim_batch b = Ok (sizes, trimmed) ∧
    length sizes = length mask ∧
    Forall2 (fun s ex =>
               1 <= s <= mx ∧ wf_example ({["sequence_id"]} ∪ dom b) s ex)
      sizes trimmed.
Proof.
  intros Hwf. pose proof Hwf as (Hmask & _ & _ & _ & Hatt).
  unfold _trim_batch. rewrite Hmask.
  destruct (mapM_ok_Forall (_extract_trim_batch_idx b)
              (fun p => 1 <= p.1 <= mx ∧
                        wf_example ({["sequence_id"]} ∪ dom b) p.1 p.2)
              (seq 0 (length mask))) as (res & -> & Hres & Hlen).
  { apply Forall_forall. intros idx Hidx.
    apply elem_of_seq in Hidx as [_ Hidx]. simpl in Hidx.
    destruct (lookup_lt_is_Some_2 mask idx Hidx) as [mask_row Hrow].
    destruct (extract_trim_wf mx b mask idx mask_row Hwf Hrow)
      as (ex & Hex & Hwfex).
    exists (attended mask_row, ex). split; [done|]. split; [|done].
    by apply (Forall_lookup_1 _ _ _ _ Hatt Hrow). }
  simpl. exists (res.*1), (res.*2). split; [done|].
  split; [by rewrite length_fmap, Hlen, length_seq|].
  clear Hlen. induction Hres as [|[s ex] res Hp _ IH]; simpl;
    constructor; done.
Qed.

(** ** The shape of the packed batch *)

(** C3, as the code has it.  Take a collator in normal mode, for at
    least one bin, that pads on the left or on the right; a batch in
    which every row attends to at least one and at most [max_seq_len]
    positions; leftover bins that earlier such calls left (non-empty,
    within [max_seq_len], with the fields of the trimmed examples); and
    as many rows and leftover bins together as [target_batch_size].  Then
    [pack] returns a batch with the fields of the input and
    [sequence_id], each field holding exactly [target_batch_size] rows of
    exactly [max_seq_len] values; and the leftover bins it keeps are
    again such bins. *)
Theorem pack_output_cardinality self b mask :
  _is_profiling self = false →
  1 <= out_size self →
  padding_side self = "left" ∨ padding_side self = "right" →
  wf_batch (max_seq_len self) b mask →
  Forall (wf_bin ({["sequence_id"]} ∪ dom b) (max_seq_len self))
    (_leftover_bins self) →
  out_size self <= len mask + len (_leftover_bins self) →
  ∃ packed self',
    pack self b = (Ok packed, self') ∧
    dom packed = {["sequence_id"]} ∪ dom b ∧
    map_Forall (fun _ => stacked (out_size self) (max_seq_len self)) packed ∧
    same_config self self' ∧
    Forall (wf_bin ({["sequence_id"]} ∪ dom b) (max_seq_len self))
      (_leftover_bins self').
Proof.
  intros Hprof Hout Hside Hwf Hleft Hnb.
  pose proof Hwf as (Hmask & [ids Hids] & Hallowed & _ & _).
  destruct (trim_batch_wf _ _ _ Hwf) as (sizes & trimmed & Ht & Hlen & Hin).
  unfold pack. rewrite Hprof, Hmask, Hids.
  rewrite !bool_decide_eq_false_2 by done.
  rewrite allowed_keys_check by done. simpl. rewrite Ht.
  destruct (pack_trimmed_wf ({["sequence_id"]} ∪ dom b) self trimmed sizes)
    as (packed & self' & -> & Hdom & Hall & Hcfg & Hleft');
    [done| |done| |done|done|].
  { unfold len in *. lia. }
  { intros k [->%elem_of_singleton|Hk]%elem_of_union.
    - unfold allowed_keys. do 3 apply list_elem_of_further.
      apply list_elem_of_here.
    - apply elem_of_dom in Hk as [v Hv]. by apply (Hallowed k v). }
  by exists packed, self'.
Qed.

Lemma pack_output_cardinality_witness :
  _is_profiling (fresh 1 4 0 "right" None false) = false ∧
  1 <= out_size (fresh 1 4 0 "right" None false) ∧
  wf_batch 4 batch_of_two_rows [[1; 1; 0]; [1; 1; 1]] ∧
  ∃ packed self',
    pack (fresh 1 4 0 "right" None false) batch_of_two_rows
      = (Ok packed, self') ∧
    map_Forall (fun _ => stacked 1 4) packed.
Proof.
  assert (1 <= out_size (fresh 1 4 0 "right" None false)) as Hout
    by (simpl; lia).
  assert (wf_batch 4 batch_of_two_rows [[1; 1; 0]; [1; 1; 1]]) as Hwf.
  { unfold wf_batch, batch_of_two_rows.
    split; [reflexivity|]. split; [by eexists|]. split; [|split].
    - repeat (apply map_Forall_insert_2; [unfold allowed_keys; set_solver|]).
      apply map_Forall_empty.
    - repeat (apply map_Forall_insert_2; [by repeat constructor|]).
      apply map_Forall_empty.
    - repeat constructor; vm_compute; discriminate. }
  split; [reflexivity|]. split; [exact Hout|]. split; [exact Hwf|].
  destruct (pack_output_cardinality (fresh 1 4 0 "right" None false)
              batch_of_two_rows [[1; 1; 0]; [1; 1; 1]]
              eq_refl Hout (or_intror eq_refl) Hwf)
    as (packed & self' & Hp & _ & Hall & _ & _).
  { constructor. }
  { vm_compute. discriminate. }
  exists packed, self'. split; [exact Hp|exact Hall].
Defined.

(** C3 as stated fails: with as many rows as bins wanted, [pack] still
    raises when a row attends to more than [max_seq_len] positions (the
    bin does not fit the padded buffer), and when a row is all padding
    among rows with labels (its first label cannot be overwritten). *)
Lemma pack_raises_on_sufficient_input :
  (r ← _trim_batch batch_of_three_tokens; Ok (len r.2)) = Ok 1 ∧
  out_size (fresh 1 2 0 "right" None false) = 1 ∧
  (pack (fresh 1 2 0 "right" None false) batch_of_three_tokens).1
    = Raise RuntimeError ∧
  (r ← _trim_batch batch_with_empty_row; Ok (len r.2)) = Ok 3 ∧
  out_size (fresh 1 10 0 "right" None false) = 1 ∧
  (pack (fresh 1 10 0 "right" None false) batch_with_empty_row).1
    = Raise IndexError.
Proof. do 5 (split; [vm_compute; reflexivity|]). vm_compute; reflexivity. Qed.

(** * Further properties of the code *)

(** ** The engine: which bins are returned *)

Lemma sorted_desc_strongly {A} (xs : list (Z * A)) :
  StronglySorted (fun a b => b.1 <= a.1) (sorted_desc xs).
Proof.
  apply Sorted_StronglySorted; [|apply sorted_desc_sorted].
  intros a b c Hab Hbc. lia.
Qed.

Lemma StronglySorted_app_le {A} (l1 l2 : list (Z * A)) :
  StronglySorted (fun a b => b.1 <= a.1) (l1 ++ l2) →
  ∀ s l, s ∈ l1 → l ∈ l2 → l.1 <= s.1.
Proof.
  induction l1 as [|x l1 IH]; simpl; intros Hs s l Hin Hl.
  - by apply elem_of_nil in Hin.
  - apply StronglySorted_inv in Hs as [Hs Hx].
    apply elem_of_cons in Hin as [->|Hin]; [|by apply IH].
    rewrite Forall_forall in Hx. apply Hx. apply elem_of_app. by right.
Qed.

(** The engine returns the largest bins.  Whenever it returns, the packed
    examples are those of a list [selected] of bins such that [selected]
    followed by the leftover bins is the working list rearranged in
    non-increasing order of size: the packed examples come largest first,
    so do the leftover bins, and no leftover bin is larger than a
    selected one. *)
Theorem first_fit_selects_largest prof sizes examples nb mx existing
    packed n_packed n_total leftover bins' :
  _first_fit_bin_packing prof sizes examples nb mx existing
    = (Ok (packed, n_packed, n_total, leftover), bins') →
  ∃ selected : list bin,
    packed = selected.*2 ∧
    selected ++ leftover ≡ₚ bins' ∧
    StronglySorted (fun a b => b.1 <= a.1) (selected ++ leftover) ∧
    ∀ s l, s ∈ selected → l ∈ leftover → l.1 <= s.1.
Proof.
  intros E. apply engine_ok, assemble_ok in E as (_ & _ & [= -> _ _ ->]).
  exists (slice_to nb (sorted_desc bins')).
  assert (StronglySorted (fun a b : bin => b.1 <= a.1)
            (slice_to nb (sorted_desc bins')
             ++ slice_from nb (sorted_desc bins'))) as Hs
    by (rewrite slice_to_from; apply sorted_desc_strongly).
  split; [done|]. split; [|split; [done|]].
  - by rewrite slice_to_from, sorted_desc_Permutation.
  - by apply StronglySorted_app_le.
Qed.

Lemma first_fit_selects_largest_witness :
  ∃ selected : list bin,
    [(∅ : example); ∅] = selected.*2 ∧
    ∀ s l, s ∈ selected → l ∈ [(60, (∅ : example))] → l.1 <= s.1.
Proof.
  assert (_first_fit_bin_packing true [70; 80; 60] [∅; ∅; ∅] 2 100 []
          = (Ok ([∅; ∅], 150, 210, [(60, ∅)]),
             [(80, ∅); (70, ∅); (60, ∅)])) as E
    by (vm_compute; reflexivity).
  destruct (first_fit_selects_largest _ _ _ _ _ _ _ _ _ _ _ E)
    as (selected & Hp & _ & _ & Hle).
  exists selected. split; [exact Hp|exact Hle].
Defined.

(** In profiling mode, with an example for every size and at least as
    many items and carried-in bins together as [num_bins], the engine
    returns exactly [num_bins] packed examples; all the other bins are
    left over. *)
Theorem profiling_fills_num_bins sizes examples nb mx existing :
  (length sizes ≤ length examples)%nat →
  0 <= nb <= len sizes + len existing →
  ∃ packed n_packed leftover bins',
    _first_fit_bin_packing true sizes examples nb mx existing
      = (Ok (packed, n_packed, sum sizes, leftover), bins') ∧
    len packed = nb ∧
    len leftover = len bins' - nb.
Proof.
  intros Hlen Hnb. unfold _first_fit_bin_packing.
  pose proof (len_nonneg sizes).
  destruct (Z.ltb_spec (len sizes) (Z.max 0 (nb - len existing))); [lia|].
  set (items := sorted_desc (zip sizes examples)).
  assert (len items = len sizes) as Hli.
  { unfold items, len. rewrite length_sorted_desc, length_zip. lia. }
  destruct (place_items_profiling nb mx (len sizes) items 0 existing)
    as [bins' E]; [lia|lia|].
  rewrite E.
  destruct (place_items_ok true nb mx (len sizes) items 0 existing bins')
    as (Ht & _ & Hfull); [lia|lia|done|].
  assert (total_bin_sizes items = sum sizes) as Hsum.
  { unfold items. rewrite total_sorted_desc. unfold total_bin_sizes.
    by rewrite zip_fst_le. }
  unfold assemble. case_decide as Hne; [lia|].
  do 4 eexists. split; [reflexivity|].
  assert (len (sorted_desc bins') = len bins') as Hsl
    by (unfold len; by rewrite length_sorted_desc).
  split.
  - apply length_slice_to. unfold len in *. rewrite !length_fmap. lia.
  - unfold slice_from, slice_index, len in *.
    destruct (Z.ltb_spec nb 0); [lia|]. rewrite length_drop. lia.
Qed.

Lemma profiling_fills_num_bins_witness :
  ∃ packed n_packed leftover bins',
    _first_fit_bin_packing true [30; 90; 60] [∅; ∅; ∅] 2 100 []
      = (Ok (packed, n_packed, sum [30; 90; 60], leftover), bins') ∧
    len packed = 2.
Proof.
  destruct (profiling_fills_num_bins [30; 90; 60] [∅; ∅; ∅] 2 100 [])
    as (packed & np & leftover & bins' & E & Hp & _).
  { simpl. lia. }
  { vm_compute. split; discriminate. }
  exists packed, np, leftover, bins'. split; [exact E|exact Hp].
Defined.

Lemma sorted_desc_of_sorted {A} (xs : list (Z * A)) :
  Sorted (fun a b => b.1 <= a.1) xs → sorted_desc xs = xs.
Proof.
  induction 1 as [|x xs Hs IH Hhd]; [done|].
  unfold sorted_desc in *. simpl. rewrite IH.
  destruct Hhd as [|y ys Hy]; simpl; [done|].
  by destruct (Z.leb_spec y.1 x.1); [|lia].
Qed.

(** While exactly as many items are left as bins are missing, every item
    opens a bin. *)
Lemma place_items_reserved prof nb mx n items : ∀ i bins,
  n - i = nb - len bins → len items = n - i →
  place_items prof nb mx n i items bins = (Ok (), bins ++ items).
Proof.
  induction items as [|item rest IH]; intros i bins Hres Hlen; simpl.
  { by rewrite app_nil_r. }
  rewrite len_cons in Hlen. pose proof (len_nonneg rest).
  unfold place_item. destruct item as [size ex].
  destruct (Z.ltb_spec (n - i) (Z.max 0 (nb - len bins))); [lia|].
  destruct (Z.eqb_spec (n - i) (Z.max 0 (nb - len bins))); [|lia].
  rewrite IH; [by rewrite <- app_assoc|rewrite len_snoc; lia|lia].
Qed.

Lemma engine_reserved prof sizes examples nb mx existing :
  length sizes = length examples →
  len sizes = nb - len existing →
  _first_fit_bin_packing prof sizes examples nb mx existing
  = (Ok ((sorted_desc (existing ++ sorted_desc (zip sizes examples))).*2,
         total_bin_sizes existing + sum sizes,
         sum sizes,
         []),
     existing ++ sorted_desc (zip sizes examples)).
Proof.
  intros Hlen Hres. unfold _first_fit_bin_packing.
  pose proof (len_nonneg sizes).
  destruct (Z.ltb_spec (len sizes) (Z.max 0 (nb - len existing))); [lia|].
  set (items := sorted_desc (zip sizes examples)).
  assert (len items = len sizes) as Hli.
  { unfold items, len. rewrite length_sorted_desc, length_zip. lia. }
  rewrite place_items_reserved by lia.
  assert (total_bin_sizes (existing ++ items)
          = total_bin_sizes existing + sum sizes) as Ht.
  { rewrite total_app. unfold items. rewrite total_sorted_desc.
    unfold total_bin_sizes at 2. rewrite zip_fst_le; [done|lia]. }
  assert (len (sorted_desc (existing ++ items)) <= nb) as Hall.
  { unfold len in *. rewrite length_sorted_desc, length_app. lia. }
  unfold assemble. case_decide as Hne; [lia|].
  rewrite slice_from_all by done.
  rewrite !slice_to_all by (unfold len in *; by rewrite length_fmap).
  fold (total_bin_sizes (sorted_desc (existing ++ items))).
  by rewrite total_sorted_desc, Ht.
Qed.

(** The reserve rule.  When the new items are exactly as many as the bins
    still missing ([len(sizes) = num_bins - len(existing_bins)]), nothing
    is combined, in either mode and whatever room the carried-in bins
    have: the working list is the carried-in bins followed by one bin per
    item, all [num_bins] bins are returned as packed examples, largest
    first, and none is left over. *)
Theorem reserve_one_bin_per_item prof sizes examples nb mx existing :
  length sizes = length examples →
  len sizes = nb - len existing →
  _first_fit_bin_packing prof sizes examples nb mx existing
  = (Ok ((sorted_desc (existing ++ sorted_desc (zip sizes examples))).*2,
         total_bin_sizes existing + sum sizes,
         sum sizes,
         []),
     existing ++ sorted_desc (zip sizes examples)).
Proof. apply engine_reserved. Qed.

Lemma reserve_one_bin_per_item_witness :
  _first_fit_bin_packing false [90; 30] [∅; ∅] 3 100 [(60, ∅)]
  = (Ok ([∅; ∅; ∅], 180, 120, []), [(60, ∅); (90, ∅); (30, ∅)]).
Proof.
  assert (length [90; 30] = length [(∅ : example); ∅]) as Hlen
    by reflexivity.
  assert (len [90; 30] = 3 - len [(60, (∅ : example))]) as Hres
    by reflexivity.
  exact (reserve_one_bin_per_item false [90; 30] [∅; ∅] 3 100 [(60, ∅)]
           Hlen Hres).
Defined.

(** ** The engine in profiling mode: the examples are never touched *)

Section examples.
Context (P : example → Prop).

Lemma place_item_examples nb mx n i item (bins : list bin) :
  Forall (fun b => P b.2) bins → P item.2 →
  Forall (fun b => P b.2) (place_item true nb mx n i item bins).2.
Proof.
  intros Hb Hi. unfold place_item. destruct item as [size ex].
  destruct (n - i <? Z.max 0 (nb - len bins)); [done|].
  destruct (n - i =? Z.max 0 (nb - len bins)).
  { simpl. apply Forall_app. split; [done|]. by constructor. }
  destruct (first_fit size mx bins) as [bidx|] eqn:Hfit.
  2:{ simpl. apply Forall_app. split; [done|]. by constructor. }
  destruct (first_fit_Some _ _ _ _ Hfit) as ([bs p] & Hl & _).
  rewrite Hl. simpl. apply Forall_app. split; [by apply Forall_delete|].
  constructor; [|done]. by apply (Forall_lookup_1 _ _ _ _ Hb Hl).
Qed.

Lemma place_items_examples nb mx n items : ∀ i (bins : list bin),
  Forall (fun b => P b.2) bins → Forall (fun b => P b.2) items →
  Forall (fun b => P b.2) (place_items true nb mx n i items bins).2.
Proof.
  induction items as [|item rest IH]; intros i bins Hb Hi; simpl; [done|].
  apply Forall_cons in Hi as [Hitem Hrest].
  pose proof (place_item_examples nb mx n i item bins Hb Hitem) as H1.
  destruct (place_item true nb mx n i item bins) as [[[]|e] bins1];
    simpl in *; [by apply IH|done].
Qed.

Lemma zip_examples (sizes : list Z) (examples : list example) :
  Forall P examples → Forall (fun b : bin => P b.2) (zip sizes examples).
Proof.
  intros H. revert sizes.
  induction H as [|e examples He _ IH]; intros [|s sizes]; simpl;
    try constructor; [done|apply IH].
Qed.

Lemma engine_examples sizes examples nb mx existing :
  Forall (fun b => P b.2) existing → Forall P examples →
  Forall (fun b => P b.2)
    (_first_fit_bin_packing true sizes examples nb mx existing).2.
Proof.
  intros He Hx. unfold _first_fit_bin_packing.
  assert (Forall (fun b : bin => P b.2) (sorted_desc (zip sizes examples)))
    as Hi by by apply Forall_sorted_desc, zip_examples.
  destruct (len sizes <? Z.max 0 (nb - len existing)).
  - rewrite assemble_bins. by apply Forall_app.
  - pose proof (place_items_examples nb mx (len sizes) _ 0 _ He Hi) as H.
    destruct (place_items _ _ _ _ _ _ _) as [[[]|e] bins1]; simpl in *;
      [by rewrite assemble_bins|done].
Qed.
End examples.

(** In profiling mode no tensor is built: every packed example the engine
    returns, and the example of every leftover bin, is one of the
    examples passed in or the example of a bin carried in, as it was. *)
Theorem profiling_keeps_examples sizes examples nb mx existing
    packed n_packed n_total leftover bins' :
  _first_fit_bin_packing true sizes examples nb mx existing
    = (Ok (packed, n_packed, n_total, leftover), bins') →
  Forall (fun ex => ex ∈ existing.*2 ++ examples) packed ∧
  Forall (fun b => b.2 ∈ existing.*2 ++ examples) leftover.
Proof.
  intros E.
  pose proof (engine_examples (fun ex => ex ∈ existing.*2 ++ examples)
                sizes examples nb mx existing) as H.
  rewrite E in H. simpl in H.
  apply engine_ok, assemble_ok in E as (_ & _ & [= -> _ _ ->]).
  assert (Forall (fun b : bin => b.2 ∈ existing.*2 ++ examples)
            (sorted_desc bins')) as Hs.
  { apply Forall_sorted_desc, H.
    - apply Forall_forall. intros b Hb. apply elem_of_app. left.
      by apply list_elem_of_fmap_2.
    - apply Forall_forall. intros ex Hex. apply elem_of_app. by right. }
  split; [|by apply Forall_drop].
  apply Forall_fmap. by apply Forall_take.
Qed.

Lemma profiling_keeps_examples_witness :
  Forall (fun ex => ex ∈ [(60, scenario_bin)].*2 ++ [scenario_add_on])
    [scenario_bin].
Proof.
  assert (_first_fit_bin_packing true [2] [scenario_add_on] 1 100
            [(60, scenario_bin)]
          = (Ok ([scenario_bin], 62, 2, []), [(62, scenario_bin)])) as E
    by (vm_compute; reflexivity).
  exact (proj1 (profiling_keeps_examples _ _ _ _ _ _ _ _ _ _ E)).
Defined.

(** ** The collator across calls *)

(** What a call that returns has done to the collator. *)
Lemma pack_trimmed_ok_state self trimmed sizes r self' :
  _pack_trimmed_examples self trimmed sizes = (Ok r, self') →
  ∃ packed n_packed leftover bins',
    _first_fit_bin_packing (_is_profiling self) sizes trimmed
      (out_size self) (max_seq_len self) (_leftover_bins self)
    = (Ok (packed, n_packed, sum sizes, leftover), bins') ∧
    same_config self self' ∧
    n_packed_tokens self' = n_packed_tokens self + n_packed ∧
    n_total_tokens self' = n_total_tokens self + sum sizes ∧
    n_packed_examples self' = n_packed_examples self + out_size self ∧
    _leftover_bins self'
    = slice_to_opt (max_leftover_bins_to_keep self) leftover.
Proof.
  unfold _pack_trimmed_examples.
  destruct (_first_fit_bin_packing _ _ _ _ _ _)
    as [[[[[packed np] nt] left]|e] bins'] eqn:E; [|done].
  pose proof E as E'.
  apply engine_ok, assemble_ok in E' as (_ & _ & [= _ _ -> _]).
  intros H. exists packed, np, left, bins'. split; [done|].
  destruct (_is_profiling self) eqn:Hprof.
  - injection H as _ <-. by repeat split.
  - destruct (_convert_to_batch _ _); [|done].
    injection H as _ <-. by repeat split.
Qed.

Lemma do_call_ok_state self c self' :
  do_call self c = (Ok (), self') →
  ∃ sizes trimmed packed n_packed leftover bins',
    match c with
    | call_pack b => _trim_batch b = Ok (sizes, trimmed)
    | call_pack_trimmed t s => sizes = s ∧ trimmed = t
    end ∧
    _first_fit_bin_packing (_is_profiling self) sizes trimmed
      (out_size self) (max_seq_len self) (_leftover_bins self)
    = (Ok (packed, n_packed, sum sizes, leftover), bins') ∧
    same_config self self' ∧
    n_packed_tokens self' = n_packed_tokens self + n_packed ∧
    n_total_tokens self' = n_total_tokens self + sum sizes ∧
    n_packed_examples self' = n_packed_examples self + out_size self ∧
    _leftover_bins self'
    = slice_to_opt (max_leftover_bins_to_keep self) leftover.
Proof.
  destruct c as [b|t s]; simpl.
  - unfold pack. destruct (_is_profiling self) eqn:Hprof; [done|].
    repeat (case_bool_decide; [done|]). destruct (negb _); [done|].
    destruct (_trim_batch b) as [[sizes trimmed]|e] eqn:Ht; [|done].
    destruct (_pack_trimmed_examples self trimmed sizes)
      as [[[pb|]|e] self1] eqn:E; [|done|done].
    intros [= <-].
    destruct (pack_trimmed_ok_state _ _ _ _ _ E)
      as (packed & np & left & bins' & He & Hrest).
    rewrite Hprof in He. by exists sizes, trimmed, packed, np, left, bins'.
  - destruct (_pack_trimmed_examples self t s) as [[r|e] self1] eqn:E;
      [|done].
    intros [= <-].
    destruct (pack_trimmed_ok_state _ _ _ _ _ E)
      as (packed & np & left & bins' & He & Hrest).
    by exists s, t, packed, np, left, bins'.
Qed.

Lemma same_config_trans s1 s2 s3 :
  same_config s1 s2 → same_config s2 s3 → same_config s1 s3.
Proof.
  unfold same_config. intros (?&?&?&?&?&?) (?&?&?&?&?&?).
  repeat split; congruence.
Qed.

Lemma init_fresh tbs msl pad side keep prof self :
  __init__ tbs msl pad side keep prof = Ok self →
  self = fresh tbs msl pad side keep prof ∧
  1 <= tbs ∧ 1 <= msl ∧ 0 <= pad ∧
  match keep with Some k => 0 <= k | None => True end.
Proof.
  unfold __init__.
  destruct (Z.leb_spec tbs 0); [done|].
  destruct (Z.leb_spec msl 0); [done|].
  destruct (Z.ltb_spec pad 0); [done|].
  destruct keep as [k|].
  - destruct (Z.ltb_spec k 0); [done|]. intros [= <-].
    repeat split; lia.
  - intros [= <-]. repeat split; lia.
Qed.

Lemma len_slice_to_le {A} (k : Z) (l : list A) :
  0 <= k → len (slice_to k l) <= k.
Proof.
  intros Hk. unfold slice_to, slice_index, len.
  destruct (Z.ltb_spec k 0); [lia|]. rewrite length_take. lia.
Qed.

(** Calls that return count [out_size] packed examples each and never
    change the constructor arguments. *)
Lemma successful_calls_count calls : ∀ self self',
  successful_calls self calls = Some self' →
  same_config self self' ∧
  n_packed_examples self'
  = n_packed_examples self + out_size self * len calls.
Proof.
  induction calls as [|c cs IH]; intros self self'; simpl.
  - intros [= <-]. rewrite len_nil. split; [done|lia].
  - destruct (do_call self c) as [[[]|e] self1] eqn:E; [|done].
    intros Hrest.
    destruct (do_call_ok_state _ _ _ E)
      as (?&?&?&?&?&?&_&_&Hcfg&_&_&Hn&_).
    destruct (IH _ _ Hrest) as [Hcfg' Hn'].
    split; [by eapply same_config_trans|].
    rewrite Hn', Hn, len_cons. destruct Hcfg as [-> _]. lia.
Qed.

(** The number of packed examples is the batch size times the number of
    calls: on a collator as [__init__] made it, after calls that all
    returned, [n_packed_examples] is [target_batch_size] times the number
    of calls, whatever the calls packed, and the constructor arguments
    are as they were. *)
Theorem packed_examples_count tbs msl pad side keep prof self0 calls self :
  __init__ tbs msl pad side keep prof = Ok self0 →
  successful_calls self0 calls = Some self →
  n_packed_examples self = tbs * len calls ∧ same_config self0 self.
Proof.
  intros Hinit Hrun. apply init_fresh in Hinit as [-> _].
  destruct (successful_calls_count _ _ _ Hrun) as [Hcfg Hn].
  split; [|done]. rewrite Hn. simpl. lia.
Qed.

Lemma packed_examples_count_witness :
  ∃ self,
    successful_calls (fresh 1 4 0 "left" None true)
      [call_pack_trimmed [∅; ∅] [3; 2]; call_pack_trimmed [∅] [1]]
    = Some self ∧
    n_packed_examples self = 1 * 2.
Proof.
  eexists. split; [vm_compute; reflexivity|].
  exact (proj1 (packed_examples_count 1 4 0 "left" None true _
                  [call_pack_trimmed [∅; ∅] [3; 2];
                   call_pack_trimmed [∅] [1]] _ eq_refl eq_refl)).
Defined.

(** The leftover bins are bounded: on a collator made with
    [max_leftover_bins_to_keep = k], after calls that all returned, at
    most [k] bins are carried over. *)
Theorem leftover_bounded tbs msl pad side k prof self0 calls self :
  __init__ tbs msl pad side (Some k) prof = Ok self0 →
  successful_calls self0 calls = Some self →
  len (_leftover_bins self) <= k.
Proof.
  intros Hinit Hrun. apply init_fresh in Hinit as (-> & _ & _ & _ & Hk).
  assert (∀ cs s s',
            max_leftover_bins_to_keep s = Some k →
            len (_leftover_bins s) <= k →
            successful_calls s cs = Some s' →
            len (_leftover_bins s') <= k) as Hgen.
  { induction cs as [|c cs IH]; intros s s' Hkeep Hle; simpl.
    - by intros [= <-].
    - destruct (do_call s c) as [[[]|e] s1] eqn:E; [|done].
      destruct (do_call_ok_state _ _ _ E)
        as (?&?&?&?&left&?&_&_&Hcfg&_&_&_&Hleft).
      apply IH.
      + destruct Hcfg as (_&_&_&_&->&_). done.
      + rewrite Hleft, Hkeep. simpl. by apply len_slice_to_le. }
  apply (Hgen calls (fresh tbs msl pad side (Some k) prof) self);
    [done|simpl; rewrite len_nil; lia|done].
Qed.

Lemma leftover_bounded_witness :
  ∃ self,
    successful_calls (fresh 1 4 0 "left" (Some 1) true)
      [call_pack_trimmed [∅; ∅; ∅] [3; 2; 4]] = Some self ∧
    len (_leftover_bins self) <= 1.
Proof.
  eexists. split; [vm_compute; reflexivity|].
  exact (leftover_bounded 1 4 0 "left" 1 true _
           [call_pack_trimmed [∅; ∅; ∅] [3; 2; 4]] _ eq_refl eq_refl).
Defined.

(** Nothing is lost without a limit on the leftover bins: on a collator
    made with [max_leftover_bins_to_keep = None], after calls that all
    returned, the tokens counted as received are exactly those counted
    as packed plus those in the leftover bins, whatever sizes were
    passed. *)
Theorem unlimited_leftovers_keep_every_token tbs msl pad side prof self0
    calls self :
  __init__ tbs msl pad side None prof = Ok self0 →
  successful_calls self0 calls = Some self →
  n_packed_tokens self + total_bin_sizes (_leftover_bins self)
  = n_total_tokens self.
Proof.
  intros Hinit Hrun. apply init_fresh in Hinit as [-> _].
  assert (∀ cs s s',
            max_leftover_bins_to_keep s = None →
            n_packed_tokens s + total_bin_sizes (_leftover_bins s)
            = n_total_tokens s →
            successful_calls s cs = Some s' →
            n_packed_tokens s' + total_bin_sizes (_leftover_bins s')
            = n_total_tokens s') as Hgen.
  { induction cs as [|c cs IH]; intros s s' Hkeep Heq; simpl.
    - by intros [= <-].
    - destruct (do_call s c) as [[[]|e] s1] eqn:E; [|done].
      destruct (do_call_ok_state _ _ _ E)
        as (sizes&?&packed&np&left&bins'&_&He&Hcfg&Hp&Ht&_&Hleft).
      apply IH.
      + destruct Hcfg as (_&_&_&_&->&_). done.
      + rewrite Hleft, Hkeep, Hp, Ht. simpl.
        apply engine_ok, assemble_ok in He as (_ & Hsum & [= _ -> ->]).
        rewrite <- Hsum.
        pose proof (total_app (slice_to (out_size s) (sorted_desc bins'))
                      (slice_from (out_size s) (sorted_desc bins'))) as Hsp.
        rewrite slice_to_from, total_sorted_desc in Hsp. lia. }
  by apply (Hgen calls (fresh tbs msl pad side None prof) self).
Qed.

Lemma unlimited_leftovers_keep_every_token_witness :
  ∃ self,
    successful_calls (fresh 1 4 0 "left" None true)
      [call_pack_trimmed [∅; ∅; ∅] [3; 2; 4]] = Some self ∧
    n_packed_tokens self + total_bin_sizes (_leftover_bins self)
    = n_total_tokens self.
Proof.
  eexists. split; [vm_compute; reflexivity|].
  exact (unlimited_leftovers_keep_every_token 1 4 0 "left" true _
           [call_pack_trimmed [∅; ∅; ∅] [3; 2; 4]] _ eq_refl eq_refl).
Defined.

(** ** Trimming *)

Lemma fmap_seq_lookup {A B} (f : A → B) (d : A) (l : list A) :
  map (fun i => f (default d (l !! i))) (seq 0 (length l)) = f <$> l.
Proof.
  assert (∀ pre,
            map (fun i => f (default d ((pre ++ l) !! i)))
              (seq (length pre) (length l)) = f <$> l) as H.
  { induction l as [|x l IH]; intros pre; simpl; [done|]. f_equal.
    - by rewrite list_lookup_middle.
    - specialize (IH (pre ++ [x])).
      rewrite length_app, <- app_assoc in IH. simpl in IH.
      by rewrite Nat.add_1_r in IH. }
  exact (H []).
Qed.

(** What [_extract_trim_batch_idx] returns, when it returns: the size is
    the number of attended positions of row [idx] of the mask; the
    example has the fields of the batch and [sequence_id], each of that
    many values; and [sequence_id] is all zeros, whatever the batch held
    under that name. *)
Lemma extract_trim_spec (b : batch) idx size ex :
  _extract_trim_batch_idx b idx = Ok (size, ex) →
  (∀ mask, b !! "attention_mask" = Some mask →
     size = attended (default [] (mask !! idx))) ∧
  wf_example ({["sequence_id"]} ∪ dom b) size ex ∧
  ex !! "sequence_id" = Some (replicate (Z.to_nat size) 0).
Proof.
  unfold _extract_trim_batch_idx.
  case_bool_decide as Hrows; [|done]. rewrite lookup_fmap.
  destruct (b !! "attention_mask") as [mask|] eqn:Hmask; [|done]. simpl.
  set (mask_row := default [] (mask !! idx)).
  set (keep := map (fun x => bool_decide (x = 1)) mask_row).
  case_bool_decide as Hshape; [|done]. rewrite lookup_fmap.
  destruct (_ !! "input_ids") as [row|] eqn:Hrow; [|done]. simpl.
  intros [= <- <-].
  pose proof (attended_keep mask_row) as Hatt. fold keep in Hatt.
  assert (∀ k v, ((fun v : list (list Z) => default [] (v !! idx)) <$> b)
                   !! k = Some v →
            len (mask_select keep v) = attended mask_row) as Hlen.
  { intros k v Hv. unfold len.
    rewrite length_mask_select by by apply (Hshape k v). exact Hatt. }
  pose proof (Hlen "input_ids" row Hrow) as Hids.
  rewrite !Hatt. clear Hatt.
  split; [by intros ? [= <-]|]. split; [split|].
  - by rewrite dom_insert_L, !dom_fmap_L.
  - apply map_Forall_insert_2.
    + rewrite <- Hids. unfold len. by rewrite length_replicate.
    + intros k t. rewrite lookup_fmap.
      destruct (_ !! k) as [v|] eqn:Hv; [|done]. simpl. intros [= <-].
      by apply (Hlen k v).
  - rewrite lookup_insert_eq. do 2 f_equal.
    rewrite <- Hids. unfold len. lia.
Qed.

Lemma trim_batch_attended (b : batch) sizes trimmed :
  _trim_batch b = Ok (sizes, trimmed) →
  ∃ mask,
    b !! "attention_mask" = Some mask ∧
    sizes = attended <$> mask ∧
    length trimmed = length mask.
Proof.
  unfold _trim_batch.
  destruct (b !! "attention_mask") as [mask|] eqn:Hmask; [|done].
  destruct (mapM _ _) as [res|e] eqn:E; [|done]. simpl. intros [= <- <-].
  apply mapM_Ok in E. exists mask. split; [done|].
  split; [|by rewrite length_fmap, <- (Forall2_length _ _ _ E), length_seq].
  rewrite <- (fmap_seq_lookup attended [] mask).
  induction E as [|idx [size ex] idxs res H _ IH]; [done|].
  simpl. f_equal; [|done].
  destruct (extract_trim_spec _ _ _ _ H) as (Hs & _ & _). by apply Hs.
Qed.

(** The sizes [_trim_batch] returns are the numbers of attended
    positions: whenever it returns, it returns one size and one example
    per row of the attention mask, and each size is the number of
    entries of that row that equal 1. *)
Theorem trim_batch_sizes (b : batch) sizes trimmed :
  _trim_batch b = Ok (sizes, trimmed) →
  ∃ mask,
    b !! "attention_mask" = Some mask ∧
    sizes = attended <$> mask ∧
    length trimmed = length mask.
Proof. apply trim_batch_attended. Qed.

Lemma trim_batch_sizes_witness :
  ∃ mask,
    batch_of_two_rows !! "attention_mask" = Some mask ∧
    [2; 3] = attended <$> mask.
Proof.
  assert (∃ trimmed, _trim_batch batch_of_two_rows = Ok ([2; 3], trimmed))
    as [trimmed E] by (eexists; reflexivity).
  destruct (trim_batch_sizes _ _ _ E) as (mask & Hm & Hs & _).
  exists mask. split; [exact Hm|exact Hs].
Defined.

(** The examples [_trim_batch] returns are well formed: whenever it
    returns, each example has the fields of the batch and [sequence_id],
    every field holds exactly as many values as the size returned for
    the row, and [sequence_id] is all zeros (a [sequence_id] of the batch
    is overwritten). *)
Theorem trim_batch_examples (b : batch) sizes trimmed :
  _trim_batch b = Ok (sizes, trimmed) →
  Forall2 (fun size ex =>
             dom ex = {["sequence_id"]} ∪ dom b ∧
             map_Forall (fun _ v => len v = size) ex ∧
             ex !! "sequence_id" = Some (replicate (Z.to_nat size) 0))
    sizes trimmed.
Proof.
  unfold _trim_batch.
  destruct (b !! "attention_mask") as [mask|] eqn:Hmask; [|done].
  destruct (mapM _ _) as [res|e] eqn:E; [|done]. simpl. intros [= <- <-].
  apply mapM_Ok in E.
  induction E as [|idx [size ex] idxs res H _ IH]; simpl; constructor;
    [|done].
  by destruct (extract_trim_spec _ _ _ _ H) as (_ & [? ?] & ?).
Qed.

Lemma trim_batch_examples_witness :
  ∃ trimmed,
    _trim_batch batch_of_two_rows = Ok ([2; 3], trimmed) ∧
    Forall2 (fun size ex =>
               ex !! "sequence_id" = Some (replicate (Z.to_nat size) 0))
      [2; 3] trimmed.
Proof.
  assert (∃ trimmed, _trim_batch batch_of_two_rows = Ok ([2; 3], trimmed))
    as [trimmed E] by (eexists; reflexivity).
  exists trimmed. split; [exact E|].
  eapply Forall2_impl; [exact (trim_batch_examples _ _ _ E)|].
  intros size ex (_ & _ & H). exact H.
Defined.

(** ** Trimming and padding back *)





(** ** Efficiency *)

Lemma total_le_len {A} (mx : Z) (l : list (Z * A)) :
  Forall (fun b => b.1 <= mx) l → total_bin_sizes l <= len l * mx.
Proof.
  induction 1 as [|b l Hb _ IH]; [change (0 <= 0 * mx); lia|].
  rewrite total_cons, len_cons. lia.
Qed.

Lemma ratio_bounds (p d : Z) :
  0 <= p <= d → 0 < d → (0 <= inject_Z p / inject_Z d <= 1)%Q.
Proof.
  intros [Hp Hle] Hd. destruct d as [|d|d]; [lia| |lia].
  unfold Qle, Qdiv, Qmult, Qinv, inject_Z. simpl. split; nia.
Qed.

Lemma fits_merge (mx a b : Z) :
  0 <= a <= mx → 0 <= b <= mx → a + b <= mx → 0 <= a + b <= mx.
Proof. lia. Qed.

(** A call that returns keeps the packed tokens within the capacity of
    the rows counted as packed, and the leftover bins within the capacity
    of a row. *)
Lemma do_call_filled self c self' :
  0 <= out_size self → 0 <= max_seq_len self →
  sizes_within (max_seq_len self) c →
  do_call self c = (Ok (), self') →
  0 <= n_packed_tokens self <= max_seq_len self * n_packed_examples self →
  Forall (fun b => 0 <= b.1 <= max_seq_len self) (_leftover_bins self) →
  0 <= n_packed_tokens self'
    <= max_seq_len self' * n_packed_examples self' ∧
  Forall (fun b => 0 <= b.1 <= max_seq_len self') (_leftover_bins self').
Proof.
  intros Hout Hmx Hc E Hp Hl.
  destruct (do_call_ok_state _ _ _ E)
    as (sizes & trimmed & packed & np & left & bins'
        & Hsz & He & Hcfg & Hnp & _ & Hne & Hleft).
  assert (Forall (fun s => 0 <= s <= max_seq_len self) sizes) as Hsizes.
  { destruct c as [b|t s]; simpl in *.
    - destruct (trim_batch_attended _ _ _ Hsz) as (mask & Hm & -> & _).
      apply Forall_fmap. eapply Forall_impl; [exact (Hc mask Hm)|].
      simpl. intros row Hrow. split; [apply len_nonneg|done].
    - by destruct Hsz as [-> _]. }
  pose proof (engine_sizes (max_seq_len self)
                (fun s => 0 <= s <= max_seq_len self)
                (fits_merge _) (_is_profiling self) sizes trimmed
                (out_size self) (_leftover_bins self) Hsizes Hl) as Hb.
  rewrite He in Hb. simpl in Hb.
  apply engine_ok, assemble_ok in He as (_ & _ & [= -> -> ->]).
  apply (Forall_sorted_desc
           (fun b : bin => 0 <= b.1 <= max_seq_len self)) in Hb.
  set (sorted_bins := sorted_desc bins') in *.
  destruct Hcfg as (_ & Hm & _). rewrite Hm, Hnp, Hne, Hleft. split.
  - assert (Forall (fun b : bin => 0 <= b.1 <= max_seq_len self)
              (slice_to (out_size self) sorted_bins)) as Hsel
      by by apply Forall_take.
    pose proof (total_nonneg _ (Forall_impl _ _ _ Hsel
                                  (fun b H => proj1 H))) as H0.
    pose proof (total_le_len (max_seq_len self) _
                  (Forall_impl _ _ _ Hsel (fun b H => proj2 H))) as H1.
    pose proof (len_slice_to_le (out_size self) sorted_bins Hout) as H2.
    pose proof (len_nonneg (slice_to (out_size self) sorted_bins)) as H3.
    nia.
  - assert (Forall (fun b : bin => 0 <= b.1 <= max_seq_len self)
              (slice_from (out_size self) sorted_bins)) as Hrest
      by by apply Forall_drop.
    destruct (max_leftover_bins_to_keep self); simpl; [|done].
    by apply Forall_take.
Qed.

Lemma successful_calls_filled calls : ∀ self self',
  0 <= out_size self → 0 <= max_seq_len self →
  Forall (sizes_within (max_seq_len self)) calls →
  0 <= n_packed_tokens self <= max_seq_len self * n_packed_examples self →
  Forall (fun b => 0 <= b.1 <= max_seq_len self) (_leftover_bins self) →
  successful_calls self calls = Some self' →
  0 <= n_packed_tokens self'
    <= max_seq_len self' * n_packed_examples self'.
Proof.
  induction calls as [|c cs IH]; intros self self' Hout Hmx Hcs Hp Hl; simpl.
  - by intros [= <-].
  - apply Forall_cons in Hcs as [Hc Hcs].
    destruct (do_call self c) as [[[]|e] self1] eqn:E; [|done].
    destruct (do_call_filled _ _ _ Hout Hmx Hc E Hp Hl) as [Hp1 Hl1].
    destruct (do_call_ok_state _ _ _ E)
      as (?&?&?&?&?&?&_&_&(Ho & Hm & _)&_).
    rewrite Hm in Hp1, Hl1. apply IH; rewrite ?Ho, ?Hm; done.
Qed.

(** Efficiency is a fraction.  On a collator as [__init__] made it, after
    at least one packing call, all calls having returned and no example
    passed having more than [max_seq_len] tokens, the tokens counted as
    packed fit the rows counted as packed,
    [n_packed_tokens <= max_seq_len * n_packed_examples], so [efficiency]
    is defined and lies between 0 and 1. *)
Theorem efficiency_bounded tbs msl pad side keep prof self0 calls self :
  __init__ tbs msl pad side keep prof = Ok self0 →
  Forall (sizes_within msl) calls →
  calls ≠ [] →
  successful_calls self0 calls = Some self →
  0 <= n_packed_tokens self <= max_seq_len self * n_packed_examples self ∧
  ∃ e, efficiency self = Ok e ∧ (0 <= e <= 1)%Q.
Proof.
  intros Hinit Hcs Hne Hrun.
  apply init_fresh in Hinit as (-> & Htbs & Hmsl & _).
  assert (0 <= n_packed_tokens self
          <= max_seq_len self * n_packed_examples self) as Hp.
  { apply (successful_calls_filled calls
             (fresh tbs msl pad side keep prof) self);
      simpl; [lia|lia|done|lia|constructor|done]. }
  destruct (successful_calls_count _ _ _ Hrun) as [(_ & Hm & _) Hn].
  simpl in Hm, Hn.
  assert (1 <= len calls) as Hlen.
  { destruct calls; [done|]. rewrite len_cons.
    pose proof (len_nonneg calls). lia. }
  split; [done|]. unfold efficiency.
  remember (max_seq_len self * n_packed_examples self) as d eqn:Hd.
  assert (0 < d) as Hpos by (subst d; rewrite Hm, Hn; nia).
  destruct (Z.eqb_spec d 0); [lia|].
  eexists. split; [reflexivity|]. by apply ratio_bounds.
Qed.

Lemma efficiency_bounded_witness :
  ∃ self,
    successful_calls (fresh 1 4 0 "left" None true)
      [call_pack_trimmed [∅; ∅] [3; 2]; call_pack_trimmed [∅] [1]]
    = Some self ∧
    0 <= n_packed_tokens self <= max_seq_len self * n_packed_examples self.
Proof.
  eexists. split; [vm_compute; reflexivity|].
  refine (proj1 (efficiency_bounded 1 4 0 "left" None true _
                   [call_pack_trimmed [∅; ∅] [3; 2];
                    call_pack_trimmed [∅] [1]] _ eq_refl _ _ eq_refl)).
  - repeat constructor; lia.
  - discriminate.
Defined.

(** ** Profiling a packing ratio *)

Lemma init_valid tbs msl pad side keep prof :
  1 <= tbs → 1 <= msl → 0 <= pad →
  (∀ k, keep = Some k → 0 <= k) →
  __init__ tbs msl pad side keep prof
  = Ok (fresh tbs msl pad side keep prof).
Proof.
  intros Htbs Hmsl Hpad Hkeep. unfold __init__.
  destruct (Z.leb_spec tbs 0); [lia|].
  destruct (Z.leb_spec msl 0); [lia|].
  destruct (Z.ltb_spec pad 0); [lia|].
  destruct keep as [k|]; [|done].
  specialize (Hkeep k eq_refl). by destruct (Z.ltb_spec k 0); [lia|].
Qed.

Lemma length_slice {A} (a b : Z) (l : list A) :
  length (slice a b l)
  = (slice_index (length l) b - slice_index (length l) a)%nat.
Proof.
  unfold slice. rewrite length_drop, length_take.
  pose proof (slice_index_le (length l) b). lia.
Qed.

Lemma len_slice {A} (idx step : Z) (l : list A) :
  0 <= idx → 0 < step →
  len (slice idx (idx + step) l)
  = Z.min (idx + step) (len l) - Z.min idx (len l).
Proof.
  intros Hidx Hstep. unfold len. rewrite length_slice. unfold slice_index.
  destruct (Z.ltb_spec (idx + step) 0); [lia|].
  destruct (Z.ltb_spec idx 0); lia.
Qed.

Lemma Forall_slice {A} (P : A → Prop) (a b : Z) (l : list A) :
  Forall P l → Forall P (slice a b l).
Proof. intros H. unfold slice. by apply Forall_drop, Forall_take. Qed.

Lemma range_step_nonneg stop step idxs :
  range_step stop step = Ok idxs → Forall (fun idx => 0 <= idx) idxs.
Proof.
  unfold range_step. destruct (Z.eqb_spec step 0); [done|].
  destruct (Z.ltb_spec step 0); intros [= <-]; [constructor|].
  apply Forall_forall. intros idx (i & -> & _)%list_elem_of_fmap. nia.
Qed.

Lemma range_step_pos stop step :
  0 < step →
  range_step stop step
  = Ok (if decide (0 < stop)
        then 0 :: map (fun i => Z.of_nat i * step)
                    (seq 1 (Z.to_nat ((stop + step - 1) / step) - 1))
        else []).
Proof.
  intros Hstep. unfold range_step.
  destruct (Z.eqb_spec step 0); [lia|]. destruct (Z.ltb_spec step 0); [lia|].
  f_equal. case_decide as Hstop.
  - assert (1 <= (stop + step - 1) / step) as Hn
      by (apply Z.div_le_lower_bound; lia).
    destruct (Z.to_nat ((stop + step - 1) / step)) as [|m] eqn:E; [lia|].
    simpl. by rewrite Nat.sub_0_r.
  - assert ((stop + step - 1) / step <= 0) as Hn.
    { assert ((stop + step - 1) / step < 1); [|lia].
      apply Z.div_lt_upper_bound; lia. }
    by replace (Z.to_nat ((stop + step - 1) / step)) with 0%nat by lia.
Qed.

(** The loop of [profile] is the sequence of the calls it makes. *)
Lemma feed_ok dbs rbs trimmed sizes idxs : ∀ packer packer',
  feed packer dbs rbs trimmed sizes idxs = Ok packer' ↔
  successful_calls packer (fed_calls dbs rbs trimmed sizes idxs)
  = Some packer'.
Proof.
  unfold fed_calls.
  induction idxs as [|idx rest IH]; intros packer packer'; simpl.
  { split; by intros [= <-]. }
  rewrite filter_cons.
  destruct (Z.ltb_spec (len (slice idx (idx + rbs) trimmed)) dbs).
  - rewrite decide_False by lia. apply IH.
  - rewrite decide_True by lia. simpl.
    destruct (_pack_trimmed_examples _ _ _) as [[r|e] packer1]; simpl;
      [apply IH|done].
Qed.

Lemma fed_calls_nil dbs rbs trimmed sizes idxs :
  0 < rbs → Forall (fun idx => 0 <= idx) idxs →
  len trimmed < dbs ∨ rbs < dbs →
  fed_calls dbs rbs trimmed sizes idxs = [].
Proof.
  intros Hrbs Hidxs Hsmall. unfold fed_calls.
  induction Hidxs as [|idx rest Hidx _ IH]; [done|].
  rewrite filter_cons, decide_False; [done|].
  rewrite len_slice by done. pose proof (len_nonneg trimmed). lia.
Qed.

Lemma fed_calls_first dbs rbs trimmed sizes rest :
  0 < rbs → dbs <= rbs → dbs <= len trimmed →
  fed_calls dbs rbs trimmed sizes (0 :: rest) ≠ [].
Proof.
  intros Hrbs Hle Hn. unfold fed_calls.
  rewrite filter_cons, decide_True; [done|].
  rewrite len_slice by lia. pose proof (len_nonneg trimmed). lia.
Qed.

(** Every call of the loop passes as many sizes as examples, at least
    [device_batch_size] and at most [raw_batch_size] of them, all taken
    from [sizes]. *)
Lemma fed_calls_chunks (P : Z → Prop) dbs rbs trimmed sizes idxs :
  0 < rbs → length trimmed = length sizes →
  Forall (fun idx => 0 <= idx) idxs → Forall P sizes →
  Forall (fun c =>
            match c with
            | call_pack_trimmed t s =>
                length s = length t ∧ dbs <= len s <= rbs ∧ Forall P s
            | call_pack _ => False
            end)
    (fed_calls dbs rbs trimmed sizes idxs).
Proof.
  intros Hrbs Hlen Hidxs HP. unfold fed_calls.
  induction Hidxs as [|idx rest Hidx _ IH]; [constructor|].
  rewrite filter_cons. case_decide as Hbig; [|done]. simpl.
  constructor; [|done].
  assert (len (slice idx (idx + rbs) sizes)
          = len (slice idx (idx + rbs) trimmed)) as Heq
    by (unfold len; by rewrite !length_slice, Hlen).
  split; [unfold len in Heq; lia|]. split; [|by apply Forall_slice].
  rewrite Heq. split; [done|].
  rewrite len_slice by done. pose proof (len_nonneg trimmed). lia.
Qed.

(** In profiling mode a call that passes an example for every size
    returns. *)
Lemma profiling_calls_return calls : ∀ self,
  _is_profiling self = true →
  Forall (fun c =>
            match c with
            | call_pack_trimmed t s => (length s ≤ length t)%nat
            | call_pack _ => False
            end) calls →
  ∃ self', successful_calls self calls = Some self'.
Proof.
  induction calls as [|c cs IH]; intros self Hprof Hcs; simpl; [eauto|].
  apply Forall_cons in Hcs as [Hc Hcs]. destruct c as [b|t s]; [done|].
  simpl. unfold _pack_trimmed_examples. rewrite Hprof.
  destruct (engine_profiling_returns s t (out_size self) (max_seq_len self)
              (_leftover_bins self) Hc) as ([[[packed np] nt] left] & bins' & ->).
  simpl. by apply IH.
Qed.

(** Calls that pass exactly [out_size] examples each leave nothing over
    and count every token received as packed. *)
Lemma exact_batches calls : ∀ self self',
  _leftover_bins self = [] →
  Forall (fun c =>
            match c with
            | call_pack_trimmed t s =>
                length s = length t ∧ len s = out_size self
            | call_pack _ => False
            end) calls →
  successful_calls self calls = Some self' →
  _leftover_bins self' = [] ∧
  n_packed_tokens self' - n_packed_tokens self
  = n_total_tokens self' - n_total_tokens self.
Proof.
  induction calls as [|c cs IH]; intros self self' Hleft Hcs; simpl.
  { intros [= <-]. split; [done|lia]. }
  apply Forall_cons in Hcs as [Hc Hcs].
  destruct (do_call self c) as [[[]|e] self1] eqn:E; [|done].
  destruct (do_call_ok_state _ _ _ E)
    as (sizes & trimmed & packed & np & left & bins'
        & Hsz & He & (Ho & _) & Hnp & Hnt & _ & Hl1).
  destruct c as [b|t s]; [done|]. destruct Hsz as [-> ->].
  destruct Hc as [Hlen Hexact]. rewrite Hleft in He.
  rewrite engine_reserved in He by (done || (rewrite len_nil; lia)).
  injection He as _ <- <- _. intros Hrest.
  destruct (IH self1 self') as [Hl' Heq]; [|by rewrite Ho|done|].
  { rewrite Hl1. destruct (max_leftover_bins_to_keep self); [|done].
    apply take_nil. }
  split; [done|]. rewrite Hnp, Hnt in Heq. rewrite total_nil in *. lia.
Qed.

Lemma sum_ge_len (l : list Z) : Forall (fun s => 1 <= s) l → len l <= sum l.
Proof.
  induction 1 as [|s l Hs _ IH]; [done|].
  rewrite len_cons. change (sum (s :: l)) with (s + sum l). lia.
Qed.

(** Calls that pass at least [out_size] examples of at least one token
    each receive at least one token for each example counted as packed. *)
Lemma received_tokens calls : ∀ self self',
  Forall (fun c =>
            match c with
            | call_pack_trimmed t s =>
                out_size self <= len s ∧ Forall (fun x => 1 <= x) s
            | call_pack _ => False
            end) calls →
  successful_calls self calls = Some self' →
  n_total_tokens self + out_size self * len calls <= n_total_tokens self'.
Proof.
  induction calls as [|c cs IH]; intros self self' Hcs; simpl.
  { intros [= <-]. rewrite len_nil. lia. }
  apply Forall_cons in Hcs as [Hc Hcs].
  destruct (do_call self c) as [[[]|e] self1] eqn:E; [|done].
  destruct (do_call_ok_state _ _ _ E)
    as (sizes & trimmed & packed & np & left & bins'
        & Hsz & _ & (Ho & _) & _ & Hnt & _).
  destruct c as [b|t s]; [done|]. destruct Hsz as [-> ->].
  destruct Hc as [Hbig Hpos]. intros Hrest.
  specialize (IH self1 self'). rewrite Ho in IH.
  specialize (IH Hcs Hrest). apply sum_ge_len in Hpos.
  rewrite len_cons. lia.
Qed.

Lemma profile_feed dbs msl keep sizes trimmed rbs idxs :
  1 <= dbs → 1 <= msl → (∀ k, keep = Some k → 0 <= k) →
  range_step (len trimmed) rbs = Ok idxs →
  profile dbs msl keep sizes trimmed rbs
  = (packer ← feed (fresh dbs msl 0 "left" keep true) dbs rbs trimmed sizes
                idxs ;
     if n_packed_examples packer =? 0 then Ok (None, None)
     else
       e ← efficiency packer ;
       w ← waste packer ;
       Ok (Some (100 * (1 - e))%Q, Some (100 * w)%Q)).
Proof.
  intros Hdbs Hmsl Hkeep Hr. unfold profile.
  rewrite init_valid by (done || lia). simpl. by rewrite Hr.
Qed.

Lemma range_step_neg stop step : step < 0 → range_step stop step = Ok [].
Proof.
  intros H. unfold range_step.
  destruct (Z.eqb_spec step 0); [lia|]. by destruct (Z.ltb_spec step 0); [|lia].
Qed.

(** When [profile] has nothing to report.  With arguments the collator
    accepts and a step other than 0, [profile] returns [(None, None)]
    exactly when there are fewer examples than [device_batch_size] or
    [raw_batch_size] is less than [device_batch_size]. *)
Theorem profile_none_iff dbs msl keep sizes trimmed rbs :
  1 <= dbs → 1 <= msl → (∀ k, keep = Some k → 0 <= k) → rbs ≠ 0 →
  profile dbs msl keep sizes trimmed rbs = Ok (None, None)
  ↔ len trimmed < dbs ∨ rbs < dbs.
Proof.
  intros Hdbs Hmsl Hkeep Hrbs.
  destruct (Z.lt_trichotomy rbs 0) as [Hneg|[?|Hpos]]; [|done|].
  { rewrite (profile_feed _ _ _ _ _ _ [])
      by (done || by apply range_step_neg).
    simpl. split; [intros _; right; lia|done]. }
  pose proof (range_step_pos (len trimmed) rbs Hpos) as Hr.
  pose proof (range_step_nonneg _ _ _ Hr) as Hnn.
  rewrite (profile_feed _ _ _ _ _ _ _ Hdbs Hmsl Hkeep Hr). split.
  - intros Hnone.
    destruct (feed _ _ _ _ _ _) as [p|e] eqn:F; [|done]. simpl in Hnone.
    destruct (Z.eqb_spec (n_packed_examples p) 0) as [Hz|Hnz].
    2:{ destruct (efficiency p); [|done]. simpl in Hnone.
        by destruct (waste p). }
    apply feed_ok in F.
    destruct (successful_calls_count _ _ _ F) as [_ Hn]. simpl in Hn.
    destruct (decide (len trimmed < dbs ∨ rbs < dbs)) as [|Hbig]; [done|].
    exfalso. rewrite decide_True in Hn by lia.
    pose proof (fed_calls_first dbs rbs trimmed sizes
                  (map (fun i => Z.of_nat i * rbs)
                     (seq 1 (Z.to_nat ((len trimmed + rbs - 1) / rbs) - 1)))
                  Hpos ltac:(lia) ltac:(lia)) as Hne.
    match type of Hne with ?calls ≠ [] => destruct calls as [|c cs] end;
      [done|].
    rewrite len_cons in Hn. pose proof (len_nonneg cs). nia.
  - intros Hsmall.
    assert (feed (fresh dbs msl 0 "left" keep true) dbs rbs trimmed sizes
              (if decide (0 < len trimmed)
               then 0 :: map (fun i => Z.of_nat i * rbs)
                           (seq 1 (Z.to_nat ((len trimmed + rbs - 1) / rbs)
                                   - 1))
               else [])
            = Ok (fresh dbs msl 0 "left" keep true)) as ->; [|done].
    apply feed_ok. by rewrite fed_calls_nil.
Qed.

Lemma profile_none_iff_witness :
  profile 2 4 None [3; 2; 1] [∅; ∅; ∅] 1 = Ok (None, None).
Proof.
  assert (∀ k : Z, (None : option Z) = Some k → 0 <= k) as Hkeep
    by discriminate.
  refine (proj2 (profile_none_iff 2 4 None [3; 2; 1] [∅; ∅; ∅] 1
                   _ _ Hkeep _) _).
  - lia.
  - lia.
  - lia.
  - right. lia.
Defined.

(** Packing ratio 1 wastes nothing.  With [raw_batch_size] equal to
    [device_batch_size], at least that many examples and every example of
    at least one token, [profile] returns statistics, and the waste it
    reports is 0: each chunk fills the batch with one example per row and
    leaves no bin over, whatever the sizes of the examples and whatever
    the limit on leftover bins. *)
Theorem profile_ratio_one_no_waste dbs msl keep sizes trimmed :
  1 <= dbs → 1 <= msl → (∀ k, keep = Some k → 0 <= k) →
  length trimmed = length sizes → dbs <= len trimmed →
  Forall (fun s => 1 <= s) sizes →
  ∃ padding waste,
    profile dbs msl keep sizes trimmed dbs = Ok (Some padding, Some waste) ∧
    (waste == 0)%Q.
Proof.
  intros Hdbs Hmsl Hkeep Hlen Hn Hsizes.
  pose proof (range_step_pos (len trimmed) dbs ltac:(lia)) as Hr.
  pose proof (range_step_nonneg _ _ _ Hr) as Hnn.
  rewrite (profile_feed _ _ _ _ _ _ _ Hdbs Hmsl Hkeep Hr).
  rewrite decide_True in * by lia.
  set (idxs := 0 :: _) in *.
  pose proof (fed_calls_chunks (fun s => 1 <= s) dbs dbs trimmed sizes idxs
                ltac:(lia) Hlen Hnn Hsizes) as Hch.
  pose proof (fed_calls_first dbs dbs trimmed sizes
                (map (fun i => Z.of_nat i * dbs)
                   (seq 1 (Z.to_nat ((len trimmed + dbs - 1) / dbs) - 1)))
                ltac:(lia) ltac:(lia) Hn) as Hne.
  fold idxs in Hne.
  set (calls := fed_calls dbs dbs trimmed sizes idxs) in *.
  destruct (profiling_calls_return calls (fresh dbs msl 0 "left" keep true)
              eq_refl) as [p Hp].
  { eapply Forall_impl; [exact Hch|]. intros [b|t s]; [done|]. lia. }
  destruct (exact_batches calls (fresh dbs msl 0 "left" keep true) p)
    as [_ Heq]; [done| |done|].
  { eapply Forall_impl; [exact Hch|]. intros [b|t s]; [done|]. simpl. lia. }
  pose proof (received_tokens calls (fresh dbs msl 0 "left" keep true) p)
    as Hrec.
  specialize (Hrec ltac:(eapply Forall_impl; [exact Hch|];
                         intros [b|t s]; [done|]; simpl; tauto) Hp).
  destruct (successful_calls_count _ _ _ Hp) as [(_ & Hm & _) Hcount].
  simpl in Heq, Hrec, Hcount, Hm.
  assert (1 <= len calls) as Hcalls.
  { destruct calls as [|c cs]; [done|]. rewrite len_cons.
    pose proof (len_nonneg cs). lia. }
  apply feed_ok in Hp. fold calls in Hp. unfold calls in Hp. rewrite Hp.
  simpl.
  destruct (Z.eqb_spec (n_packed_examples p) 0); [nia|].
  unfold efficiency.
  destruct (Z.eqb_spec (max_seq_len p * n_packed_examples p) 0); [nia|].
  simpl. unfold waste.
  destruct (Z.eqb_spec (n_total_tokens p) 0); [nia|]. simpl.
  eexists _, _. split; [reflexivity|].
  replace (n_packed_tokens p) with (n_total_tokens p) by lia.
  assert (¬ (inject_Z (n_total_tokens p) == 0)%Q) as Hnz
    by (unfold Qeq; simpl; lia).
  unfold Qdiv. rewrite (Qmult_inv_r _ Hnz). reflexivity.
Qed.

Lemma profile_ratio_one_no_waste_witness :
  ∃ padding waste,
    profile 2 4 None [3; 2; 1] [∅; ∅; ∅] 2 = Ok (Some padding, Some waste) ∧
    (waste == 0)%Q.
Proof.
  assert (∀ k : Z, (None : option Z) = Some k → 0 <= k) as Hkeep
    by discriminate.
  refine (profile_ratio_one_no_waste 2 4 None [3; 2; 1] [∅; ∅; ∅]
            _ _ Hkeep eq_refl _ _).
  - lia.
  - lia.
  - vm_compute. discriminate.
  - repeat constructor; lia.
Defined.

(** [profile] always reports percentages.  With arguments the collator
    accepts, a step other than 0, a size for every example and every size
    between 1 and [max_seq_len], [profile] never raises: it returns
    [(None, None)], or a padding and a waste that both lie between 0 and
    100. *)
Theorem profile_percentages dbs msl keep sizes trimmed rbs :
  1 <= dbs → 1 <= msl → (∀ k, keep = Some k → 0 <= k) → rbs ≠ 0 →
  length trimmed = length sizes →
  Forall (fun s => 1 <= s <= msl) sizes →
  profile dbs msl keep sizes trimmed rbs = Ok (None, None) ∨
  ∃ padding waste,
    profile dbs msl keep sizes trimmed rbs = Ok (Some padding, Some waste) ∧
    (0 <= padding <= 100)%Q ∧ (0 <= waste <= 100)%Q.
Proof.
  intros Hdbs Hmsl Hkeep Hrbs Hlen Hsizes.
  destruct (Z.lt_trichotomy rbs 0) as [Hneg|[?|Hpos]]; [|done|].
  { left. by rewrite (profile_feed _ _ _ _ _ _ [])
      by (done || by apply range_step_neg). }
  pose proof (range_step_pos (len trimmed) rbs Hpos) as Hr.
  pose proof (range_step_nonneg _ _ _ Hr) as Hnn.
  rewrite (profile_feed _ _ _ _ _ _ _ Hdbs Hmsl Hkeep Hr).
  set (idxs := if decide (0 < len trimmed) then _ else _) in *.
  pose proof (fed_calls_chunks (fun s => 1 <= s <= msl) dbs rbs trimmed sizes
                idxs Hpos Hlen Hnn Hsizes) as Hch.
  set (calls := fed_calls dbs rbs trimmed sizes idxs) in *.
  set (packer := fresh dbs msl 0 "left" keep true).
  destruct (profiling_calls_return calls packer eq_refl) as [p Hp].
  { eapply Forall_impl; [exact Hch|]. intros [b|t s]; [done|]. lia. }
  assert (accounted p) as (Hp0 & Hacc & Hleft).
  { apply (successful_calls_accounted calls packer p); [| |done].
    - apply (init_accounted dbs msl 0 "left" keep true).
      apply init_valid; (done || lia).
    - eapply Forall_impl; [exact Hch|]. intros [b|t s]; [done|]. simpl.
      intros (_ & _ & Hs). eapply Forall_impl; [exact Hs|]. simpl. lia. }
  assert (0 <= n_packed_tokens p
          <= max_seq_len p * n_packed_examples p) as Hfill.
  { apply (successful_calls_filled calls packer p); simpl;
      [lia|lia| |lia|constructor|done].
    eapply Forall_impl; [exact Hch|]. intros [b|t s]; [done|]. simpl.
    intros (_ & _ & Hs). eapply Forall_impl; [exact Hs|]. simpl. lia. }
  pose proof (received_tokens calls packer p) as Hrec.
  specialize (Hrec ltac:(eapply Forall_impl; [exact Hch|];
                         intros [b|t s]; [done|]; simpl;
                         intros (_ & ? & Hs); split; [lia|];
                         eapply Forall_impl; [exact Hs|]; simpl; lia) Hp).
  destruct (successful_calls_count _ _ _ Hp) as [(_ & Hm & _) Hcount].
  simpl in Hrec, Hcount, Hm.
  pose proof (total_nonneg _ Hleft) as Htot.
  pose proof (len_nonneg calls) as Hcalls.
  apply feed_ok in Hp. fold calls in Hp. rewrite Hp. simpl.
  destruct (Z.eqb_spec (n_packed_examples p) 0) as [|Hnz]; [by left|].
  right.
  assert (0 < n_total_tokens p) as Hnt by nia.
  destruct (waste_bounds p ltac:(lia) Hnt) as (w & -> & Hw0 & Hw1).
  unfold efficiency.
  destruct (Z.eqb_spec (max_seq_len p * n_packed_examples p) 0); [nia|].
  simpl. eexists _, _. split; [reflexivity|].
  pose proof (ratio_bounds (n_packed_tokens p)
                (max_seq_len p * n_packed_examples p) Hfill ltac:(nia))
    as [He0 He1].
  split; split; lra.
Qed.

Lemma profile_percentages_witness :
  profile 2 4 None [3; 2; 1] [∅; ∅; ∅] 3 = Ok (None, None) ∨
  ∃ padding waste,
    profile 2 4 None [3; 2; 1] [∅; ∅; ∅] 3 = Ok (Some padding, Some waste) ∧
    (0 <= padding <= 100)%Q ∧ (0 <= waste <= 100)%Q.
Proof.
  assert (∀ k : Z, (None : option Z) = Some k → 0 <= k) as Hkeep
    by discriminate.
  refine (profile_percentages 2 4 None [3; 2; 1] [∅; ∅; ∅] 3
            _ _ Hkeep _ eq_refl _).
  - lia.
  - lia.
  - lia.
  - repeat constructor; lia.
Defined.

(** ** More on the parts of the engine *)

(** The inner loop is first fit by position.  The bin it picks has room
    for the item and no bin before it in the list has; it picks none
    only when no bin of the list has room. *)
Theorem first_fit_earliest size mx (bins : list bin) :
  match first_fit size mx bins with
  | Some bidx =>
      (∃ b, bins !! bidx = Some b ∧ b.1 + size <= mx) ∧
      ∀ j b, (j < bidx)%nat → bins !! j = Some b → mx < b.1 + size
  | None => Forall (fun b => mx < b.1 + size) bins
  end.
Proof.
  induction bins as [|b bs IH]; simpl; [constructor|].
  destruct (Z.leb_spec (b.1 + size) mx) as [Hfit|Hno].
  - split; [by exists b|]. intros j b' Hj. lia.
  - destruct (first_fit size mx bs) as [i|]; simpl.
    + destruct IH as [Hi Hbefore]. split; [done|].
      intros [|j] b' Hj; simpl; [by intros [= <-]|].
      apply Hbefore. lia.
    + by constructor.
Qed.

(** Whatever [_pad_tensor] returns has the target length and holds
    nothing but values of the tensor and the pad value, on either side
    and also when the assignment broadcasts. *)
Theorem pad_tensor_length t pad mx side r :
  _pad_tensor t pad mx side = Ok r →
  len r = mx ∧ Forall (fun x => x ∈ t ∨ x = pad) r.
Proof.
  assert (Forall (fun x => x ∈ t ∨ x = pad) t) as Ht
    by (apply Forall_forall; by left).
  assert (∀ n, Forall (fun x => x ∈ t ∨ x = pad) (replicate n pad)) as Hfull
    by (intros n; apply Forall_replicate; by right).
  assert (∀ m, length t = 1%nat →
               Forall (fun x => x ∈ t ∨ x = pad) (replicate m (hd 0 t)))
    as Hcast.
  { intros m H1. apply Forall_replicate. left.
    destruct t as [|x [|]]; try done. simpl. apply list_elem_of_here. }
  unfold _pad_tensor. case_decide as Hlen; [by intros [= <-]|].
  destruct (Z.ltb_spec mx 0) as [|Hmx]; [done|]. simpl.
  set (n := Z.to_nat mx).
  pose proof (slice_index_le n (- len t)) as Hl.
  pose proof (slice_index_le n (len t)) as Hr.
  unfold slice_assign.
  repeat case_decide; try done; intros [= <-]; (split; [|
    repeat (apply Forall_app; split);
    auto using Forall_take, Forall_drop]);
    unfold len in *;
    repeat (rewrite length_app || rewrite length_take
            || rewrite length_drop || rewrite length_replicate);
    lia.
Qed.

Lemma pad_tensor_length_witness :
  len [0; 0; 7] = 3 ∧ Forall (fun x => x ∈ [7] ∨ x = 0) [0; 0; 7].
Proof.
  assert (_pad_tensor [7] 0 3 "left" = Ok [0; 0; 7]) as E by reflexivity.
  exact (pad_tensor_length [7] 0 3 "left" [0; 0; 7] E).
Defined.

(** ** Rejected and empty batches *)

(** [pack] rejects without effect.  In profiling mode [pack] raises
    [ValueError]; otherwise a batch without [attention_mask] or without
    [input_ids], or with a field beyond the four allowed, fails an
    assertion.  In each case the collator is left exactly as it was. *)
Theorem pack_rejects_without_effect self (b : batch) :
  (_is_profiling self = true →
   pack self b = (Raise (ValueError "Cannot pack in profiling mode."), self)) ∧
  (_is_profiling self = false →
   b !! "attention_mask" = None ∨ b !! "input_ids" = None ∨
   (∃ k, is_Some (b !! k) ∧ k ∉ allowed_keys) →
   pack self b = (Raise (AssertionError ""), self)).
Proof.
  unfold pack. split; [by intros ->|]. intros -> Hbad.
  case_bool_decide as Hm; [done|]. case_bool_decide as Hi; [done|].
  destruct (forallb _ _) eqn:Hk; [|done]. exfalso.
  destruct Hbad as [?|[?|(k & [v Hv] & Hnot)]]; [done|done|].
  rewrite forallb_forall in Hk. specialize (Hk k).
  apply Hnot. eapply bool_decide_eq_true_1, Hk.
  apply list_elem_of_In, list_elem_of_fmap. exists (k, v). split; [done|].
  by apply elem_of_map_to_list.
Qed.

Lemma pack_rejects_without_effect_witness :
  pack (fresh 1 4 0 "left" None false) (<["tokens" := [[1]]]> batch_of_three_tokens)
  = (Raise (AssertionError ""), fresh 1 4 0 "left" None false).
Proof.
  refine (proj2 (pack_rejects_without_effect (fresh 1 4 0 "left" None false)
                   (<["tokens" := [[1]]]> batch_of_three_tokens)) eq_refl _).
  right. right. exists "tokens". split; [by eexists|].
  eapply bool_decide_eq_false_1. vm_compute. reflexivity.
Defined.

(** A batch without rows.  On a collator in normal mode that carries no
    leftover bin, [pack] on a batch whose attention mask has no row finds
    nothing to pack: it raises [IndexError] when it looks for the fields
    of the first packed example, after [n_packed_examples] has been
    increased by the batch size; the token counters are unchanged. *)
Theorem pack_empty_batch self (b : batch) :
  _is_profiling self = false → _leftover_bins self = [] →
  b !! "attention_mask" = Some [] → is_Some (b !! "input_ids") →
  map_Forall (fun k _ => k ∈ allowed_keys) b →
  ∃ self',
    pack self b = (Raise IndexError, self') ∧
    n_packed_examples self' = n_packed_examples self + out_size self ∧
    n_packed_tokens self' = n_packed_tokens self ∧
    n_total_tokens self' = n_total_tokens self ∧
    _leftover_bins self' = [].
Proof.
  intros Hprof Hleft Hmask [ids Hids] Hkeys. unfold pack.
  rewrite Hprof, Hmask, Hids, allowed_keys_check by done.
  rewrite !bool_decide_eq_false_2 by done. simpl.
  unfold _trim_batch. rewrite Hmask. simpl.
  unfold _pack_trimmed_examples. rewrite Hprof, Hleft.
  assert (_first_fit_bin_packing false [] [] (out_size self)
            (max_seq_len self) []
          = (Ok ([], 0, 0, []), [])) as ->.
  { unfold _first_fit_bin_packing. simpl.
    assert (assemble [] (out_size self) (total_bin_sizes []) []
            = (Ok ([], 0, 0, []), [])) as ->.
    { unfold assemble, slice_to, slice_from. simpl.
      by rewrite !take_nil, drop_nil. }
    by destruct (_ <? _). }
  simpl. eexists. split; [reflexivity|]. simpl.
  repeat split; try lia.
  destruct (max_leftover_bins_to_keep self); [apply take_nil|done].
Qed.

Lemma pack_empty_batch_witness :
  ∃ self',
    pack (fresh 2 4 0 "left" None false)
      (<["input_ids" := []]> (<["attention_mask" := []]> ∅))
    = (Raise IndexError, self') ∧
    n_packed_examples self' = 2.
Proof.
  set (b := <["input_ids" := []]> (<["attention_mask" := []]> ∅) : batch).
  assert (b !! "attention_mask" = Some []) as Hmask by reflexivity.
  assert (is_Some (b !! "input_ids")) as Hids by (by eexists).
  assert (map_Forall (fun k _ => k ∈ allowed_keys) b) as Hkeys.
  { apply map_Forall_insert_2; [set_solver|].
    apply map_Forall_insert_2; [set_solver|]. apply map_Forall_empty. }
  destruct (pack_empty_batch (fresh 2 4 0 "left" None false) b
              eq_refl eq_refl Hmask Hids Hkeys)
    as (self' & E & Hn & _).
  exists self'. split; [exact E|exact Hn].
Defined.

(** ** Choosing the packing ratio *)

Lemma last_cons_default {A} (d x : A) (l : list A) :
  default d (last (x :: l)) = default x (last l).
Proof. rewrite last_cons. by destruct (last l). Qed.

(** The selection loop returns the last candidate before the first one
    with waste.  The profiling results split into a prefix of candidates
    that all report a waste that is not positive, followed by nothing or
    by a candidate that reports no waste figure or a positive one; the
    ratio selected is that of the last candidate of the prefix, or the
    initial ratio when the prefix is empty.  Candidates past the first
    one with waste are never looked at. *)
Theorem select_ratio_prefix {F : float_ops} (packing_ratio : float F)
    (profiling_results : list (float F * option (float F) * option (float F))) :
  ∃ pre post,
    profiling_results = pre ++ post ∧
    Forall (fun c => ∃ w, c.2 = Some w ∧ positive F w = false) pre ∧
    (∀ c, head post = Some c →
          c.2 = None ∨ ∃ w, c.2 = Some w ∧ positive F w = true) ∧
    select_ratio packing_ratio profiling_results
    = default packing_ratio (last (pre.*1.*1)).
Proof.
  revert packing_ratio.
  induction profiling_results as [|[[r p] w] rest IH]; intros r0.
  { exists [], []. repeat split; [constructor|done]. }
  simpl. destruct w as [w|].
  - destruct (positive F w) eqn:Hw.
    + exists [], ((r, p, Some w) :: rest).
      repeat split; [constructor|]. intros c [= <-]. right. eauto.
    + destruct (IH r) as (pre & post & -> & Hpre & Hpost & ->).
      exists ((r, p, Some w) :: pre), post.
      repeat split; [|done|].
      * constructor; [|done]. eauto.
      * simpl. by rewrite last_cons_default.
  - exists [], ((r, p, None) :: rest).
    repeat split; [constructor|]. intros c [= <-]. by left.
Qed.

(** The generators after [auto_packing_ratio], past the short-circuit
    ([max_seq_len > 100]).  A call that returns has put the generators
    back in the state it found them in.  A call that raises has not: it
    leaves them as [seed_all(0)] set them (a [max_ratio] that is not above
    1) or as [profile_packing] left them when it raised. *)
Theorem rng_state_after_auto_packing_ratio {F : float_ops}
    (env : profiling_env F) max_seq_len max_ratio (g : rng_state env) r g' :
  100 < max_seq_len →
  auto_packing_ratio env max_seq_len max_ratio g = (r, g') →
  match r with
  | Ok _ => g' = g
  | Raise e =>
      (∃ msg, e = ValueError msg ∧ g' = seed_all env 0) ∨
      ∃ mr, profile_packing env (of_int F 1) mr (seed_all env 0)
            = (Raise e, g')
  end.
Proof.
  intros Hlen. unfold auto_packing_ratio.
  destruct (Z.leb_spec max_seq_len 100); [lia|].
  destruct max_ratio as [mr|].
  - destruct (fle F mr (of_int F 1)); [intros [= <- <-]; left; eauto|].
    destruct (profile_packing env _ _ _) as [[res|e] g1] eqn:E.
    + by intros [= <- <-].
    + intros [= <- <-]. eauto.
  - destruct (profile_packing env _ _ _) as [[res|e] g1] eqn:E.
    + by intros [= <- <-].
    + intros [= <- <-]. eauto.
Qed.

Lemma rng_state_after_auto_packing_ratio_witness :
  (auto_packing_ratio (single_process [(1%Q, Some 0%Q, Some 0%Q)])
     2048 None 7).2 = 7.
Proof.
  assert (100 < 2048) as Hlen by lia.
  exact (rng_state_after_auto_packing_ratio
           (single_process [(1%Q, Some 0%Q, Some 0%Q)]) 2048 None 7
           (Ok 1%Q) 7 Hlen eq_refl).
Defined.

(** ** What the bins hold in normal mode *)

Lemma tensor_max_inv (t : tensor) m :
  tensor_max t = Ok m → t ≠ [] ∧ m = max_of t.
Proof. destruct t; [done|]. by intros [= <-]. Qed.

Lemma combine_key_success add_on k v v' :
  combine_key add_on k v = Ok v' →
  ∃ a, add_on !! k = Some a ∧ (k = "sequence_id" → v ≠ []) ∧
       v' = joined k v a.
Proof.
  unfold combine_key, joined. destruct (add_on !! k) as [a|]; [|done].
  case_decide as Hk.
  - destruct (tensor_max v) as [m|] eqn:Hm; [|done]. simpl.
    apply tensor_max_inv in Hm as [Hne ->]. intros [= <-]. eauto.
  - intros [= <-]. exists a. by repeat split.
Qed.

Lemma combine_keys_success add_on keys : ∀ (cur r : example),
  NoDup keys → combine_keys keys cur add_on = Ok r →
  (∀ k v, k ∈ keys → cur !! k = Some v →
     ∃ a, add_on !! k = Some a ∧ (k = "sequence_id" → v ≠ []) ∧
          r !! k = Some (joined k v a)) ∧
  (∀ k, k ∉ keys → r !! k = cur !! k).
Proof.
  induction keys as [|k ks IH]; intros cur r Hnd; simpl.
  { intros [= <-]. split; [|done]. intros k v Hk. by apply elem_of_nil in Hk. }
  apply NoDup_cons in Hnd as [Hk Hnd].
  destruct (cur !! k) as [v|] eqn:Hv; [|done].
  destruct (combine_key add_on k v) as [v'|] eqn:Hc; [|done]. simpl.
  apply combine_key_success in Hc as (a & Ha & Hne & ->).
  intros Hr. destruct (IH _ _ Hnd Hr) as [Hin Hout]. split.
  - intros k' w Hk' Hw. apply elem_of_cons in Hk' as [->|Hk'].
    + rewrite Hv in Hw. injection Hw as <-. exists a.
      repeat split; [done|done|]. by rewrite Hout, lookup_insert_eq.
    + apply Hin; [done|]. rewrite lookup_insert_ne; [done|].
      intros ->. done.
  - intros k' Hk'. apply not_elem_of_cons in Hk' as [Hne' Hk'].
    by rewrite Hout, lookup_insert_ne.
Qed.

(** What [_combine_in_place] has returned, when it returns: every field
    of the example joined with the field of the add-on, its first label
    forced. *)
Lemma combine_success (ex add_on r : example) :
  _combine_in_place ex add_on = Ok r →
  ∀ k v, ex !! k = Some v →
    ∃ a, forced add_on !! k = Some a ∧ (k = "sequence_id" → v ≠ []) ∧
         r !! k = Some (joined k v a).
Proof.
  unfold _combine_in_place. intros H k v Hv.
  assert (∃ add_on', combine_keys (map fst (map_to_list ex)) ex add_on'
                     = Ok r ∧ add_on' = forced add_on) as (? & Hr & ->).
  { unfold forced. destruct (add_on !! "labels") as [[|x l]|]; try done;
      simpl in H; eauto. }
  destruct (combine_keys_success _ _ _ _ (NoDup_fst_map_to_list ex) Hr)
    as [Hin _].
  apply Hin; [|done]. apply elem_of_keys. eauto.
Qed.

Section bins_invariant.
Context (mx : Z) (Pb Pi : bin → Prop).
Hypothesis open_bin : ∀ item, Pi item → Pb item.
Hypothesis merge : ∀ s ex s' a r,
  Pb (s, ex) → Pi (s', a) → s + s' <= mx →
  _combine_in_place ex a = Ok r → Pb (s + s', r).

Lemma place_item_inv nb n i item (bins : list bin) :
  Forall Pb bins → Pi item →
  Forall Pb (place_item false nb mx n i item bins).2.
Proof.
  intros Hb Hi. unfold place_item. destruct item as [size ex].
  destruct (n - i <? Z.max 0 (nb - len bins)); [done|].
  destruct (n - i =? Z.max 0 (nb - len bins)).
  { simpl. apply Forall_app. split; [done|]. constructor; auto. }
  destruct (first_fit size mx bins) as [bidx|] eqn:Hfit.
  2:{ simpl. apply Forall_app. split; [done|]. constructor; auto. }
  destruct (first_fit_Some _ _ _ _ Hfit) as ([bs p] & Hl & Hle).
  rewrite Hl. simpl in Hle.
  assert (Forall Pb (delete bidx bins)) by by apply Forall_delete.
  destruct (_combine_in_place p ex) as [r|e] eqn:Hc; simpl; [|done].
  apply Forall_app. split; [done|]. constructor; [|done].
  eapply merge; [|exact Hi|done|exact Hc].
  by apply (Forall_lookup_1 _ _ _ _ Hb Hl).
Qed.

Lemma place_items_inv nb n items : ∀ i (bins : list bin),
  Forall Pb bins → Forall Pi items →
  Forall Pb (place_items false nb mx n i items bins).2.
Proof.
  induction items as [|item rest IH]; intros i bins Hb Hi; simpl; [done|].
  apply Forall_cons in Hi as [Hitem Hrest].
  pose proof (place_item_inv nb n i item bins Hb Hitem) as H1.
  destruct (place_item false nb mx n i item bins) as [[[]|e] bins1];
    simpl in *; [by apply IH|done].
Qed.

Lemma engine_inv sizes examples nb existing :
  Forall Pb existing → Forall Pi (zip sizes examples) →
  Forall Pb
    (_first_fit_bin_packing false sizes examples nb mx existing).2.
Proof.
  intros He Hz. unfold _first_fit_bin_packing.
  assert (Forall Pi (sorted_desc (zip sizes examples))) as Hi
    by by apply Forall_sorted_desc.
  destruct (len sizes <? Z.max 0 (nb - len existing)).
  - rewrite assemble_bins. apply Forall_app. split; [done|].
    eapply Forall_impl; [exact Hi|]. auto.
  - pose proof (place_items_inv nb (len sizes) _ 0 _ He Hi) as H.
    destruct (place_items _ _ _ _ _ _ _) as [[[]|e] bins1]; simpl in *;
      [by rewrite assemble_bins|done].
Qed.

(** The packed examples and the leftover bins the engine returns. *)
Lemma engine_inv_out sizes examples nb existing packed np nt leftover bins' :
  Forall Pb existing → Forall Pi (zip sizes examples) →
  _first_fit_bin_packing false sizes examples nb mx existing
  = (Ok (packed, np, nt, leftover), bins') →
  ∃ selected,
    packed = selected.*2 ∧ np = total_bin_sizes selected ∧
    Forall Pb selected ∧ Forall Pb leftover.
Proof.
  intros He Hz E. pose proof (engine_inv sizes examples nb existing He Hz) as H.
  rewrite E in H. simpl in H.
  apply engine_ok, assemble_ok in E as (_ & _ & [= -> -> _ ->]).
  apply Forall_sorted_desc in H.
  exists (slice_to nb (sorted_desc bins')). repeat split.
  - by apply Forall_take.
  - by apply Forall_drop.
Qed.
End bins_invariant.

(** ** Sequence ids of packed examples *)

Lemma blocks_from_snoc cs : ∀ i c,
  blocks_from i (cs ++ [c])
  = blocks_from i cs ++ replicate c (i + Z.of_nat (length cs)).
Proof.
  induction cs as [|c' cs IH]; intros i c; simpl.
  - by rewrite app_nil_r, Z.add_0_r.
  - rewrite IH, <- app_assoc. do 3 f_equal. lia.
Qed.

Lemma blocks_from_upper cs : ∀ i x,
  x ∈ blocks_from i cs → x < i + Z.of_nat (length cs).
Proof.
  induction cs as [|c cs IH]; intros i x; simpl.
  - intros H. by apply elem_of_nil in H.
  - intros [H|H]%elem_of_app.
    + apply elem_of_replicate in H as [-> _]. lia.
    + apply IH in H. lia.
Qed.

Lemma blocks_from_last cs : ∀ i,
  cs ≠ [] → Forall (fun c => (0 < c)%nat) cs →
  i + Z.of_nat (length cs) - 1 ∈ blocks_from i cs.
Proof.
  induction cs as [|c cs IH]; intros i Hne Hpos; [done|].
  apply Forall_cons in Hpos as [Hc Hpos]. simpl. apply elem_of_app.
  destruct cs as [|c' cs].
  - left. apply elem_of_replicate. split; [simpl; lia|lia].
  - right. replace (i + Z.of_nat (S (length (c' :: cs))) - 1)
      with (i + 1 + Z.of_nat (length (c' :: cs)) - 1) by lia.
    by apply IH.
Qed.

Lemma max_of_blocks cs :
  cs ≠ [] → Forall (fun c => (0 < c)%nat) cs →
  max_of (blocks_from 0 cs) = Z.of_nat (length cs) - 1.
Proof.
  intros Hne Hpos. pose proof (blocks_from_last cs 0 Hne Hpos) as Hlast.
  assert (blocks_from 0 cs ≠ []) as Hne'
    by (intros E; rewrite E in Hlast; by apply elem_of_nil in Hlast).
  destruct (max_of_spec _ Hne') as [Hin Hmax].
  apply blocks_from_upper in Hin. apply Hmax in Hlast. lia.
Qed.

Lemma map_replicate {A B} (f : A → B) n x :
  map f (replicate n x) = replicate n (f x).
Proof. induction n as [|n IH]; simpl; [done|]. by rewrite IH. Qed.

Lemma length_le_sum_list (cs : list nat) :
  Forall (fun c => (0 < c)%nat) cs → (length cs ≤ sum_list cs)%nat.
Proof. induction 1 as [|c cs Hc _ IH]; simpl; lia. Qed.

Lemma concat_Permutation {A} (l k : list (list A)) :
  l ≡ₚ k → concat l ≡ₚ concat k.
Proof.
  induction 1 as [|x l k _ IH|x y l|l k m _ IH1 _ IH2]; simpl.
  - done.
  - by rewrite IH.
  - rewrite !app_assoc. f_equiv. apply Permutation_app_comm.
  - by rewrite IH1.
Qed.

(** A relation between two lists survives a rearrangement of one of them,
    with the other rearranged in the same way. *)
Lemma Forall2_Permutation_r {A B} (P : A → B → Prop) (k k' : list B) :
  k ≡ₚ k' → ∀ l, Forall2 P l k → ∃ l', l ≡ₚ l' ∧ Forall2 P l' k'.
Proof.
  induction 1 as [|x k k' _ IH|x y k|k k1 k' _ IH1 _ IH2]; intros l Hl.
  - inversion Hl; subst. by exists [].
  - inversion Hl as [|a ? l0 ? Ha Hl0]; subst.
    destruct (IH _ Hl0) as (l' & Hp & Hl').
    exists (a :: l'). split; [by rewrite Hp|by constructor].
  - inversion Hl as [|a ? l0 ? Ha Hl0]; subst.
    inversion Hl0 as [|b ? l1 ? Hb Hl1]; subst.
    exists (b :: a :: l1). split; [apply perm_swap|by repeat constructor].
  - destruct (IH1 _ Hl) as (l1 & Hp1 & Hl1).
    destruct (IH2 _ Hl1) as (l2 & Hp2 & Hl2).
    exists l2. split; [by rewrite Hp1|done].
Qed.

Lemma unnumbered_numbered item :
  unnumbered item → numbered_by [Z.to_nat item.1] item.
Proof.
  intros [Hs Hseq]. repeat split.
  - done.
  - constructor; [lia|constructor].
  - simpl. lia.
  - simpl. by rewrite app_nil_r.
Qed.

(** Merging an item into a bin adds one block, numbered with the number
    of examples the bin held; since the merged bin fits the capacity, that
    number is far from the end of the 64-bit range. *)
Lemma numbered_merge (mx s : Z) cs (ex : example) s' (a r : example) :
  mx < 9223372036854775808 →
  numbered_by cs (s, ex) → unnumbered (s', a) → s + s' <= mx →
  _combine_in_place ex a = Ok r →
  numbered_by (cs ++ [Z.to_nat s']) (s + s', r).
Proof.
  intros Hmx (Hne & Hpos & Hs & Hseq) [Hs' Hseq'] Hfit Hc. simpl in *.
  destruct (combine_success _ _ _ Hc _ _ Hseq) as (a' & Ha' & _ & Hr).
  rewrite (forced_lookup _ _ _ Hseq') in Ha'.
  rewrite decide_False in Ha' by done. injection Ha' as <-.
  pose proof (length_le_sum_list cs Hpos) as Hlen.
  repeat split.
  - by destruct cs.
  - apply Forall_app. split; [done|]. constructor; [lia|constructor].
  - simpl. rewrite sum_list_with_app. simpl. lia.
  - simpl. rewrite Hr. f_equal. unfold joined. rewrite decide_True by done.
    rewrite blocks_from_snoc, max_of_blocks by done. f_equal.
    rewrite map_replicate. f_equal.
    rewrite wrap64_add, wrap64_small; lia.
Qed.

Lemma place_item_numbered nb mx n i item (bins : list bin) held bins' :
  mx < 9223372036854775808 →
  Forall2 numbered_by held bins → unnumbered item →
  place_item false nb mx n i item bins = (Ok (), bins') →
  ∃ held',
    Forall2 numbered_by held' bins' ∧
    concat held' ≡ₚ concat held ++ [Z.to_nat item.1].
Proof.
  intros Hmx Hb Hi. unfold place_item. destruct item as [size ex].
  assert (∃ held',
            Forall2 numbered_by held' (bins ++ [(size, ex)]) ∧
            concat held' ≡ₚ concat held ++ [Z.to_nat size]) as Hopen.
  { exists (held ++ [[Z.to_nat size]]). split.
    - apply Forall2_app; [done|].
      constructor; [by apply (unnumbered_numbered (size, ex))|constructor].
    - rewrite concat_app. simpl. by rewrite ?app_nil_r. }
  destruct (n - i <? Z.max 0 (nb - len bins)); [done|].
  destruct (n - i =? Z.max 0 (nb - len bins)); [by intros [= <-]|].
  destruct (first_fit size mx bins) as [bidx|] eqn:Hfit;
    [|by intros [= <-]].
  destruct (first_fit_Some _ _ _ _ Hfit) as ([bs p] & Hl & Hle).
  rewrite Hl. simpl in Hle.
  destruct (_combine_in_place p ex) as [r|e] eqn:Hc; [|done].
  intros [= <-].
  destruct (Forall2_lookup_r _ _ _ _ _ Hb Hl) as (cs & Hcs & Hnum).
  exists (delete bidx held ++ [cs ++ [Z.to_nat size]]). split.
  - apply Forall2_app; [by apply Forall2_delete|].
    constructor; [|constructor].
    by apply (numbered_merge mx bs cs p size ex r).
  - rewrite concat_app. simpl. rewrite ?app_nil_r.
    rewrite (concat_Permutation _ _ (delete_Permutation _ _ _ Hcs)). simpl.
    rewrite !app_assoc. f_equiv. apply Permutation_app_comm.
Qed.

Lemma place_items_numbered nb mx n items : ∀ i (bins : list bin) held bins',
  mx < 9223372036854775808 →
  Forall2 numbered_by held bins → Forall unnumbered items →
  place_items false nb mx n i items bins = (Ok (), bins') →
  ∃ held',
    Forall2 numbered_by held' bins' ∧
    concat held' ≡ₚ concat held ++ (Z.to_nat <$> items.*1).
Proof.
  induction items as [|item rest IH]; intros i bins held bins' Hmx Hb Hi;
    simpl.
  { intros [= <-]. exists held. split; [done|]. by rewrite app_nil_r. }
  apply Forall_cons in Hi as [Hitem Hrest].
  destruct (place_item false nb mx n i item bins) as [[[]|e] bins1] eqn:E;
    [|done].
  destruct (place_item_numbered _ _ _ _ _ _ _ _ Hmx Hb Hitem E)
    as (held1 & Hb1 & Hp1).
  intros Hrun.
  destruct (IH _ _ _ _ Hmx Hb1 Hrest Hrun) as (held' & Hb' & Hp').
  exists held'. split; [done|]. rewrite Hp', Hp1. by rewrite <- app_assoc.
Qed.

Lemma open_bins_numbered (items : list bin) :
  Forall unnumbered items →
  ∃ held,
    Forall2 numbered_by held items ∧ concat held = Z.to_nat <$> items.*1.
Proof.
  induction 1 as [|item items Hitem _ (held & Hb & Hc)].
  - by exists [].
  - exists ([Z.to_nat item.1] :: held). split.
    + constructor; [by apply unnumbered_numbered|done].
    + simpl. by rewrite Hc.
Qed.

Lemma zip_unnumbered (sizes : list Z) (examples : list example) :
  Forall2 (fun s ex =>
             1 <= s ∧
             ex !! "sequence_id" = Some (replicate (Z.to_nat s) 0))
    sizes examples →
  Forall unnumbered (zip sizes examples).
Proof.
  induction 1 as [|s ex sizes examples H _ IH]; simpl; by constructor.
Qed.

(** The working list of the engine when it returns: its blocks are those
    of the bins carried in and one block for every example passed. *)
Lemma engine_numbered sizes examples nb mx existing held out bins' :
  mx < 9223372036854775808 →
  Forall2 numbered_by held existing →
  Forall2 (fun s ex =>
             1 <= s ∧
             ex !! "sequence_id" = Some (replicate (Z.to_nat s) 0))
    sizes examples →
  _first_fit_bin_packing false sizes examples nb mx existing
  = (Ok out, bins') →
  ∃ held',
    Forall2 numbered_by held' bins' ∧
    concat held' ≡ₚ concat held ++ (Z.to_nat <$> sizes).
Proof.
  intros Hmx He Hin. pose proof (Forall2_length _ _ _ Hin) as Hlen.
  apply zip_unnumbered in Hin. unfold _first_fit_bin_packing.
  set (items := sorted_desc (zip sizes examples)).
  assert (Forall unnumbered items) as Hi by by apply Forall_sorted_desc.
  assert (Z.to_nat <$> items.*1 ≡ₚ Z.to_nat <$> sizes) as Hsizes.
  { unfold items. rewrite sorted_desc_Permutation.
    by rewrite zip_fst_le by lia. }
  destruct (len sizes <? Z.max 0 (nb - len existing)).
  - intros E. apply assemble_ok in E as (-> & _).
    destruct (open_bins_numbered items Hi) as (hs & Hhs & Hc).
    exists (held ++ hs). split; [by apply Forall2_app|].
    by rewrite concat_app, Hc, Hsizes.
  - destruct (place_items _ _ _ _ _ _ _) as [[[]|e] bins1] eqn:E; [|done].
    intros Ha. apply assemble_ok in Ha as (-> & _).
    destruct (place_items_numbered _ _ _ _ _ _ _ _ Hmx He Hi E)
      as (held' & Hb' & Hp').
    exists held'. split; [done|]. by rewrite Hp', Hsizes.
Qed.

(** Sequence ids number the examples of a packed row.  In normal mode,
    with a capacity that fits a 64-bit integer, when the examples passed
    have at least one token and a [sequence_id] of zeros of their length
    (as [_trim_batch] makes them) and each bin carried in is numbered (its
    [sequence_id] is a block of 0s, then a block of 1s, and so on, the
    lengths of the blocks adding up to its size), then so is every bin
    the engine returns, selected or left over; and the blocks of all the
    bins returned are, up to their order, the blocks of the bins carried
    in and one block for each example passed, of the length of that
    example.  So every example is one block of one bin, and the ids of a
    packed row count the examples in it. *)
Theorem packed_sequence_ids sizes examples nb mx existing held
    packed np nt leftover bins' :
  mx < 9223372036854775808 →
  Forall2 numbered_by held existing →
  Forall2 (fun s ex =>
             1 <= s ∧
             ex !! "sequence_id" = Some (replicate (Z.to_nat s) 0))
    sizes examples →
  _first_fit_bin_packing false sizes examples nb mx existing
  = (Ok (packed, np, nt, leftover), bins') →
  ∃ selected held_selected held_leftover,
    packed = selected.*2 ∧
    Forall2 numbered_by held_selected selected ∧
    Forall2 numbered_by held_leftover leftover ∧
    concat held_selected ++ concat held_leftover
    ≡ₚ concat held ++ (Z.to_nat <$> sizes).
Proof.
  intros Hmx He Hin E.
  destruct (engine_numbered _ _ _ _ _ _ _ _ Hmx He Hin E)
    as (held' & Hb' & Hp').
  apply engine_ok, assemble_ok in E as (_ & _ & [= -> _ _ ->]).
  destruct (Forall2_Permutation_r numbered_by bins' (sorted_desc bins'))
    with (l := held') as (hs & Hperm & Hhs);
    [by rewrite sorted_desc_Permutation|done|].
  set (k := slice_index (length (sorted_desc bins')) nb).
  exists (slice_to nb (sorted_desc bins')), (take k hs), (drop k hs).
  split; [done|]. split; [by apply Forall2_take|].
  split; [by apply Forall2_drop|].
  rewrite <- concat_app, take_drop, <- Hp'.
  apply concat_Permutation. by symmetry.
Qed.

Lemma packed_sequence_ids_witness :
  ∃ (selected : list bin) held_selected held_leftover,
    [<["sequence_id" := [0; 0; 1]]> ∅] = selected.*2 ∧
    Forall2 numbered_by held_selected selected ∧
    Forall2 numbered_by held_leftover [] ∧
    concat held_selected ++ concat held_leftover
    ≡ₚ concat [] ++ (Z.to_nat <$> [2; 1]).
Proof.
  assert (_first_fit_bin_packing false [2; 1]
            [<["sequence_id" := [0; 0]]> ∅; <["sequence_id" := [0]]> ∅]
            1 4 []
          = (Ok ([<["sequence_id" := [0; 0; 1]]> ∅], 3, 3, []),
             [(3, <["sequence_id" := [0; 0; 1]]> ∅)])) as E
    by (vm_compute; reflexivity).
  assert (4 < 9223372036854775808) as Hmx by lia.
  assert (Forall2 numbered_by [] []) as He by constructor.
  assert (Forall2 (fun s (ex : example) =>
                     1 <= s ∧
                     ex !! "sequence_id" = Some (replicate (Z.to_nat s) 0))
            [2; 1]
            [<["sequence_id" := [0; 0]]> ∅; <["sequence_id" := [0]]> ∅])
    as Hin.
  { constructor; [split; [lia|reflexivity]|].
    constructor; [split; [lia|reflexivity]|]. constructor. }
  exact (packed_sequence_ids _ _ _ _ _ _ _ _ _ _ _ Hmx He Hin E).
Defined.

(** ** The attention mask of a packed batch *)

Lemma attended_app l1 l2 : attended (l1 ++ l2) = attended l1 + attended l2.
Proof. unfold attended. by rewrite filter_app, len_app. Qed.

Lemma attended_ones n : attended (replicate n 1) = Z.of_nat n.
Proof.
  unfold attended, len. f_equal. induction n as [|n IH]; [done|].
  simpl. by rewrite IH.
Qed.

Lemma attended_zeros n : attended (replicate n 0) = 0.
Proof.
  unfold attended, len. induction n as [|n IH]; [done|].
  simpl. by rewrite filter_cons.
Qed.

Lemma mask_select_self (mask_row : tensor) :
  mask_select (map (fun x => bool_decide (x = 1)) mask_row) mask_row
  = replicate (Z.to_nat (attended mask_row)) 1.
Proof.
  unfold mask_select, attended, len. rewrite Nat2Z.id.
  induction mask_row as [|x l IH]; [done|].
  cbn [map zip]. rewrite !filter_cons. cbn [snd].
  destruct (decide (x = 1)) as [->|Hne].
  - rewrite bool_decide_eq_true_2 by done. rewrite decide_True by done.
    cbn [fmap list_fmap fst length replicate]. f_equal. exact IH.
  - rewrite bool_decide_eq_false_2 by done. rewrite decide_False by done.
    exact IH.
Qed.

Lemma extract_trim_attending (b : batch) idx size ex :
  _extract_trim_batch_idx b idx = Ok (size, ex) → attending (size, ex).
Proof.
  unfold _extract_trim_batch_idx.
  case_bool_decide as Hrows; [|done].
  destruct (_ !! "attention_mask") as [mask_row|] eqn:Hmask; [|done]. simpl.
  case_bool_decide as Hshape; [|done].
  destruct (_ !! "input_ids") as [ids|]; [|done].
  intros [= <- <-]. rewrite attended_keep. split; simpl.
  - apply len_nonneg.
  - rewrite lookup_insert_ne by done.
    rewrite lookup_fmap, Hmask. simpl. by rewrite mask_select_self.
Qed.

Lemma trim_batch_attending (b : batch) sizes trimmed :
  _trim_batch b = Ok (sizes, trimmed) → Forall attending (zip sizes trimmed).
Proof.
  unfold _trim_batch.
  destruct (b !! "attention_mask") as [mask|]; [|done].
  destruct (mapM _ _) as [res|e] eqn:E; [|done]. simpl. intros [= <- <-].
  apply mapM_Ok in E.
  induction E as [|idx [size ex] idxs res H _ IH]; simpl; constructor;
    [|done].
  by apply extract_trim_attending in H.
Qed.

Lemma attending_merge (mx s : Z) (ex : example) s' (a r : example) :
  attending (s, ex) → attending (s', a) → s + s' <= mx →
  _combine_in_place ex a = Ok r → attending (s + s', r).
Proof.
  intros [Hs Hm] [Hs' Hm'] _ Hc. simpl in *.
  destruct (combine_success _ _ _ Hc _ _ Hm) as (a' & Ha' & _ & Hr).
  rewrite (forced_lookup _ _ _ Hm') in Ha'.
  rewrite decide_False in Ha' by done. injection Ha' as <-.
  split; simpl; [lia|]. rewrite Hr. f_equal. unfold joined.
  rewrite decide_False by done. rewrite <- replicate_add. f_equal. lia.
Qed.

(** Padding a mask of ones with zeros keeps the number of ones. *)
Lemma pad_mask_attended n mx side r :
  1 <= mx → _pad_tensor (replicate n 1) 0 mx side = Ok r →
  attended r = Z.of_nat n.
Proof.
  intros Hmx. unfold _pad_tensor.
  case_decide as Hlen; [intros [= <-]; apply attended_ones|].
  destruct (Z.ltb_spec mx 0); [lia|]. simpl.
  unfold len in *. rewrite length_replicate in *.
  set (N := Z.to_nat mx).
  assert (∀ start stop r,
            (stop - start = 1)%nat ∨ n ≠ 1%nat →
            slice_assign start stop (replicate N 0) (replicate n 1) = Ok r →
            attended r = Z.of_nat n) as Hassign.
  { intros start stop r' Hm. unfold slice_assign.
    rewrite length_replicate, take_replicate, drop_replicate.
    case_decide; [|case_decide; [|done]]; intros [= <-];
      rewrite !attended_app, !attended_zeros, ?attended_ones; [lia|].
    destruct Hm as [Hm|Hm]; [|done]. lia. }
  assert (slice_index N (- Z.of_nat n) = (N - n)%nat ∨ n = 0%nat) as Hl.
  { unfold slice_index. destruct (Z.ltb_spec (- Z.of_nat n) 0); lia. }
  assert (slice_index N (Z.of_nat n) = Nat.min n N) as Hr.
  { unfold slice_index. destruct (Z.ltb_spec (Z.of_nat n) 0); lia. }
  case_decide; [|case_decide; [|done]]; apply Hassign; lia.
Qed.

Lemma stack_rows rows stacked : stack rows = Ok stacked → stacked = rows.
Proof.
  unfold stack. destruct rows as [|r rows]; [done|].
  by destruct (forallb _ _); intros [= <-].
Qed.

Lemma convert_keys_success self packed keys : ∀ (acc b : batch),
  convert_keys self keys packed acc = Ok b →
  (∀ k, k ∈ keys →
     ∃ rows, b !! k = Some rows ∧ mapM (pad_field self k) packed = Ok rows) ∧
  (∀ k, k ∉ keys → b !! k = acc !! k).
Proof.
  induction keys as [|key ks IH]; intros acc b; simpl.
  { intros [= <-]. split; [|done]. intros k Hk. by apply elem_of_nil in Hk. }
  destruct (mapM (pad_field self key) packed) as [rows|] eqn:Hrows; [|done].
  simpl. destruct (stack rows) as [stacked|] eqn:Hst; [|done]. simpl.
  apply stack_rows in Hst as ->. intros Hb.
  destruct (IH _ _ Hb) as [Hin Hout]. split.
  - intros k Hk. destruct (decide (k ∈ ks)) as [Hks|Hks]; [by apply Hin|].
    apply elem_of_cons in Hk as [->|Hk]; [|done].
    exists rows. split; [|done]. by rewrite Hout, lookup_insert_eq.
  - intros k Hk. apply not_elem_of_cons in Hk as [Hne Hk].
    by rewrite Hout, lookup_insert_ne.
Qed.

(** What [_convert_to_batch] has returned, when it returns: under every
    field name of the first packed example, one padded row for each
    packed example. *)
Lemma convert_success self first rest (b : batch) k :
  _convert_to_batch self (first :: rest) = Ok b → is_Some (first !! k) →
  ∃ rows, b !! k = Some rows ∧
          Forall2 (fun ex row => pad_field self k ex = Ok row)
            (first :: rest) rows.
Proof.
  unfold _convert_to_batch. intros Hb Hk.
  destruct (convert_keys_success _ _ _ _ _ Hb) as [Hin _].
  destruct (Hin k) as (rows & Hrows & Hm); [by apply elem_of_keys|].
  exists rows. split; [done|]. by apply mapM_Ok.
Qed.

Lemma mask_rows self (selected : list bin) : ∀ rows,
  1 <= max_seq_len self → Forall attending selected →
  Forall2 (fun ex row => pad_field self "attention_mask" ex = Ok row)
    selected.*2 rows →
  sum (attended <$> rows) = total_bin_sizes selected.
Proof.
  induction selected as [|bin bins IH]; intros rows Hmx Hsel Hrows;
    simpl in Hrows.
  { by inversion Hrows. }
  inversion Hrows as [|ex row exs rows' Hrow Hrest]; subst.
  apply Forall_cons in Hsel as [[Hs Hm] Hsel].
  rewrite total_cons, <- (IH rows' Hmx Hsel Hrest).
  change (sum (attended <$> row :: rows'))
    with (attended row + sum (attended <$> rows')).
  f_equal. unfold pad_field in Hrow. rewrite Hm in Hrow. simpl in Hrow.
  apply pad_mask_attended in Hrow; [lia|done].
Qed.

(** The attention mask of the packed batch has a 1 for every token
    counted as packed.  In normal mode, on a collator with
    [max_seq_len >= 1] whose leftover bins have an attention mask of ones
    (none, on a new collator), when [pack] returns a batch, the number of
    1s in the [attention_mask] of that batch is the amount by which
    [n_packed_tokens] has grown, and every row has as many 1s as the bin
    it was made from has tokens; the leftover bins kept for the next call
    have an attention mask of ones again. *)
Theorem packed_mask_counts_tokens self (b : batch) packed self' :
  1 <= max_seq_len self →
  Forall attending (_leftover_bins self) →
  pack self b = (Ok packed, self') →
  ∃ mask,
    packed !! "attention_mask" = Some mask ∧
    sum (attended <$> mask) = n_packed_tokens self' - n_packed_tokens self ∧
    Forall attending (_leftover_bins self').
Proof.
  intros Hmx Hleft. unfold pack.
  destruct (_is_profiling self) eqn:Hprof; [done|].
  repeat (case_bool_decide; [done|]). destruct (negb _); [done|].
  destruct (_trim_batch b) as [[sizes trimmed]|e] eqn:Ht; [|done].
  apply trim_batch_attending in Ht.
  unfold _pack_trimmed_examples. rewrite Hprof.
  destruct (_first_fit_bin_packing _ _ _ _ _ _)
    as [[[[[pk np] nt] left]|e] bins'] eqn:E; [|done].
  destruct (engine_inv_out (max_seq_len self) attending attending
              (fun _ H => H) (attending_merge (max_seq_len self))
              _ _ _ _ _ _ _ _ _ Hleft Ht E)
    as (selected & -> & -> & Hsel & Hrest).
  match goal with |- context [_convert_to_batch ?s _] => set (self1 := s) end.
  destruct (_convert_to_batch self1 selected.*2) as [pb|e] eqn:Hc; [|done].
  intros [= <- <-]. simpl.
  destruct selected as [|first rest]; [done|].
  pose proof Hsel as [[_ Hfirst] _]%Forall_cons.
  destruct (convert_success self1 _ _ _ "attention_mask" Hc)
    as (mask & Hmask & Hrows); [by rewrite Hfirst|].
  exists mask. split; [done|]. split.
  - pose proof (mask_rows self1 (first :: rest) mask Hmx Hsel Hrows). lia.
  - destruct (max_leftover_bins_to_keep self); simpl; [|done].
    by apply Forall_take.
Qed.

Lemma packed_mask_counts_tokens_witness :
  ∃ packed self' mask,
    pack (fresh 1 3 0 "left" None false) batch_of_two_rows
    = (Ok packed, self') ∧
    packed !! "attention_mask" = Some mask ∧
    sum (attended <$> mask) = n_packed_tokens self' - 0.
Proof.
  assert (∃ packed self',
            pack (fresh 1 3 0 "left" None false) batch_of_two_rows
            = (Ok packed, self')) as (packed & self' & E)
    by (do 2 eexists; reflexivity).
  assert (1 <= max_seq_len (fresh 1 3 0 "left" None false)) as Hmx
    by (simpl; lia).
  assert (Forall attending (_leftover_bins (fresh 1 3 0 "left" None false)))
    as Hleft by constructor.
  destruct (packed_mask_counts_tokens _ _ _ _ Hmx Hleft E)
    as (mask & Hmask & Hsum & _).
  exists packed, self', mask. split; [exact E|]. split; [exact Hmask|].
  exact Hsum.
Defined.

(** ** The tokens of a packed example *)

Lemma forced_other (add_on : example) k :
  k ≠ "labels" → forced add_on !! k = add_on !! k.
Proof.
  intros Hk. unfold forced. destruct (add_on !! "labels"); [|done].
  by rewrite lookup_insert_ne.
Qed.

Lemma combine_absent (ex add_on r : example) k :
  _combine_in_place ex add_on = Ok r → ex !! k = None → r !! k = None.
Proof.
  unfold _combine_in_place. intros H Hk.
  destruct (match add_on !! "labels" with
            | Some l =>
                l' ← set_first CROSS_ENTROPY_IGNORE_INDEX l ;
                Ok (<["labels" := l']> add_on)
            | None => Ok add_on
            end) as [add_on'|]; [|done].
  simpl in H.
  destruct (combine_keys_success _ _ _ _ (NoDup_fst_map_to_list ex) H)
    as [_ Hout].
  rewrite Hout; [done|]. rewrite elem_of_keys, Hk. by intros [? ?].
Qed.

(** Packing keeps the examples whole.  In normal mode, for every field
    [k] other than [labels] and [sequence_id], field [k] of each packed
    example the engine returns is the concatenation of field [k] of one
    or more of the examples passed in or carried in by a bin: values are
    never altered, split or dropped inside an example. *)
Theorem packed_fields_are_concatenations k sizes examples nb mx existing
    packed np nt leftover bins' :
  k ≠ "labels" → k ≠ "sequence_id" →
  _first_fit_bin_packing false sizes examples nb mx existing
  = (Ok (packed, np, nt, leftover), bins') →
  Forall (fun ex : example =>
            ∀ v, ex !! k = Some v →
              ∃ parts,
                parts ≠ [] ∧
                Forall (fun t =>
                          t ∈ omap (fun e : example => e !! k)
                                (existing.*2 ++ examples))
                  parts ∧
                v = concat parts)
    packed.
Proof.
  intros Hlab Hseq E.
  set (sources := omap (fun e : example => e !! k) (existing.*2 ++ examples)).
  set (Pb := fun b : bin =>
               ∀ v, b.2 !! k = Some v →
                 ∃ parts, parts ≠ [] ∧ Forall (fun t => t ∈ sources) parts ∧
                          v = concat parts).
  set (Pi := fun item : bin => ∀ v, item.2 !! k = Some v → v ∈ sources).
  assert (∀ item, Pi item → Pb item) as Hopen.
  { intros item Hitem v Hv. exists [v]. repeat split; [done| |].
    - constructor; [by apply Hitem|constructor].
    - simpl. by rewrite app_nil_r. }
  assert (∀ s (ex : example) s' (a r : example),
            Pb (s, ex) → Pi (s', a) → s + s' <= mx →
            _combine_in_place ex a = Ok r → Pb (s + s', r)) as Hmerge.
  { intros s ex s' a r Hb Hitem _ Hc v Hv. simpl in *.
    destruct (ex !! k) as [w|] eqn:Hw.
    2:{ by rewrite (combine_absent _ _ _ _ Hc Hw) in Hv. }
    destruct (combine_success _ _ _ Hc _ _ Hw) as (a' & Ha' & _ & Hr).
    rewrite forced_other in Ha' by done.
    rewrite Hr in Hv. injection Hv as <-.
    destruct (Hb w Hw) as (parts & Hne & Hparts & ->).
    exists (parts ++ [a']). repeat split.
    - by destruct parts.
    - apply Forall_app. split; [done|]. constructor; [|constructor].
      by apply (Hitem a').
    - unfold joined. rewrite decide_False by done.
      rewrite concat_app. simpl. by rewrite app_nil_r. }
  assert (Forall Pb existing) as He.
  { apply Forall_forall. intros b Hb. apply Hopen. intros v Hv.
    apply list_elem_of_omap. exists b.2. split; [|done].
    apply elem_of_app. left. by apply list_elem_of_fmap_2. }
  assert (Forall Pi (zip sizes examples)) as Hz.
  { apply (zip_examples (fun ex => ∀ v, ex !! k = Some v → v ∈ sources)).
    apply Forall_forall. intros ex Hex v Hv.
    apply list_elem_of_omap. exists ex. split; [|done].
    apply elem_of_app. by right. }
  destruct (engine_inv_out mx Pb Pi Hopen Hmerge _ _ _ _ _ _ _ _ _ He Hz E)
    as (selected & -> & _ & Hsel & _).
  apply Forall_fmap. exact Hsel.
Qed.

Lemma packed_fields_are_concatenations_witness :
  Forall (fun ex : example =>
            ∀ v, ex !! "input_ids" = Some v →
              ∃ parts,
                parts ≠ [] ∧
                Forall (fun t => t ∈ [[7; 8]; [9]]) parts ∧
                v = concat parts)
    [<["input_ids" := [7; 8; 9]]> ∅].
Proof.
  assert (_first_fit_bin_packing false [2; 1]
            [<["input_ids" := [7; 8]]> ∅; <["input_ids" := [9]]> ∅]
            1 4 []
          = (Ok ([<["input_ids" := [7; 8; 9]]> ∅], 3, 3, []),
             [(3, <["input_ids" := [7; 8; 9]]> ∅)])) as E
    by (vm_compute; reflexivity).
  assert ("input_ids" ≠ "labels") as Hlab by discriminate.
  assert ("input_ids" ≠ "sequence_id") as Hseq by discriminate.
  exact (packed_fields_are_concatenations "input_ids" _ _ _ _ _ _ _ _ _ _
           Hlab Hseq E).
Defined.

(** ** Profiling examples without tokens *)

Lemma received_nothing calls : ∀ self self',
  Forall (fun c =>
            match c with
            | call_pack_trimmed t s => Forall (fun x => x = 0) s
            | call_pack _ => False
            end) calls →
  successful_calls self calls = Some self' →
  n_total_tokens self' = n_total_tokens self.
Proof.
  induction calls as [|c cs IH]; intros self self' Hcs; simpl.
  { by intros [= <-]. }
  apply Forall_cons in Hcs as [Hc Hcs].
  destruct (do_call self c) as [[[]|e] self1] eqn:E; [|done].
  destruct (do_call_ok_state _ _ _ E)
    as (sizes & trimmed & packed & np & left & bins'
        & Hsz & _ & _ & _ & Hnt & _).
  destruct c as [b|t s]; [done|]. destruct Hsz as [-> ->].
  intros Hrest. rewrite (IH _ _ Hcs Hrest), Hnt.
  assert (sum s = 0); [|lia].
  clear -Hc. induction Hc as [|x l -> _ IH]; [done|].
  change (sum (0 :: l)) with (0 + sum l). lia.
Qed.

(** Examples without tokens make [profile] fail.  With arguments the
    collator accepts, a size for every example, every size 0, and a first
    chunk large enough to be packed ([device_batch_size] is at most
    [raw_batch_size] and at most the number of examples), [profile]
    raises [ZeroDivisionError]: examples were counted as packed, so the
    statistics are computed, and [waste] divides by the number of tokens
    received, which is 0. *)
Theorem profile_no_tokens dbs msl keep sizes trimmed rbs :
  1 <= dbs → 1 <= msl → (∀ k, keep = Some k → 0 <= k) →
  length trimmed = length sizes →
  dbs <= rbs → dbs <= len trimmed →
  Forall (fun s => s = 0) sizes →
  profile dbs msl keep sizes trimmed rbs = Raise ZeroDivisionError.
Proof.
  intros Hdbs Hmsl Hkeep Hlen Hrbs Hn Hsizes.
  pose proof (range_step_pos (len trimmed) rbs ltac:(lia)) as Hr.
  pose proof (range_step_nonneg _ _ _ Hr) as Hnn.
  rewrite (profile_feed _ _ _ _ _ _ _ Hdbs Hmsl Hkeep Hr).
  rewrite decide_True in * by lia.
  set (idxs := 0 :: _) in *.
  pose proof (fed_calls_chunks (fun s => s = 0) dbs rbs trimmed sizes idxs
                ltac:(lia) Hlen Hnn Hsizes) as Hch.
  pose proof (fed_calls_first dbs rbs trimmed sizes
                (map (fun i => Z.of_nat i * rbs)
                   (seq 1 (Z.to_nat ((len trimmed + rbs - 1) / rbs) - 1)))
                ltac:(lia) Hrbs Hn) as Hne.
  fold idxs in Hne.
  set (calls := fed_calls dbs rbs trimmed sizes idxs) in *.
  set (packer := fresh dbs msl 0 "left" keep true).
  destruct (profiling_calls_return calls packer eq_refl) as [p Hp].
  { eapply Forall_impl; [exact Hch|]. intros [b|t s]; [done|]. lia. }
  pose proof (received_nothing calls packer p) as Hnt.
  specialize (Hnt ltac:(eapply Forall_impl; [exact Hch|];
                        intros [b|t s]; [done|]; tauto) Hp).
  destruct (successful_calls_count _ _ _ Hp) as [(_ & Hm & _) Hcount].
  simpl in Hnt, Hcount, Hm.
  assert (1 <= len calls) as Hcalls.
  { destruct calls as [|c cs]; [done|]. rewrite len_cons.
    pose proof (len_nonneg cs). lia. }
  apply feed_ok in Hp. fold calls in Hp. rewrite Hp. simpl.
  destruct (Z.eqb_spec (n_packed_examples p) 0); [nia|].
  unfold efficiency.
  destruct (Z.eqb_spec (max_seq_len p * n_packed_examples p) 0); [nia|].
  simpl. unfold waste. by rewrite Hnt.
Qed.

Lemma profile_no_tokens_witness :
  profile 2 4 None [0; 0; 0] [∅; ∅; ∅] 3 = Raise ZeroDivisionError.
Proof.
  assert (∀ k : Z, (None : option Z) = Some k → 0 <= k) as Hkeep
    by discriminate.
  refine (profile_no_tokens 2 4 None [0; 0; 0] [∅; ∅; ∅] 3
            _ _ Hkeep eq_refl _ _ _).
  - lia.
  - lia.
  - lia.
  - vm_compute. discriminate.
  - repeat constructor.
Defined.
